(** * AsterDEX TypeScript SDK: request signing, rate limiting, retries and
      the stream connection, embedded and verified

    The development follows the sources of the SDK:
    - [src/auth/signature.ts]      (HMAC canonical query string),
    - [src/auth/web3signature.ts]  (nonce, address and key validators),
    - [src/utils/http.ts]          (retry loop, sliding-window rate limiter),
    - [src/errors/errors.ts]       (error classes, [isRetryableError], [getRetryDelay]),
    - the WebSocket client, class [AsterWebSocketClient] (the stream
      connection and the event router),
    - [src/config/constants.ts]    (the constants used by the above).

    and, for the further properties, the classes around them: [AuthManager]
    and [ParameterUtils], [FuturesAuthManager], the base REST client.

    Part I holds the embedding, one module per source file or class; Part II
    the properties of the specification, one section per component; Part III
    further properties of the code. *)

From Stdlib Require Import ZArith QArith Ascii String List Bool Lia.
From Stdlib Require Import Sorting.Sorted Sorting.Permutation.
From stdpp Require Import base list strings gmap pretty.

Local Open Scope string_scope.
Local Open Scope list_scope.
Local Open Scope Z_scope.

(* ====================================================================== *)
(** * Part I: the embedding                                                *)
(* ====================================================================== *)

(** ** The JavaScript runtime, as far as the sources use it *)

Module JS.

(** A JavaScript number is an IEEE-754 binary64.  The numbers the modelled
    code computes with (clock readings, counters, their sums and products)
    are integers, held here in [Z]; [to_double] is the rounding that every
    arithmetic result undergoes: exact up to [2^53], to the nearest
    multiple of the unit in the last place (ties to even) beyond. *)
Definition two53 : Z := 2 ^ 53.

Definition round_half_even (a ulp : Z) : Z :=
  let q := a / ulp in
  let r := a mod ulp in
  if 2 * r <? ulp then q * ulp
  else if ulp <? 2 * r then (q + 1) * ulp
  else if Z.even q then q * ulp else (q + 1) * ulp.

Definition to_double (x : Z) : Z :=
  let a := Z.abs x in
  if a <=? two53 then x
  else Z.sgn x * round_half_even a (2 ^ (Z.log2 a - 52)).

(** [Math.trunc] on an integer-valued number. *)
Definition Math_trunc (x : Z) : Z := x.

(** The values a [Record<string, any>] can hold, up to what the signing
    code observes of them: whether the value is [undefined], [null] or a
    string, and its image under [String(...)].  [VNumber n] is an
    integer-valued number of size up to [2^53], which [String] writes in
    decimal.  [VOther repr] stands for any other value (a fractional or
    larger number, an array, an object), [repr] being the result of [String]
    on it. *)
Inductive value : Type :=
| VUndefined
| VNull
| VBool (b : bool)
| VNumber (n : Z)
| VString (s : string)
| VOther (repr : string).

(** [String(value)]. *)
Definition JS_String (v : value) : string :=
  match v with
  | VUndefined => "undefined"
  | VNull => "null"
  | VBool true => "true"
  | VBool false => "false"
  | VNumber n => pretty n
  | VString s => s
  | VOther repr => repr
  end.

(** A plain object, as [Object.entries] lists it: own properties in
    insertion order, every key once. *)
Definition object : Type := list (string * value).

Definition Object_entries (o : object) : list (string * value) := o.

(** Strings are held as their UTF-8 bytes.  [encodeURIComponent] leaves
    the unreserved characters [A-Z a-z 0-9 - _ . ! ~ * ' ( )] and writes
    every other byte as [%XX] with upper-case hexadecimal digits.  (On a
    lone surrogate it throws; such a string has no UTF-8 form.) *)
Definition in_range (lo hi : N) (c : ascii) : bool :=
  ((lo <=? N_of_ascii c) && (N_of_ascii c <=? hi))%N.

Definition is_upper (c : ascii) : bool := in_range 65 90 c.
Definition is_lower (c : ascii) : bool := in_range 97 122 c.
Definition is_digit (c : ascii) : bool := in_range 48 57 c.

Definition is_mark (c : ascii) : bool :=
  existsb (Ascii.eqb c) (list_ascii_of_string "-_.!~*'()").

Definition is_unreserved (c : ascii) : bool :=
  is_upper c || is_lower c || is_digit c || is_mark c.

Definition hex_upper (n : N) : ascii :=
  match n with
  | 0 => "0" | 1 => "1" | 2 => "2" | 3 => "3" | 4 => "4" | 5 => "5"
  | 6 => "6" | 7 => "7" | 8 => "8" | 9 => "9" | 10 => "A" | 11 => "B"
  | 12 => "C" | 13 => "D" | 14 => "E" | _ => "F"
  end%N%char.

Definition percent_encode (c : ascii) : string :=
  String "%" (String (hex_upper (N_of_ascii c / 16))
             (String (hex_upper (N_of_ascii c mod 16)) "")).

Fixpoint encodeURIComponent (s : string) : string :=
  match s with
  | "" => ""
  | String c rest =>
      (if is_unreserved c then String c "" else percent_encode c)
        ++ encodeURIComponent rest
  end.

(** [Array.prototype.sort(compareFn)]: a stable sort; [a] is placed before
    [b] when [compareFn a b <= 0] and [a] came first.  Written as an
    insertion sort, which yields the same array as the engine's sort for
    every consistent [compareFn]. *)
Section Sort.
Context {A : Type} (compareFn : A -> A -> Z).

Fixpoint sort_insert (x : A) (l : list A) : list A :=
  match l with
  | [] => [x]
  | y :: l' => if compareFn x y <=? 0 then x :: l else y :: sort_insert x l'
  end.

Definition Array_sort (l : list A) : list A := foldr sort_insert [] l.
End Sort.

(** [Array.prototype.join]. *)
Definition Array_join (sep : string) (l : list string) : string :=
  String.concat sep l.

(** The comparison of two strings by code units, as [<] does it. *)
Definition raw_le (a b : string) : Prop := String.compare a b <> Gt.

(** The string holds ASCII characters only. *)
Definition is_ascii (s : string) : Prop :=
  Forall (fun c => (N_of_ascii c < 128)%N) (list_ascii_of_string s).

End JS.

(** ** [String.prototype.localeCompare] in an English locale

    [localeCompare] is the host's collation (ICU); the signing code takes it
    as it comes, and so does the embedding: [createQueryString] below is
    parameterised by it.  [localeCompare_en] is the collation of the
    [en] locales on strings of ASCII letters and digits: digits sort before
    letters, letters alphabetically without regard to case, and among strings
    that differ by case only lower case comes first. *)

Module Collation.

Definition primary_weight (c : ascii) : N :=
  if JS.is_digit c then 1000 + N_of_ascii c
  else if JS.is_upper c then 2000 + (N_of_ascii c - 65)
  else if JS.is_lower c then 2000 + (N_of_ascii c - 97)
  else N_of_ascii c.

Definition tertiary_weight (c : ascii) : N :=
  if JS.is_upper c then 1%N else 0%N.

Fixpoint lex_compare (l1 l2 : list N) : comparison :=
  match l1, l2 with
  | [], [] => Eq
  | [], _ :: _ => Lt
  | _ :: _, [] => Gt
  | x :: l1', y :: l2' =>
      match (x ?= y)%N with
      | Eq => lex_compare l1' l2'
      | c => c
      end
  end.

Definition weights (w : ascii -> N) (s : string) : list N :=
  map w (list_ascii_of_string s).

Definition localeCompare_en (a b : string) : Z :=
  match lex_compare (weights primary_weight a) (weights primary_weight b) with
  | Lt => -1
  | Gt => 1
  | Eq =>
      match lex_compare (weights tertiary_weight a) (weights tertiary_weight b) with
      | Lt => -1
      | Eq => 0
      | Gt => 1
      end
  end.

End Collation.

(** ** [src/auth/signature.ts]: the HMAC canonical query string *)

Module Signature.
Import JS.

Section WithCollation.
Variable localeCompare : string -> string -> Z.

(** The filter of [createQueryString]:
    [value !== undefined && value !== null && value !== ''] *)
Definition keeps (entry : string * value) : bool :=
  match snd entry with
  | VUndefined => false
  | VNull => false
  | VString "" => false
  | _ => true
  end.

(** The sort's comparator: [([a], [b]) => a.localeCompare(b)] *)
Definition by_key (x y : string * value) : Z := localeCompare (fst x) (fst y).

(** The map's body:
    [`${encodeURIComponent(key)}=${encodeURIComponent(String(value))}`] *)
Definition pair_string (entry : string * value) : string :=
  encodeURIComponent (fst entry) ++ "=" ++ encodeURIComponent (JS_String (snd entry)).

(** The entries in the order in which they are written out. *)
Definition queryEntries (params : object) : list (string * value) :=
  Array_sort by_key (List.filter keeps (Object_entries params)).

Definition createQueryString (params : object) : string :=
  Array_join "&" (map pair_string (queryEntries params)).

(** The order the comparator of the sort puts on entries. *)
Definition key_le (x y : string * value) : Prop :=
  localeCompare (fst x) (fst y) <= 0.

End WithCollation.
End Signature.

(** ** [src/config/constants.ts] *)

Module Constants.
(* TIME_CONSTANTS *)
Definition MILLISECONDS_IN_SECOND : Z := 1000.
Definition MICROSECONDS_IN_MILLISECOND : Z := 1000.
Definition DEFAULT_REQUEST_TIMEOUT : Z := 10000.
(* VALIDATION_CONSTANTS *)
Definition ETHEREUM_ADDRESS_LENGTH : nat := 40.
Definition PRIVATE_KEY_LENGTH : nat := 64.
(* HTTP_STATUS *)
Definition BAD_REQUEST : Z := 400.
Definition TOO_MANY_REQUESTS : Z := 429.
Definition IM_A_TEAPOT : Z := 418.
Definition INTERNAL_SERVER_ERROR : Z := 500.
(* WS_CONSTANTS *)
Definition MAX_SUBSCRIPTIONS : Z := 1024.
Definition RECONNECT_INTERVAL : Z := 5000.
Definition MAX_RECONNECT_ATTEMPTS : Z := 5.
(* WS_CLOSE_CODES *)
Definition NORMAL_CLOSURE : Z := 1000.
Definition POLICY_VIOLATION : Z := 1008.
(* RETRY_CONSTANTS *)
Definition DEFAULT_MAX_RETRIES : Z := 3.
Definition DEFAULT_RETRY_DELAY : Z := 1000.
Definition DEFAULT_BACKOFF_MULTIPLIER : Z := 2.
End Constants.

(** ** [src/auth/web3signature.ts]: nonce and validators *)

Module Web3.
Import JS Constants.

(** [generateNonce]: [Math.trunc(Date.now() * MICROSECONDS_IN_MILLISECOND)];
    [now] is the reading of [Date.now()], an integral number of
    milliseconds. *)
Definition generateNonce (now : Z) : Z :=
  Math_trunc (to_double (now * MICROSECONDS_IN_MILLISECOND)).

(** The nonces of successive calls, one clock reading per call. *)
Definition nonces (clock : list Z) : list Z := map generateNonce clock.

(** The regular expressions of the validators are a start anchor followed
    by one-character matchers; there is no end anchor.  A pattern is the
    list of its matchers, and [test] is [RegExp.prototype.test] on such a
    pattern: with the anchor, the only match that can succeed starts at the
    first character. *)
Definition matcher : Type := ascii -> bool.

Definition lit (c : ascii) : matcher := Ascii.eqb c.

(** [[a-fA-F0-9]] *)
Definition hex : matcher :=
  fun c => in_range 97 102 c || in_range 65 70 c || in_range 48 57 c.

Fixpoint test (pattern : list matcher) (s : string) : bool :=
  match pattern, s with
  | [], _ => true
  | _ :: _, "" => false
  | m :: pattern', String c s' => m c && test pattern' s'
  end.

(** [^0x[a-fA-F0-9]{40}] *)
Definition addressRegex : list matcher :=
  [lit "0"; lit "x"] ++ repeat hex ETHEREUM_ADDRESS_LENGTH.

Definition validateAddresses (userAddress signerAddress : string) : bool :=
  test addressRegex userAddress && test addressRegex signerAddress.

(** [^[a-fA-F0-9]{64}] and [^0x[a-fA-F0-9]{64}] *)
Definition withoutPrefixRegex : list matcher := repeat hex PRIVATE_KEY_LENGTH.

Definition withPrefixRegex : list matcher :=
  [lit "0"; lit "x"] ++ repeat hex PRIVATE_KEY_LENGTH.

Definition validatePrivateKey (privateKey : string) : bool :=
  test withoutPrefixRegex privateKey || test withPrefixRegex privateKey.

(** What the validators are documented to recognise: the exact shapes. *)
Definition all_hex (s : string) : bool := forallb hex (list_ascii_of_string s).

Definition is_address (s : string) : Prop :=
  exists h, s = ("0x" ++ h)%string /\ String.length h = 40%nat /\ all_hex h = true.

Definition is_private_key (s : string) : Prop :=
  exists h, (s = h \/ s = ("0x" ++ h)%string)
            /\ String.length h = 64%nat /\ all_hex h = true.

(** Clock readings for which the product with 1000 is computed exactly. *)
Definition safe_reading (now : Z) : Prop :=
  0 <= now /\ now * MICROSECONDS_IN_MILLISECOND <= two53.

(** Successive readings at least one millisecond apart. *)
Definition spaced (clock : list Z) : Prop :=
  Sorted (fun a b => a + 1 <= b) clock.

End Web3.

(** ** [src/utils/http.ts]: the sliding-window rate limiter *)

Module RateLimiter.

(** The object's fields.  Timestamps are readings of [Date.now()]. *)
Record t : Type := mk {
  requests : list Z;
  windowMs : Z;
  maxRequests : Z;
}.

Definition new (maxRequests windowMs : Z) : t :=
  {| requests := []; windowMs := windowMs; maxRequests := maxRequests |}.

Definition cleanOldRequests (now : Z) (rl : t) : t :=
  let cutoff := now - windowMs rl in
  {| requests := List.filter (fun timestamp => cutoff <? timestamp) (requests rl);
     windowMs := windowMs rl;
     maxRequests := maxRequests rl |}.

(** Each method reads the clock once; the reading is the argument [now]. *)
Definition canMakeRequest (now : Z) (rl : t) : bool * t :=
  let rl := cleanOldRequests now rl in
  (Z.of_nat (length (requests rl)) <? maxRequests rl, rl).

Definition recordRequest (now : Z) (rl : t) : t :=
  let rl := cleanOldRequests now rl in
  {| requests := requests rl ++ [now];
     windowMs := windowMs rl;
     maxRequests := maxRequests rl |}.

(** [Math.min(...this.requests)] on a non-empty array. *)
Definition Math_min (x : Z) (l : list Z) : Z := fold_right Z.min x l.

Definition getTimeUntilReset (now : Z) (rl : t) : Z :=
  match requests rl with
  | [] => 0
  | x :: l =>
      let oldestRequest := Math_min x l in
      let resetTime := oldestRequest + windowMs rl in
      Z.max 0 (resetTime - now)
  end.

(** [waitUntilReady] reads the clock in [canMakeRequest] ([now1]) and again
    in [getTimeUntilReset] ([now2]); the result holds the time it sleeps
    for, if it does. *)
Definition waitUntilReady (now1 now2 : Z) (rl : t) : option Z * t :=
  let '(ready, rl) := canMakeRequest now1 rl in
  if ready then (None, rl)
  else
    let waitTime := getTimeUntilReset now2 rl in
    if 0 <? waitTime then (Some waitTime, rl) else (None, rl).

Definition reset (rl : t) : t :=
  {| requests := []; windowMs := windowMs rl; maxRequests := maxRequests rl |}.

(** The calls a client can make, with the clock readings they see. *)
Inductive call : Type :=
| CanMakeRequest (now : Z)
| RecordRequest (now : Z)
| GetTimeUntilReset (now : Z)
| WaitUntilReady (now1 now2 : Z)
| Reset.

Definition step (rl : t) (c : call) : t :=
  match c with
  | CanMakeRequest now => snd (canMakeRequest now rl)
  | RecordRequest now => recordRequest now rl
  | GetTimeUntilReset _ => rl
  | WaitUntilReady now1 now2 => snd (waitUntilReady now1 now2 rl)
  | Reset => reset rl
  end.

Definition run (rl : t) (calls : list call) : t := fold_left step calls rl.

(** The number of recorded timestamps inside the window that trails [now]. *)
Definition inWindow (now : Z) (rl : t) : Z :=
  Z.of_nat (length (List.filter (fun timestamp => now - windowMs rl <? timestamp)
                                (requests rl))).

(** A sequence of calls in which every [recordRequest] is made at a moment
    at which [canMakeRequest] answers [true]: only granted requests are
    recorded. *)
Fixpoint granted (rl : t) (calls : list call) : Prop :=
  match calls with
  | [] => True
  | c :: calls' =>
      match c with
      | RecordRequest now => fst (canMakeRequest now rl) = true
      | _ => True
      end /\ granted (step rl c) calls'
  end.

(** The number of stored timestamps. *)
Definition size (rl : t) : Z := Z.of_nat (length (requests rl)).

End RateLimiter.

(** ** [src/errors/errors.ts]: error classes and the retry predicates *)

Module Errors.
Import JS Constants.

(** A [number | undefined] as [getRetryAfter] returns it. *)
Inductive number : Type :=
| Undefined
| NaN
| Num (n : Z).

(** Truthiness of such a value: [undefined], [NaN] and [0] are falsy. *)
Definition truthy (x : number) : bool :=
  match x with
  | Undefined | NaN => false
  | Num n => negb (n =? 0)
  end.

(** [parseInt(s, 10)]: leading white space is skipped, an optional sign is
    read, then decimal digits as far as they go; no digit gives [NaN].  The
    integer read is held as it is written, which is the number that
    [parseInt] returns up to [2^53] (beyond, the host rounds it to a
    binary64). *)
Definition is_space (c : ascii) : bool :=
  in_range 9 13 c || in_range 32 32 c.

Fixpoint skip_spaces (s : string) : string :=
  match s with
  | String c s' => if is_space c then skip_spaces s' else s
  | "" => ""
  end.

Fixpoint digits (acc : Z) (s : string) : Z :=
  match s with
  | String c s' =>
      if is_digit c then digits (10 * acc + (Z.of_N (N_of_ascii c) - 48)) s'
      else acc
  | "" => acc
  end.

Definition unsigned (sign : Z) (s : string) : number :=
  match s with
  | String c _ => if is_digit c then Num (sign * digits 0 s) else NaN
  | "" => NaN
  end.

Definition parseInt (s : string) : number :=
  match skip_spaces s with
  | String "-" s' => unsigned (-1) s'
  | String "+" s' => unsigned 1 s'
  | s' => unsigned 1 s'
  end.

Definition headers : Type := gmap string string.

(** The error classes.  [RateLimitError] extends [ApiResponseError]; an
    [OtherError] is an [Error] that is none of the SDK's classes (a
    [TypeError], a [SyntaxError]).  Of [ApiResponseError] the message and the
    exchange's error code are left out: the retry path reads neither. *)
Inductive error : Type :=
| ConfigError (message : string)
| AuthError (message : string)
| NetworkError (message : string)
| ApiResponseError (statusCode : Z) (hdrs : option headers)
| RateLimitError (statusCode : Z) (hdrs : option headers) (retryAfter : number)
| WebSocketError (message : string) (code : option Z)
| ValidationError (message : string)
| OtherError (message : string).

(** [ApiResponseError.getRetryAfter]:
    [const retryAfter = this.headers?.['retry-after'];
     return retryAfter ? parseInt(retryAfter, 10) : undefined] *)
Definition getRetryAfter (hdrs : option headers) : number :=
  match hdrs with
  | None => Undefined
  | Some h =>
      match h !! "retry-after" with
      | None => Undefined
      | Some "" => Undefined
      | Some retryAfter => parseInt retryAfter
      end
  end.

Definition isClientError (statusCode : Z) : bool :=
  (BAD_REQUEST <=? statusCode) && (statusCode <? INTERNAL_SERVER_ERROR).

Definition isServerError (statusCode : Z) : bool :=
  INTERNAL_SERVER_ERROR <=? statusCode.

Definition isRateLimitError (statusCode : Z) : bool :=
  (statusCode =? TOO_MANY_REQUESTS) || (statusCode =? IM_A_TEAPOT).

(** [ErrorFactory.fromHttpResponse] *)
Definition fromHttpResponse (statusCode : Z) (hdrs : option headers) : error :=
  if (statusCode =? TOO_MANY_REQUESTS) || (statusCode =? IM_A_TEAPOT)
  then RateLimitError statusCode hdrs (getRetryAfter hdrs)
  else ApiResponseError statusCode hdrs.

(** [ErrorFactory.fromNetworkError] *)
Definition fromNetworkError (cause : string) : error :=
  NetworkError ("Network request failed: " ++ cause).

Definition isRetryableError (e : error) : bool :=
  match e with
  | ApiResponseError statusCode _ | RateLimitError statusCode _ _ =>
      if isClientError statusCode && negb (isRateLimitError statusCode)
      then false
      else isServerError statusCode || isRateLimitError statusCode
  | NetworkError _ => true
  | WebSocketError _ code =>
      match code with
      | Some c => negb (c =? POLICY_VIOLATION)
      | None => true
      end
  | _ => false
  end.

(** [getRetryDelay], in milliseconds:
    [if (error instanceof RateLimitError && error.retryAfter)
       return error.retryAfter * MILLISECONDS_IN_SECOND;
     return defaultDelay] *)
Definition getRetryDelay (e : error) (defaultDelay : Q) : Q :=
  match e with
  | RateLimitError _ _ retryAfter =>
      if truthy retryAfter then
        match retryAfter with
        | Num n => inject_Z (n * MILLISECONDS_IN_SECOND)
        | _ => defaultDelay
        end
      else defaultDelay
  | _ => defaultDelay
  end.

End Errors.

(** ** [src/utils/http.ts]: the transport's retry loop *)

Module Http.
Import JS Constants Errors.

Record HttpResponse : Type := {
  status : Z;
  hdrs : headers;
  data : string;
}.

Record RetryConfig : Type := {
  maxRetries : Z;
  retryDelay : Q;
  backoffMultiplier : Q;
}.

(** What one call of [fetch] (with the surrounding [try]) can come to. *)
Inductive fetch_outcome : Type :=
| Responded (status : Z) (h : headers) (body : string)
    (* the promise resolved with a response *)
| Aborted
    (* rejected with an [AbortError]: the timeout fired *)
| FetchFailed (message : string)
    (* rejected with a [TypeError] whose message includes 'fetch' *)
| Threw (message : string).
    (* anything else: an invalid URL, a body that does not parse *)

(** [response.ok] *)
Definition ok (status : Z) : bool := (200 <=? status) && (status <=? 299).

Definition executeRequest (o : fetch_outcome) : HttpResponse + error :=
  match o with
  | Responded st h body =>
      if ok st then inl {| status := st; hdrs := h; data := body |}
      else inr (fromHttpResponse st (Some h))
  | Aborted => inr (fromNetworkError "Request timeout")
  | FetchFailed message => inr (fromNetworkError message)
  | Threw message => inr (OtherError message)
  end.

(** The outcome of [request]: how the promise settles, and the delays it
    slept for, in order. *)
Record settled : Type := {
  result : HttpResponse + error;
  slept : list Q;
}.

(** The loop of [request].  [net attempt] is what the network does on the
    call of [executeRequest] made with the counter at [attempt]; the loop
    runs on fuel for its [while]. *)
Section Request.
Variable cfg : RetryConfig.
Variable net : Z -> fetch_outcome.

Fixpoint request_loop (fuel : nat) (attempt : Z) (lastError : option error)
    (sleeps : list Q) : option settled :=
  match fuel with
  | O => None
  | S fuel' =>
      if attempt <=? maxRetries cfg then
        match executeRequest (net attempt) with
        | inl response => Some {| result := inl response; slept := sleeps |}
        | inr e =>
            if (attempt =? maxRetries cfg) || negb (isRetryableError e)
            then Some {| result := inr e; slept := sleeps |}
            else
              let delay :=
                getRetryDelay e
                  (retryDelay cfg * backoffMultiplier cfg ^ attempt)%Q in
              request_loop fuel' (attempt + 1) (Some e) (sleeps ++ [delay])
        end
      else
        Some {| result :=
                  inr (match lastError with
                       | Some e => e
                       | None => OtherError "Unknown error occurred during request"
                       end);
                slept := sleeps |}
  end.

Definition request : option settled :=
  request_loop (Z.to_nat (maxRetries cfg) + 2) 0 None [].

End Request.

(** The number of retries of a settled request: one per sleep. *)
Definition retries (s : settled) : nat := length (slept s).

(** The exponential backoff: [retryDelay * Math.pow(backoffMultiplier, attempt)],
    as the rational it denotes: the number the code computes whenever power
    and product are exact in binary64, as they are for integral delays and
    multipliers (the defaults are 1000 and 2). *)
Definition backoff (cfg : RetryConfig) (attempt : Z) : Q :=
  (retryDelay cfg * backoffMultiplier cfg ^ attempt)%Q.

(** A call that fails with a retryable error, and the delay slept after it. *)
Definition retryable_failure (o : fetch_outcome) : bool :=
  match executeRequest o with
  | inr e => isRetryableError e
  | inl _ => false
  end.

Definition delay_after (cfg : RetryConfig) (attempt : Z) (o : fetch_outcome) : Q :=
  match executeRequest o with
  | inr e => getRetryDelay e (backoff cfg attempt)
  | inl _ => 0%Q
  end.

(** Two networks used in the examples: one that answers 503 twice and then
    200, and one that answers 429 with [Retry-After: 0] and then 200. *)
Definition net_503_503_200 (attempt : Z) : fetch_outcome :=
  if attempt <? 2 then Responded 503 ∅ "" else Responded 200 ∅ "{}".

Definition net_429_200 (attempt : Z) : fetch_outcome :=
  if attempt =? 0 then Responded 429 {[ "retry-after" := "0" ]} ""
  else Responded 200 ∅ "{}".

(** The default configuration ([RETRY_CONSTANTS]). *)
Definition defaultRetryConfig : RetryConfig :=
  {| maxRetries := DEFAULT_MAX_RETRIES;
     retryDelay := inject_Z DEFAULT_RETRY_DELAY;
     backoffMultiplier := inject_Z DEFAULT_BACKOFF_MULTIPLIER |}.

End Http.

(** ** The WebSocket client ([AsterWebSocketClient]): the stream connection *)

Local Set Warnings "-register-all".

Module WebSocket.
Import JS Constants Errors.

(** *** Parsed frames *)

(** A value as [JSON.parse] returns it.  A number is a finite binary64,
    held as the rational it denotes. *)
Inductive json : Type :=
| JNull
| JBool (b : bool)
| JNumber (x : Q)
| JString (s : string)
| JArray (items : list json)
| JObject (fields : list (string * json)).

(** What [JSON.parse(text)] comes to: a value, or a [SyntaxError]. *)
Inductive parse_result : Type :=
| Parsed (v : json)
| SyntaxError (message : string).

(** An inbound frame: its text ([dataToString(data)]) and what [JSON.parse]
    makes of that text. *)
Record frame : Type := {
  text : string;
  parse : parse_result;
}.

(** The own property [key] of an object; [None] is [undefined]. *)
Fixpoint lookup_field (key : string) (fields : list (string * json)) : option json :=
  match fields with
  | [] => None
  | (k, v) :: rest => if String.eqb k key then Some v else lookup_field key rest
  end.

(** [v.key] for the keys the client reads ([id], [stream], [data], [e],
    [u], [s], [b], [a], [error]): on [null] the access throws a
    [TypeError]; booleans, numbers, strings and arrays have no property of
    these names. *)
Definition get (v : json) (key : string) : string + option json :=
  match v with
  | JNull =>
      inl ("Cannot read properties of null (reading '" ++ key ++ "')")%string
  | JObject fields => inr (lookup_field key fields)
  | _ => inr None
  end.

(** [v?.key] on a value that may be [undefined]. *)
Definition get_opt (v : option json) (key : string) : option json :=
  match v with
  | None | Some JNull => None
  | Some (JObject fields) => lookup_field key fields
  | Some _ => None
  end.

(** [a ?? b] *)
Definition nullish (a b : option json) : option json :=
  match a with
  | None | Some JNull => b
  | Some _ => a
  end.

(** Truthiness. *)
Definition truthy_json (v : option json) : bool :=
  match v with
  | None | Some JNull => false
  | Some (JBool b) => b
  | Some (JNumber x) => negb (Qnum x =? 0)
  | Some (JString s) => negb (String.eqb s "")
  | Some (JArray _) | Some (JObject _) => true
  end.

(** [typeof v === 'number'] *)
Definition is_number (v : option json) : bool :=
  match v with
  | Some (JNumber _) => true
  | _ => false
  end.

(** [v === id] for a request id. *)
Definition is_id (v : option json) (id : Z) : bool :=
  match v with
  | Some (JNumber x) => Qeq_bool x (inject_Z id)
  | _ => false
  end.

(** [v === tag] for a string literal. *)
Definition is_tag (v : option json) (tag : string) : bool :=
  match v with
  | Some (JString s) => String.eqb s tag
  | _ => false
  end.

(** [!dataString || dataString.trim().length === 0]: the text is empty or
    made of white space only ([String.prototype.trim]'s white space and line
    terminators, in their UTF-8 form). *)
Fixpoint blank (fuel : nat) (s : string) : bool :=
  match fuel with
  | O => false
  | S fuel' =>
      match s with
      | "" => true
      | String c rest =>
          if is_space c then blank fuel' rest
          else
            match N_of_ascii c, rest with
            | 194, String d rest' =>                       (* U+00A0 *)
                (N_of_ascii d =? 160)%N && blank fuel' rest'
            | 225, String d (String e rest') =>            (* U+1680 *)
                (N_of_ascii d =? 154)%N && (N_of_ascii e =? 128)%N
                && blank fuel' rest'
            | 226, String d (String e rest') =>
                (((N_of_ascii d =? 128)%N
                  && (in_range 128 138 e                   (* U+2000..U+200A *)
                      || in_range 168 169 e               (* U+2028, U+2029 *)
                      || in_range 175 175 e))             (* U+202F *)
                 || ((N_of_ascii d =? 129)%N && in_range 159 159 e)) (* U+205F *)
                && blank fuel' rest'
            | 227, String d (String e rest') =>            (* U+3000 *)
                (N_of_ascii d =? 128)%N && (N_of_ascii e =? 128)%N
                && blank fuel' rest'
            | 239, String d (String e rest') =>            (* U+FEFF *)
                (N_of_ascii d =? 187)%N && (N_of_ascii e =? 191)%N
                && blank fuel' rest'
            | _, _ => false
            end%N
      end
  end.

Definition is_blank (s : string) : bool := blank (S (String.length s)) s.

(** *** The client object *)

Inductive WebSocketState : Type := CONNECTING | OPEN | CLOSING | CLOSED.

Definition state_eqb (a b : WebSocketState) : bool :=
  match a, b with
  | CONNECTING, CONNECTING | OPEN, OPEN | CLOSING, CLOSING | CLOSED, CLOSED => true
  | _, _ => false
  end.

(** A timer handle held in a field: not set, set and pending, or set and
    already run (a time-out that has fired stays in its field until the
    field is cleared).  The timers followed are those whose handle a field
    holds; [setPongTimeout] overwrites the handle of a time-out that is still
    pending without clearing it, and such a time-out is outside the events
    of [step]. *)
Inductive timer : Type := Unset | Armed | Fired.

Record WebSocketConfig : Type := {
  reconnect : bool;
  reconnectInterval : Z;
  maxReconnectAttempts : Z;
  pingInterval : Z;
  pongTimeout : Z;
}.

(** The configuration the constructor builds from an empty argument. *)
Definition defaultConfig : WebSocketConfig :=
  {| reconnect := true;
     reconnectInterval := RECONNECT_INTERVAL;
     maxReconnectAttempts := MAX_RECONNECT_ATTEMPTS;
     pingInterval := 180000;
     pongTimeout := 600000 |}.

Inductive WebSocketMethod : Type :=
| SUBSCRIBE | UNSUBSCRIBE | LIST_SUBSCRIPTIONS | SET_PROPERTY | GET_PROPERTY.

(** A request as it goes on the wire. *)
Record WebSocketRequest : Type := {
  method : WebSocketMethod;
  params : option (list string);
  id : Z;
}.

(** What runs when the promise of a request resolves: the rest of
    [subscribe], of [unsubscribe], or code of the caller. *)
Inductive continuation : Type :=
| AddStreams (streams : list string)
| DeleteStreams (streams : list string)
| ToCaller.

(** A request whose reply is awaited: the [messageHandler] that
    [sendRequest] has registered on the socket. *)
Record pending_request : Type := {
  awaited : Z;
  on_resolve : continuation;
}.

(** Who awaits the promise of a [connect()]: the caller, or the callback
    of [scheduleReconnect], which replays the subscriptions. *)
Inductive waiter : Type := Caller | Replay.

(** The fields of [AsterWebSocketClient], with the promises it has
    pending.  [subscriptions] is the [Set<string>] in insertion order;
    [handlers] are the members of [eventHandlers] that are defined,
    [listeners] the events of the emitter that have a listener. *)
Record client : Type := {
  ws : bool;
  config : WebSocketConfig;
  state : WebSocketState;
  subscriptions : list string;
  requestId : Z;
  pingIntervalTimer : timer;
  pongTimeoutTimer : timer;
  reconnectTimeout : timer;
  reconnectAttempts : Z;
  handlers : gset string;
  listeners : gset string;
  pending : list pending_request;
  opening : list waiter;
}.

(** [new AsterWebSocketClient(baseUrl, path, config, eventHandlers)] *)
Definition new (cfg : WebSocketConfig) (eventHandlers : gset string) : client :=
  {| ws := false; config := cfg; state := CLOSED; subscriptions := [];
     requestId := 1; pingIntervalTimer := Unset; pongTimeoutTimer := Unset;
     reconnectTimeout := Unset; reconnectAttempts := 0;
     handlers := eventHandlers; listeners := ∅; pending := []; opening := [] |}.

(** Field updates. *)
Definition with_ws (v : bool) (c : client) : client :=
  {| ws := v; config := config c; state := state c;
     subscriptions := subscriptions c; requestId := requestId c;
     pingIntervalTimer := pingIntervalTimer c;
     pongTimeoutTimer := pongTimeoutTimer c;
     reconnectTimeout := reconnectTimeout c;
     reconnectAttempts := reconnectAttempts c; handlers := handlers c;
     listeners := listeners c; pending := pending c; opening := opening c |}.

Definition with_reconnect (v : bool) (c : client) : client :=
  {| ws := ws c;
     config := {| reconnect := v;
                  reconnectInterval := reconnectInterval (config c);
                  maxReconnectAttempts := maxReconnectAttempts (config c);
                  pingInterval := pingInterval (config c);
                  pongTimeout := pongTimeout (config c) |};
     state := state c;
     subscriptions := subscriptions c; requestId := requestId c;
     pingIntervalTimer := pingIntervalTimer c;
     pongTimeoutTimer := pongTimeoutTimer c;
     reconnectTimeout := reconnectTimeout c;
     reconnectAttempts := reconnectAttempts c; handlers := handlers c;
     listeners := listeners c; pending := pending c; opening := opening c |}.

Definition with_state (v : WebSocketState) (c : client) : client :=
  {| ws := ws c; config := config c; state := v;
     subscriptions := subscriptions c; requestId := requestId c;
     pingIntervalTimer := pingIntervalTimer c;
     pongTimeoutTimer := pongTimeoutTimer c;
     reconnectTimeout := reconnectTimeout c;
     reconnectAttempts := reconnectAttempts c; handlers := handlers c;
     listeners := listeners c; pending := pending c; opening := opening c |}.

Definition with_subscriptions (v : list string) (c : client) : client :=
  {| ws := ws c; config := config c; state := state c;
     subscriptions := v; requestId := requestId c;
     pingIntervalTimer := pingIntervalTimer c;
     pongTimeoutTimer := pongTimeoutTimer c;
     reconnectTimeout := reconnectTimeout c;
     reconnectAttempts := reconnectAttempts c; handlers := handlers c;
     listeners := listeners c; pending := pending c; opening := opening c |}.

Definition with_requestId (v : Z) (c : client) : client :=
  {| ws := ws c; config := config c; state := state c;
     subscriptions := subscriptions c; requestId := v;
     pingIntervalTimer := pingIntervalTimer c;
     pongTimeoutTimer := pongTimeoutTimer c;
     reconnectTimeout := reconnectTimeout c;
     reconnectAttempts := reconnectAttempts c; handlers := handlers c;
     listeners := listeners c; pending := pending c; opening := opening c |}.

Definition with_timers (ping pong reconn : timer) (c : client) : client :=
  {| ws := ws c; config := config c; state := state c;
     subscriptions := subscriptions c; requestId := requestId c;
     pingIntervalTimer := ping; pongTimeoutTimer := pong;
     reconnectTimeout := reconn;
     reconnectAttempts := reconnectAttempts c; handlers := handlers c;
     listeners := listeners c; pending := pending c; opening := opening c |}.

Definition with_reconnectAttempts (v : Z) (c : client) : client :=
  {| ws := ws c; config := config c; state := state c;
     subscriptions := subscriptions c; requestId := requestId c;
     pingIntervalTimer := pingIntervalTimer c;
     pongTimeoutTimer := pongTimeoutTimer c;
     reconnectTimeout := reconnectTimeout c;
     reconnectAttempts := v; handlers := handlers c;
     listeners := listeners c; pending := pending c; opening := opening c |}.

Definition with_pending (v : list pending_request) (c : client) : client :=
  {| ws := ws c; config := config c; state := state c;
     subscriptions := subscriptions c; requestId := requestId c;
     pingIntervalTimer := pingIntervalTimer c;
     pongTimeoutTimer := pongTimeoutTimer c;
     reconnectTimeout := reconnectTimeout c;
     reconnectAttempts := reconnectAttempts c; handlers := handlers c;
     listeners := listeners c; pending := v; opening := opening c |}.

Definition with_opening (v : list waiter) (c : client) : client :=
  {| ws := ws c; config := config c; state := state c;
     subscriptions := subscriptions c; requestId := requestId c;
     pingIntervalTimer := pingIntervalTimer c;
     pongTimeoutTimer := pongTimeoutTimer c;
     reconnectTimeout := reconnectTimeout c;
     reconnectAttempts := reconnectAttempts c; handlers := handlers c;
     listeners := listeners c; pending := pending c; opening := v |}.

(** [Set.prototype.add], [Set.prototype.delete], [size], [Array.from]. *)
Definition Set_has (x : string) (s : list string) : bool :=
  existsb (String.eqb x) s.

Definition Set_add (s : list string) (x : string) : list string :=
  if Set_has x s then s else s ++ [x].

Definition Set_delete (s : list string) (x : string) : list string :=
  List.filter (fun y => negb (String.eqb x y)) s.

Definition Set_size (s : list string) : Z := Z.of_nat (length s).

Definition Array_from (s : list string) : list string := s.

(** *** What the client does to the outside *)

Inductive payload : Type :=
| NoArgs
| Data (dataObj : json)
| Failure (e : error)
| Closing (code : Z) (reason : string).

Inductive effect : Type :=
| Call (handler : string) (args : payload)
    (* a member of [eventHandlers] is called *)
| Emit (event : string) (args : payload)
    (* [this.emit(event, ...args)] *)
| NewSocket
    (* [new WebSocket(this.url)] *)
| Send (request : WebSocketRequest)
    (* [this.ws.send(JSON.stringify(request))] *)
| SocketClose (code : Z) (reason : string)
    (* [this.ws.close(code, reason)] *)
| Ping
| Terminate
| Uncaught (e : error).
    (* an exception leaves the listener and reaches the socket library *)

Inductive outcome : Type :=
| Returned
| Thrown (e : error).

(** [this.handlersAs<...>().handler?.(args)] *)
Definition call_handler (c : client) (handler : string) (args : payload)
  : list effect :=
  if decide (handler ∈ handlers c) then [Call handler args] else [].

(** [handleError]: the emitter throws the error of an ['error'] event
    that has no listener (the test suite registers one "to prevent
    EventEmitter from throwing"). *)
Definition handleError (c : client) (message : string) : list effect * outcome :=
  let wsError := fromNetworkError message in
  (call_handler c "onError" (Failure wsError) ++ [Emit "error" (Failure wsError)],
   if decide ("error" ∈ listeners c) then Returned else Thrown wsError).

(** The cases of the [switch] in [handleStreamData]: the event type, the
    handler called and the event emitted. *)
Definition routes : list (string * (string * string)) :=
  [ ("aggTrade", ("onAggTrade", "aggTrade"));
    ("trade", ("onTrade", "trade"));
    ("kline", ("onKline", "kline"));
    ("24hrMiniTicker", ("onMiniTicker", "miniTicker"));
    ("24hrTicker", ("onTicker", "ticker"));
    ("depthUpdate", ("onDepthUpdate", "depthUpdate"));
    ("outboundAccountPosition", ("onAccountUpdate", "accountUpdate"));
    ("executionReport", ("onExecutionReport", "executionReport"));
    ("markPriceUpdate", ("onMarkPrice", "markPrice"));
    ("forceOrder", ("onLiquidation", "liquidation"));
    ("ACCOUNT_UPDATE", ("onAccountUpdate", "futuresAccountUpdate"));
    ("ORDER_TRADE_UPDATE", ("onOrderUpdate", "futuresOrderUpdate"));
    ("ACCOUNT_CONFIG_UPDATE", ("onAccountConfigUpdate", "futuresAccountConfigUpdate")) ].

Definition route (eventType : option json) : option (string * string) :=
  option_map snd (List.find (fun r => is_tag eventType (fst r)) routes).

Definition dispatch (c : client) (handler event : string) (dataObj : json)
  : list effect :=
  call_handler c handler (Data dataObj) ++ [Emit event (Data dataObj)].

Definition handleStreamData (c : client) (dataObj : json) : list effect * outcome :=
  match get dataObj "e", get dataObj "data" with
  | inl message, _ | _, inl message => ([], Thrown (OtherError message))
  | inr e, inr data =>
      let eventType := nullish e (get_opt data "e") in
      match route eventType with
      | Some (handler, event) => (dispatch c handler event dataObj, Returned)
      | None =>
          if truthy_json (get_opt (Some dataObj) "u")
             && truthy_json (get_opt (Some dataObj) "s")
             && truthy_json (get_opt (Some dataObj) "b")
             && truthy_json (get_opt (Some dataObj) "a")
          then (dispatch c "onBookTicker" "bookTicker" dataObj, Returned)
          else ([Emit "data" (Data dataObj)], Returned)
      end
  end.

Definition error_message (e : error) : string :=
  match e with
  | ConfigError m | AuthError m | NetworkError m | WebSocketError m _
  | ValidationError m | OtherError m => m
  | ApiResponseError _ _ | RateLimitError _ _ _ => ""
  end.

(** The body of the [try] of [handleMessage], then its [catch]. *)
Definition handleMessage (c : client) (f : frame) : list effect * outcome :=
  if String.eqb (text f) "" || is_blank (text f) then ([], Returned)
  else
    match parse f with
    | SyntaxError message => handleError c message
    | Parsed message =>
        match get message "id" with
        | inl thrown => handleError c thrown
        | inr messageId =>
            if is_number messageId then ([], Returned)
            else
              let '(effects, out) :=
                if truthy_json (get_opt (Some message) "stream")
                   && truthy_json (get_opt (Some message) "data")
                then handleStreamData c message
                else handleStreamData c message in
              match out with
              | Returned => (effects, Returned)
              | Thrown e =>
                  let '(effects', out') := handleError c (error_message e) in
                  (effects ++ effects', out')
              end
        end
    end.

(** *** The methods *)

(** The two errors [subscribe] and [unsubscribe] reject with locally. *)
Definition not_connected : error :=
  WebSocketError "WebSocket is not connected" None.

Definition too_many : error :=
  WebSocketError "Cannot subscribe to more than 1024 streams" None.

Definition isConnected (c : client) : bool := state_eqb (state c) OPEN.

Definition clearTimers (c : client) : client := with_timers Unset Unset Unset c.

Definition clearPongTimeout (c : client) : client :=
  with_timers (pingIntervalTimer c) Unset (reconnectTimeout c) c.

Definition disconnect (c : client) : client * list effect :=
  let c := with_reconnect false c in
  let c := clearTimers c in
  if ws c && state_eqb (state c) OPEN
  then (with_state CLOSING c, [SocketClose NORMAL_CLOSURE "Client disconnect"])
  else (with_state CLOSED c, []).

(** A call of an [async] method runs to its first suspension: it is
    rejected with an error, or it waits for the reply to the request whose id
    it returns here. *)
Definition sendRequest (c : client) (m : WebSocketMethod)
    (ps : option (list string)) (k : continuation)
  : client * list effect * (error + Z) :=
  if negb (isConnected c)
  then (c, [], inl not_connected)
  else
    let requestId_now := requestId c in
    let c := with_requestId (to_double (requestId_now + 1)) c in
    let request := {| method := m; params := ps; id := requestId_now |} in
    if ws c
    then (with_pending (pending c ++ [{| awaited := requestId_now; on_resolve := k |}]) c,
          [Send request], inr requestId_now)
    else (c, [], inr requestId_now).

Definition subscribe (c : client) (streamArray : list string)
  : client * list effect * (error + Z) :=
  if MAX_SUBSCRIPTIONS <? Set_size (subscriptions c) + Z.of_nat (length streamArray)
  then (c, [], inl too_many)
  else sendRequest c SUBSCRIBE (Some streamArray) (AddStreams streamArray).

Definition unsubscribe (c : client) (streamArray : list string)
  : client * list effect * (error + Z) :=
  sendRequest c UNSUBSCRIBE (Some streamArray) (DeleteStreams streamArray).

(** The code after the [await] in [subscribe] and [unsubscribe]. *)
Definition resume (c : client) (k : continuation) : client :=
  match k with
  | AddStreams streamArray =>
      with_subscriptions (fold_left Set_add streamArray (subscriptions c)) c
  | DeleteStreams streamArray =>
      with_subscriptions (fold_left Set_delete streamArray (subscriptions c)) c
  | ToCaller => c
  end.

(** The [messageHandler] of a pending request on a frame: [None] when the
    frame is not its reply (or does not parse), otherwise whether the promise
    resolves ([true]) or rejects with the reply's error. *)
Definition reply_to (p : pending_request) (f : frame) : option bool :=
  match parse f with
  | SyntaxError _ => None
  | Parsed response =>
      match get response "id" with
      | inl _ => None
      | inr responseId =>
          if is_id responseId (awaited p)
          then Some (negb (truthy_json (get_opt (Some response) "error")))
          else None
      end
  end.

Fixpoint settle (c : client) (waiting : list pending_request) (f : frame)
  : client * list pending_request :=
  match waiting with
  | [] => (c, [])
  | p :: rest =>
      match reply_to p f with
      | None => let '(c', rest') := settle c rest f in (c', p :: rest')
      | Some true => settle (resume c (on_resolve p)) rest f
      | Some false => settle c rest f
      end
  end.

(** [connect()]: the last component tells whether the promise is resolved
    on return.  The listeners and the pending promises of a socket stay
    with that socket: a new socket starts with none. *)
Definition connect (who : waiter) (c : client) : client * list effect * bool :=
  if state_eqb (state c) OPEN || state_eqb (state c) CONNECTING
  then (c, [], true)
  else
    (with_opening [who] (with_pending [] (with_ws true (with_state CONNECTING c))),
     [NewSocket], false).

(** The [then] callback of [scheduleReconnect]; a rejection is swallowed
    by its [catch]. *)
Definition replay (c : client) : client * list effect :=
  if 0 <? Set_size (subscriptions c)
  then let '(c', effects, _) := subscribe c (Array_from (subscriptions c)) in
       (c', effects)
  else (c, []).

Definition scheduleReconnect (c : client) : client :=
  let c := with_reconnectAttempts (to_double (reconnectAttempts c + 1)) c in
  with_timers (pingIntervalTimer c) (pongTimeoutTimer c) Armed c.

Definition handleClose (c : client) (code : Z) (reason : string)
  : client * list effect :=
  let c := with_state CLOSED c in
  let c := clearTimers c in
  let effects :=
    call_handler c "onClose" (Closing code reason)
      ++ [Emit "close" (Closing code reason)] in
  if reconnect (config c)
     && (reconnectAttempts c <? maxReconnectAttempts (config c))
  then (scheduleReconnect c, effects)
  else (c, effects).

(** *** The events of one connection

    The calls of the user, the events of the current socket and the timers
    of the client; [step] is what the client does on each. *)
Inductive event : Type :=
| CallConnect
| CallDisconnect
| CallSubscribe (streams : list string)
| CallUnsubscribe (streams : list string)
| OnOpen
| OnMessage (f : frame)
| OnClose (code : Z) (reason : string)
| OnError (message : string)
| OnPong
| ReconnectTimer
| PingTimer
| PongTimer
| RequestTimer (id : Z).

Fixpoint resolve_opening (c : client) (waiters : list waiter)
  : client * list effect :=
  match waiters with
  | [] => (c, [])
  | Caller :: rest => resolve_opening c rest
  | Replay :: rest =>
      let '(c', effects) := replay c in
      let '(c'', effects') := resolve_opening c' rest in
      (c'', effects ++ effects')
  end.

Definition on_open (c : client) : client * list effect :=
  let c := with_state OPEN c in
  let c := with_reconnectAttempts 0 c in
  let c := with_timers Armed (pongTimeoutTimer c) (reconnectTimeout c) c in
  let effects := call_handler c "onOpen" NoArgs ++ [Emit "open" NoArgs] in
  let waiters := opening c in
  let '(c', effects') := resolve_opening (with_opening [] c) waiters in
  (c', effects ++ effects').

Definition on_message (c : client) (f : frame) : client * list effect :=
  match handleMessage c f with
  | (effects, Thrown e) => (c, effects ++ [Uncaught e])
  | (effects, Returned) =>
      let '(c', waiting) := settle c (pending c) f in
      (with_pending waiting c', effects)
  end.

Definition on_error (c : client) (message : string) : client * list effect :=
  match handleError c message with
  | (effects, Thrown e) => (c, effects ++ [Uncaught e])
  | (effects, Returned) =>
      if state_eqb (state c) CONNECTING then (with_opening [] c, effects)
      else (c, effects)
  end.

Definition on_reconnect_timer (c : client) : client * list effect :=
  match reconnectTimeout c with
  | Armed =>
      let c := with_timers (pingIntervalTimer c) (pongTimeoutTimer c) Fired c in
      let '(c', effects, resolved) := connect Replay c in
      if resolved then replay c' else (c', effects)
  | _ => (c, [])
  end.

Definition on_ping_timer (c : client) : client * list effect :=
  match pingIntervalTimer c with
  | Armed =>
      if isConnected c
      then (with_timers Armed Armed (reconnectTimeout c) c,
            if ws c then [Ping] else [])
      else (c, [])
  | _ => (c, [])
  end.

Definition on_pong_timer (c : client) : client * list effect :=
  match pongTimeoutTimer c with
  | Armed =>
      (with_timers (pingIntervalTimer c) Fired (reconnectTimeout c) c,
       if ws c then [Terminate] else [])
  | _ => (c, [])
  end.

Definition on_request_timer (c : client) (i : Z) : client * list effect :=
  (with_pending (List.filter (fun p => negb (awaited p =? i)) (pending c)) c, []).

Definition step (c : client) (ev : event) : client * list effect :=
  match ev with
  | CallConnect => let '(c', effects, _) := connect Caller c in (c', effects)
  | CallDisconnect => disconnect c
  | CallSubscribe streams =>
      let '(c', effects, _) := subscribe c streams in (c', effects)
  | CallUnsubscribe streams =>
      let '(c', effects, _) := unsubscribe c streams in (c', effects)
  | OnOpen => on_open c
  | OnMessage f => on_message c f
  | OnClose code reason => handleClose c code reason
  | OnError message => on_error c message
  | OnPong => (clearPongTimeout c, [])
  | ReconnectTimer => on_reconnect_timer c
  | PingTimer => on_ping_timer c
  | PongTimer => on_pong_timer c
  | RequestTimer i => on_request_timer c i
  end.

Fixpoint run (c : client) (events : list event) : client * list effect :=
  match events with
  | [] => (c, [])
  | ev :: rest =>
      let '(c', effects) := step c ev in
      let '(c'', effects') := run c' rest in
      (c'', effects ++ effects')
  end.

(** [JSON.stringify] on values whose numbers are integers and whose
    strings need no escape; the examples take their frames from it. *)
Definition quoted (s : string) : string :=
  String (ascii_of_nat 34) (s ++ String (ascii_of_nat 34) "").

Fixpoint stringify (v : json) : string :=
  match v with
  | JNull => "null"
  | JBool true => "true"
  | JBool false => "false"
  | JNumber x => pretty (Qnum x)
  | JString s => quoted s
  | JArray items =>
      "[" ++ String.concat "," (map stringify items) ++ "]"
  | JObject fields =>
      "{" ++ String.concat ","
               ((fix members (l : list (string * json)) : list string :=
                   match l with
                   | [] => []
                   | (k, x) :: l' => (quoted k ++ ":" ++ stringify x)%string :: members l'
                   end) fields)
          ++ "}"
  end.

Definition frame_of (v : json) : frame :=
  {| text := stringify v; parse := Parsed v |}.

(** Frames used in the examples. *)
Definition trade_message : json :=
  JObject [("e", JString "trade"); ("s", JString "BTCUSDT");
           ("p", JString "50000.00"); ("q", JString "1.00")].

Definition book_ticker (u : Z) : json :=
  JObject [("u", JNumber (inject_Z u)); ("s", JString "BTCUSDT");
           ("b", JString "1"); ("B", JString "1");
           ("a", JString "2"); ("A", JString "1")].

Definition book_ticker_combined : json :=
  JObject [("stream", JString "btcusdt@bookTicker"); ("data", book_ticker 1)].

Definition reply (i : Z) : json :=
  JObject [("id", JNumber (inject_Z i)); ("result", JNull)].

Definition malformed_frame : frame :=
  {| text := "invalid json";
     parse := SyntaxError "Unexpected token i in JSON at position 0" |}.

(** A client with every handler of [StreamEventHandlers] defined, as the
    test suite builds it, before and after an ['error'] listener is added. *)
Definition all_handlers : gset string :=
  list_to_set ["onOpen"; "onClose"; "onError"; "onTicker"; "onTrade";
               "onDepthUpdate"; "onKline"; "onMiniTicker"; "onBookTicker";
               "onAggTrade"; "onAccountUpdate"; "onExecutionReport"].

Definition with_listeners (v : gset string) (c : client) : client :=
  {| ws := ws c; config := config c; state := state c;
     subscriptions := subscriptions c; requestId := requestId c;
     pingIntervalTimer := pingIntervalTimer c;
     pongTimeoutTimer := pongTimeoutTimer c;
     reconnectTimeout := reconnectTimeout c;
     reconnectAttempts := reconnectAttempts c; handlers := handlers c;
     listeners := v; pending := pending c; opening := opening c |}.

(** The requests that went on the wire. *)
Definition sent (effects : list effect) : list WebSocketRequest :=
  omap (fun e => match e with Send r => Some r | _ => None end) effects.

(** Connections used in the examples: [n] stream names, a client that has
    connected and subscribed to given streams through the public methods, and
    an abnormal close followed by the reconnect timer and the opening of the
    new socket. *)
Definition stream_names (n : nat) : list string :=
  map (fun i => (pretty (Z.of_nat i) ++ "@ticker")%string) (seq 0 n).

Definition connected_with (streams : list string) : client :=
  fst (run (new defaultConfig all_handlers)
           [CallConnect; OnOpen; CallSubscribe streams;
            OnMessage (frame_of (reply 1))]).

Definition close_and_reconnect : list event :=
  [OnClose 1006 "Abnormal closure"; ReconnectTimer; OnOpen].

Fixpoint distinct (l : list string) : bool :=
  match l with
  | [] => true
  | x :: l' => negb (Set_has x l') && distinct l'
  end.

(** The text of the frame is neither empty nor white space only. *)
Definition has_text (f : frame) : Prop :=
  String.eqb (text f) "" || is_blank (text f) = false.

(** From [c] to [c'] with the effects [effects], the request counter did
    not go back, and while it stays below [2^53] the requests sent carry
    strictly increasing ids, taken from the counter. *)
Definition ids_increase (c c' : client) (effects : list effect) : Prop :=
  (requestId c <= requestId c' <= two53)
  /\ (requestId c' < two53 ->
      Sorted Z.lt (map id (sent effects))
      /\ Forall (fun r => requestId c <= id r < requestId c') (sent effects)).

(** A frame that is the successful reply to request [i]. *)
Definition replies_to (f : frame) (i : Z) : Prop :=
  exists response,
    parse f = Parsed response
    /\ get response "id" = inr (Some (JNumber (inject_Z i)))
    /\ truthy_json (get_opt (Some response) "error") = false.

End WebSocket.

(** ** [src/errors/errors.ts]: the names of the exchange's error codes *)

Module ErrorCodes.

(** [ASTER_ERROR_CODES] of [src/config/constants.ts], as [Object.entries]
    lists it. *)
Definition ASTER_ERROR_CODES : list (string * Z) :=
  [ ("UNKNOWN", (-1000));
    ("DISCONNECTED", (-1001));
    ("UNAUTHORIZED", (-1002));
    ("TOO_MANY_REQUESTS", (-1003));
    ("DUPLICATE_IP", (-1004));
    ("NO_SUCH_IP", (-1005));
    ("UNEXPECTED_RESP", (-1006));
    ("TIMEOUT", (-1007));
    ("UNKNOWN_ORDER_COMPOSITION", (-1014));
    ("TOO_MANY_ORDERS", (-1015));
    ("SERVICE_SHUTTING_DOWN", (-1016));
    ("UNSUPPORTED_OPERATION", (-1020));
    ("INVALID_TIMESTAMP", (-1021));
    ("INVALID_SIGNATURE", (-1022));
    ("START_TIME_GREATER_THAN_END_TIME", (-1023));
    ("ILLEGAL_CHARS", (-1100));
    ("TOO_MANY_PARAMETERS", (-1101));
    ("MANDATORY_PARAM_EMPTY_OR_MALFORMED", (-1102));
    ("UNKNOWN_PARAM", (-1103));
    ("UNREAD_PARAMETERS", (-1104));
    ("PARAM_EMPTY", (-1105));
    ("PARAM_NOT_REQUIRED", (-1106));
    ("BAD_PRECISION", (-1111));
    ("NO_DEPTH", (-1112));
    ("TIF_NOT_REQUIRED", (-1114));
    ("INVALID_TIF", (-1115));
    ("INVALID_ORDER_TYPE", (-1116));
    ("INVALID_SIDE", (-1117));
    ("EMPTY_NEW_CL_ORD_ID", (-1118));
    ("EMPTY_ORG_CL_ORD_ID", (-1119));
    ("BAD_INTERVAL", (-1120));
    ("BAD_SYMBOL", (-1121));
    ("INVALID_LISTEN_KEY", (-1125));
    ("MORE_THAN_XX_HOURS", (-1127));
    ("OPTIONAL_PARAMS_BAD_COMBO", (-1128));
    ("INVALID_PARAMETER", (-1130));
    ("INVALID_NEW_ORDER_RESP_TYPE", (-1136));
    ("NEW_ORDER_REJECTED", (-2010));
    ("CANCEL_REJECTED", (-2011));
    ("NO_SUCH_ORDER", (-2013));
    ("BAD_API_KEY_FMT", (-2014));
    ("REJECTED_MBX_KEY", (-2015));
    ("NO_TRADING_WINDOW", (-2016));
    ("BALANCE_NOT_SUFFICIENT", (-2018));
    ("UNABLE_TO_FILL", (-2020));
    ("ORDER_WOULD_IMMEDIATELY_TRIGGER", (-2021));
    ("REDUCE_ONLY_REJECT", (-2022));
    ("POSITION_NOT_SUFFICIENT", (-2024));
    ("MAX_OPEN_ORDER_EXCEEDED", (-2025));
    ("REDUCE_ONLY_ORDER_TYPE_NOT_SUPPORTED", (-2026));
    ("INVALID_ORDER_STATUS", (-4000));
    ("PRICE_LESS_THAN_ZERO", (-4001));
    ("PRICE_GREATER_THAN_MAX_PRICE", (-4002));
    ("QTY_LESS_THAN_ZERO", (-4003));
    ("QTY_LESS_THAN_MIN_QTY", (-4004));
    ("QTY_GREATER_THAN_MAX_QTY", (-4005));
    ("MIN_NOTIONAL", (-4164));
    ("INVALID_TIME_INTERVAL", (-4165)) ].

Section WithHost.
(** The digits that [Number.prototype.toString] gives an integer beyond
    [2^53]: the shortest that read back as the same number, in exponent
    notation from [10^21].  They are the host's and nothing here depends on
    them. *)
Variable Number_toString_beyond : Z -> string.

(** The template literal [`${code}`] on an integer-valued [code]: its
    decimal notation up to [2^53]. *)
Definition Number_toString (code : Z) : string :=
  if Z.abs code <=? JS.two53 then pretty code else Number_toString_beyond code.

(** [getErrorMessage]:
    [const errorCode = Object.entries(ASTER_ERROR_CODES).find(([, value]) => value === code);
     return errorCode ? errorCode[0] : `Unknown error code: ${code}`] *)
Definition getErrorMessage (code : Z) : string :=
  match List.find (fun entry => snd entry =? code) ASTER_ERROR_CODES with
  | Some errorCode => fst errorCode
  | None => "Unknown error code: " ++ Number_toString code
  end.

End WithHost.
End ErrorCodes.

(** ** [src/auth/signature.ts]: [ParameterUtils] *)

Module ParameterUtils.
Import JS Signature Errors.

(** [cleaned[key] = value] on the fresh object [cleaned]: the assignment
    creates an own property, except for the key [__proto__], which belongs to
    the accessor of [Object.prototype] and leaves the own properties as they
    are. *)
Definition assignable (key : string) : bool := negb (String.eqb key "__proto__").

(** [cleanParams]; the result as [Object.entries] lists it. *)
Definition cleanParams (params : object) : object :=
  List.filter (fun entry => keeps entry && assignable (fst entry))
              (Object_entries params).

(** [toUrlEncoded] *)
Definition toUrlEncoded (params : object) : string :=
  Array_join "&" (map pair_string (Object_entries (cleanParams params))).

(** The own property [name] of an object. *)
Definition own (params : object) (name : string) : option value :=
  option_map snd (List.find (fun entry => String.eqb (fst entry) name) params).

(** [params[name]]: the own property or, without one, what the prototype
    chain of [params] gives for the name ([inherited name], [VUndefined] when
    the chain has no such property). *)
Section WithPrototype.
Variable inherited : string -> value.

Definition property (params : object) (name : string) : value :=
  match own params name with
  | Some v => v
  | None => inherited name
  end.

(** The filter of [validateRequired]:
    [params[param] === undefined || params[param] === null || params[param] === ''] *)
Definition is_missing (params : object) (param : string) : bool :=
  negb (keeps (param, property params param)).

(** [validateRequired]: [None] when it returns, [Some] with the error it
    throws. *)
Definition validateRequired (params : object) (required : list string)
  : option error :=
  let missing := List.filter (is_missing params) required in
  if (0 <? length missing)%nat
  then Some (ValidationError
               ("Missing required parameters: " ++ Array_join ", " missing))
  else None.

End WithPrototype.

(** The prototype chain of an object literal: the members of
    [Object.prototype], all of them functions but [__proto__], which reads as
    [Object.prototype] itself. *)
Definition Object_prototype (name : string) : value :=
  if String.eqb name "__proto__" then VOther "[object Object]"
  else if existsb (String.eqb name)
            ["constructor"; "__defineGetter__"; "__defineSetter__";
             "hasOwnProperty"; "__lookupGetter__"; "__lookupSetter__";
             "isPrototypeOf"; "propertyIsEnumerable"; "toString"; "valueOf";
             "toLocaleString"]
  then VOther ("function " ++ name ++ "() { [native code] }")
  else VUndefined.

End ParameterUtils.

(** ** [src/auth/signature.ts]: [SignatureAuth] and [AuthManager] *)

Module SignatureAuth.
Import JS Signature Errors.

Record t : Type := {
  apiKey : string;
  apiSecret : string;
}.

(** The constructor: [!apiKey] and [!apiSecret] hold of the empty string. *)
Definition new (apiKey apiSecret : string) : error + t :=
  if String.eqb apiKey "" then inl (AuthError "API key is required")
  else if String.eqb apiSecret "" then inl (AuthError "API secret is required")
  else inr {| apiKey := apiKey; apiSecret := apiSecret |}.

(** [{ ...o, key: v }]: the property is written in place when [o] has the
    key and added after the others when not (the keys written by the signing
    code, [timestamp], [recvWindow] and [signature], are no array indices, so
    that [Object.entries] lists a new one last). *)
Fixpoint Object_set (o : object) (key : string) (v : value) : object :=
  match o with
  | [] => [(key, v)]
  | (k, x) :: o' =>
      if String.eqb k key then (k, v) :: o' else (k, x) :: Object_set o' key v
  end.

(** [validateTimestamp], with the reading [now] of the clock:
    [Math.abs(now - timestamp) <= recvWindow] *)
Definition validateTimestamp (now timestamp recvWindow : Z) : bool :=
  Z.abs (now - timestamp) <=? recvWindow.

(** The object [signedParams] of [signRequest]:
    [{ ...params, timestamp, ...(recvWindow ? { recvWindow } : {}) }];
    [now] is the reading of [Date.now()], [recvWindow] the optional argument,
    an integral number of milliseconds when given. *)
Definition signedParams (params : object) (recvWindow : number) (now : Z)
  : object :=
  let timestamp := now in
  let withTime := Object_set params "timestamp" (VNumber timestamp) in
  match recvWindow with
  | Num n => if truthy recvWindow
             then Object_set withTime "recvWindow" (VNumber n)
             else withTime
  | _ => withTime
  end.

Section WithHost.
(** The collation of the host and
    [createHmac('sha256', key).update(data).digest('hex')]. *)
Variable localeCompare : string -> string -> Z.
Variable createHmac : string -> string -> string.

Definition generateSignature (auth : t) (queryString : string) : string :=
  createHmac (apiSecret auth) queryString.

(** [signRequest] *)
Definition signRequest (auth : t) (params : object) (recvWindow : number)
    (now : Z) : object :=
  let signedParams := signedParams params recvWindow now in
  let queryString := createQueryString localeCompare signedParams in
  let signature := generateSignature auth queryString in
  Object_set signedParams "signature" (VString signature).

End WithHost.
End SignatureAuth.

Module AuthManager.
Import JS Signature Errors.

(** The field [signatureAuth]. *)
Definition t : Type := option SignatureAuth.t.

(** Truthiness of an optional string argument. *)
Definition given (s : option string) : bool :=
  match s with
  | Some s => negb (String.eqb s "")
  | None => false
  end.

(** What the constructor and [updateCredentials] leave in the field (or the
    error of the constructor of [SignatureAuth]). *)
Definition credentials (apiKey apiSecret : option string) : error + t :=
  match apiKey, apiSecret with
  | Some k, Some s =>
      if given apiKey && given apiSecret
      then match SignatureAuth.new k s with
           | inr auth => inr (Some auth)
           | inl e => inl e
           end
      else inr None
  | _, _ => inr None
  end.

Definition new (apiKey apiSecret : option string) : error + t :=
  credentials apiKey apiSecret.

Definition updateCredentials (m : t) (apiKey apiSecret : option string)
  : error + t :=
  credentials apiKey apiSecret.

Definition hasSignatureAuth (m : t) : bool :=
  match m with Some _ => true | None => false end.

Definition hasApiKeyAuth (m : t) : bool :=
  match m with Some _ => true | None => false end.

Definition getSignatureAuth (m : t) : error + SignatureAuth.t :=
  match m with
  | Some auth => inr auth
  | None => inl (AuthError "Signature authentication not configured")
  end.

(** The headers every request starts from. *)
Definition baseHeaders : headers :=
  {[ "Content-Type" := "application/json";
     "User-Agent" := "AsterDEX-TypeScript-SDK/1.0.0" ]}.

Definition withApiKey (m : t) (h : headers) : error + headers :=
  match getSignatureAuth m with
  | inr auth => inr (<[ "X-MBX-APIKEY" := SignatureAuth.apiKey auth ]> h)
  | inl e => inl e
  end.

(** [createHeaders]; the type of the endpoint comes as the string it is at
    run time. *)
Definition createHeaders (m : t) (authType : string) : error + headers :=
  if String.eqb authType "NONE" then inr baseHeaders
  else if String.eqb authType "USER_STREAM" || String.eqb authType "MARKET_DATA"
  then if negb (hasApiKeyAuth m)
       then inl (AuthError "API key required for this endpoint")
       else withApiKey m baseHeaders
  else if String.eqb authType "SIGNED"
  then if negb (hasSignatureAuth m)
       then inl (AuthError "API key and secret required for this endpoint")
       else withApiKey m baseHeaders
  else inl (ConfigError ("Unknown authentication type: " ++ authType)).

Section WithHost.
Variable localeCompare : string -> string -> Z.
Variable createHmac : string -> string -> string.

Definition signRequest (m : t) (params : object) (recvWindow : number)
    (now : Z) : error + object :=
  match m with
  | None => inl (AuthError "Signature authentication not configured")
  | Some auth =>
      inr (SignatureAuth.signRequest localeCompare createHmac auth params
             recvWindow now)
  end.

End WithHost.
End AuthManager.

(** ** [src/auth/web3signature.ts]: [FuturesAuthManager] *)

Module FuturesAuthManager.
Import Errors Web3.

(** The fields of a [Web3SignatureAuth]. *)
Record Web3SignatureAuth : Type := {
  userAddress : string;
  signerAddress : string;
  privateKey : string;
}.

(** The constructor of [Web3SignatureAuth]. *)
Definition newWeb3SignatureAuth (userAddress signerAddress privateKey : string)
  : error + Web3SignatureAuth :=
  if String.eqb userAddress ""
  then inl (AuthError "User address is required for Futures API")
  else if String.eqb signerAddress ""
  then inl (AuthError "Signer address is required for Futures API")
  else if String.eqb privateKey ""
  then inl (AuthError "Private key is required for Futures API")
  else inr {| userAddress := userAddress; signerAddress := signerAddress;
              privateKey := privateKey |}.

(** The field [web3Auth]. *)
Definition t : Type := option Web3SignatureAuth.

(** The checks that the constructor and [updateCredentials] share. *)
Definition validated (userAddress signerAddress privateKey : string) : error + t :=
  if negb (validateAddresses userAddress signerAddress)
  then inl (AuthError "Invalid user or signer address format")
  else if negb (validatePrivateKey privateKey)
  then inl (AuthError "Invalid private key format")
  else match newWeb3SignatureAuth userAddress signerAddress privateKey with
       | inr auth => inr (Some auth)
       | inl e => inl e
       end.

Definition new (userAddress signerAddress privateKey : option string) : error + t :=
  match userAddress, signerAddress, privateKey with
  | Some u, Some s, Some k =>
      if AuthManager.given userAddress && AuthManager.given signerAddress
         && AuthManager.given privateKey
      then validated u s k
      else inr None
  | _, _, _ => inr None
  end.

Definition updateCredentials (m : t) (userAddress signerAddress privateKey : string)
  : error + t :=
  validated userAddress signerAddress privateKey.

Definition hasWeb3Auth (m : t) : bool :=
  match m with Some _ => true | None => false end.

(** A string that begins with [prefix]. *)
Definition begins_with (shape : string -> Prop) (s : string) : Prop :=
  exists a rest, s = (a ++ rest)%string /\ shape a.

End FuturesAuthManager.

(** ** [URLSearchParams]: the serializer of [application/x-www-form-urlencoded] *)

Module URLSearchParams.
Import JS.

(** The bytes the serializer leaves as they are: ASCII letters and digits
    and [* - . _]; a space becomes [+], every other byte [%XX]. *)
Definition is_safe (c : ascii) : bool :=
  is_upper c || is_lower c || is_digit c
  || existsb (Ascii.eqb c) (list_ascii_of_string "*-._").

Fixpoint form_encode (s : string) : string :=
  match s with
  | "" => ""
  | String c rest =>
      (if is_safe c then String c ""
       else if Ascii.eqb c " " then "+"
       else percent_encode c)
        ++ form_encode rest
  end.

Definition pair_string (pair : string * string) : string :=
  form_encode (fst pair) ++ "=" ++ form_encode (snd pair).

(** [toString()] of the list built by [append]. *)
Definition toString (pairs : list (string * string)) : string :=
  Array_join "&" (map pair_string pairs).

(** Strings that both [encodeURIComponent] and the serializer leave as they
    are. *)
Definition plain (s : string) : bool := forallb is_safe (list_ascii_of_string s).

End URLSearchParams.

(** ** [src/utils/http.ts]: what [executeRequest] hands to [fetch] *)

Module HttpClient.
Import JS Signature Errors.

(** The options of a request, as [BaseRestClient] builds them: [data] is a
    string when given. *)
Record HttpRequestOptions : Type := {
  method : string;
  url : string;
  headers : Errors.headers;
  params : option object;
  data : option string;
}.

Section WithHost.
Variable localeCompare : string -> string -> Z.

(** The string that the cascade of [executeRequest] computes for a value
    [VOther repr]: [repr] itself for a fractional number and for an array
    (whose [join(',')] is its [String]), the JSON text for an object. *)
Variable stringValue_other : string -> string.

Definition stringValue (v : value) : string :=
  match v with
  | VOther repr => stringValue_other repr
  | _ => JS_String v
  end.

(** The pairs appended to [url.searchParams]: the entries sorted by
    [localeCompare], those with a value [undefined], [null] or [''] skipped. *)
Definition searchParams (params : object) : list (string * string) :=
  map (fun entry => (fst entry, stringValue (snd entry)))
      (List.filter keeps (Array_sort (by_key localeCompare) (Object_entries params))).

(** The query of the URL requested, for [options.url] without a query. *)
Definition search (options : HttpRequestOptions) : string :=
  match params options with
  | Some p => URLSearchParams.toString (searchParams p)
  | None => ""
  end.

End WithHost.

(** An entry whose key and value are written the same by
    [encodeURIComponent] and by the serializer of the URL: a string, number or
    boolean, key and [String(value)] made of letters, digits and [* - . _]. *)
Definition plain_entry (entry : string * value) : bool :=
  URLSearchParams.plain (fst entry)
  && match snd entry with
     | VOther _ => false
     | v => URLSearchParams.plain (JS_String v)
     end.

(** The headers given to [fetch]:
    [{ 'Content-Type': 'application/json', ...options.headers }] *)
Definition requestHeaders (options : HttpRequestOptions) : Errors.headers :=
  match headers options !! "Content-Type" with
  | Some _ => headers options
  | None => <[ "Content-Type" := "application/json" ]> (headers options)
  end.

(** The body given to [fetch]:
    [options.data && (options.method === 'POST' || options.method === 'PUT')] *)
Definition body (options : HttpRequestOptions) : option string :=
  match data options with
  | Some d =>
      if negb (String.eqb d "")
         && (String.eqb (method options) "POST" || String.eqb (method options) "PUT")
      then Some d
      else None
  | None => None
  end.

End HttpClient.

(** ** The base REST client ([BaseRestClient]) *)

Module BaseRestClient.
Import JS Signature Errors ParameterUtils HttpClient.

(** The fields of the client; [recvWindow] is [config.getRecvWindow()]. *)
Record t : Type := {
  rateLimiter : option RateLimiter.t;
  authManager : AuthManager.t;
  recvWindow : number;
  baseUrl : string;
}.

(** The readings of the clock in one [makeRequest]: two in
    [waitUntilReady], one in [recordRequest], one in [signRequest]. *)
Record clock : Type := {
  now_check : Z;
  now_reset : Z;
  now_record : Z;
  now_sign : Z;
}.

Definition shouldUseQueryParams (method : string) : bool :=
  String.eqb method "GET" || String.eqb method "DELETE".

(** [authType === ApiAuthTypes.TRADE || authType === ApiAuthTypes.USER_DATA] *)
Definition is_signed (authType : string) : bool :=
  String.eqb authType "TRADE" || String.eqb authType "USER_DATA".

(** The first lines of [makeRequest],
    [await this.rateLimiter.waitUntilReady(); this.rateLimiter.recordRequest()]:
    the sleep of the wait and the limiter after the record.  The limiter is
    one object shared by the calls of a client, and the call is suspended at
    the [await] (for the sleep, or for a turn of the job queue when there is
    none): [meanwhile] is what the other calls that run during the suspension
    do to the limiter, and [recordRequest] works on the limiter as they have
    left it. *)
Definition throttle (client : t) (time : clock)
    (meanwhile : RateLimiter.t -> RateLimiter.t)
  : option Z * option RateLimiter.t :=
  match rateLimiter client with
  | Some rl =>
      let '(slept, rl) :=
        RateLimiter.waitUntilReady (now_check time) (now_reset time) rl in
      let rl := meanwhile rl in
      (slept, Some (RateLimiter.recordRequest (now_record time) rl))
  | None => (None, None)
  end.

(** The body of the form: every entry whose value is neither [null] nor
    [undefined], with [String(value)]. *)
Definition formData (bodyData : object) : list (string * string) :=
  map (fun entry => (fst entry, JS_String (snd entry)))
      (List.filter (fun entry => match snd entry with
                                 | VNull | VUndefined => false
                                 | _ => true
                                 end) bodyData).

Section WithHost.
Variable localeCompare : string -> string -> Z.
Variable createHmac : string -> string -> string.

(** [queryParams] and [bodyData], or the error of [signRequest]. *)
Definition placement (client : t) (method authType : string)
    (cleanedParams : object) (time : clock) : error + object * object :=
  if is_signed authType
  then match AuthManager.signRequest localeCompare createHmac (authManager client)
               cleanedParams (recvWindow client) (now_sign time) with
       | inr signedParams => inr (signedParams, [])
       | inl e => inl e
       end
  else if shouldUseQueryParams method
  then inr (cleanedParams, [])
  else inr ([], cleanedParams).

(** [makeRequest] up to its call of [httpClient.request]: the client with
    the limiter as the call leaves it, the time slept for the limiter, and
    the options of the request or the error thrown before it was made. *)
Definition makeRequest (client : t) (method endpoint : string) (params : object)
    (authType : string) (time : clock)
    (meanwhile : RateLimiter.t -> RateLimiter.t)
  : t * option Z * (error + HttpRequestOptions) :=
  let '(slept, limiter) := throttle client time meanwhile in
  let client := {| rateLimiter := limiter; authManager := authManager client;
                   recvWindow := recvWindow client; baseUrl := baseUrl client |} in
  let cleanedParams := cleanParams params in
  match AuthManager.createHeaders (authManager client)
          (if is_signed authType then "SIGNED" else authType) with
  | inl e => (client, slept, inl e)
  | inr headers =>
      match placement client method authType cleanedParams time with
      | inl e => (client, slept, inl e)
      | inr (queryParams, bodyData) =>
          let url := (baseUrl client ++ endpoint)%string in
          let '(requestData, requestHeaders) :=
            if (0 <? length (Object_entries bodyData))%nat
            then (Some (URLSearchParams.toString (formData bodyData)),
                  <[ "Content-Type" := "application/x-www-form-urlencoded" ]> headers)
            else (None, delete "Content-Type" headers) in
          (client, slept,
           inr {| method := method; url := url; headers := requestHeaders;
                  params := if (0 <? length (Object_entries queryParams))%nat
                            then Some queryParams else None;
                  data := match requestData with
                          | Some d => if String.eqb d "" then None else Some d
                          | None => None
                          end |})
      end
  end.

End WithHost.
End BaseRestClient.

(* ====================================================================== *)
(** * Part II: the properties                                              *)
(* ====================================================================== *)

(** ** The canonical query string ([Signature.createQueryString]) *)

Section QueryString.
Import JS Signature.
Variable localeCompare : string -> string -> Z.

Lemma sort_insert_perm {A} (f : A -> A -> Z) x l :
  Permutation (sort_insert f x l) (x :: l).
Proof.
  induction l as [|y l IH]; simpl; [reflexivity|].
  destruct (f x y <=? 0); [reflexivity|].
  rewrite IH. apply perm_swap.
Qed.

Lemma Array_sort_perm {A} (f : A -> A -> Z) l :
  Permutation (Array_sort f l) l.
Proof.
  induction l as [|x l IH]; simpl; [reflexivity|].
  unfold Array_sort in *. simpl. rewrite sort_insert_perm. now constructor.
Qed.

Lemma sort_insert_sorted {A} (f : A -> A -> Z) x l :
  (forall a b, f a b <= 0 \/ f b a <= 0) ->
  Sorted (fun a b => f a b <= 0) l ->
  Sorted (fun a b => f a b <= 0) (sort_insert f x l).
Proof.
  intros total. induction l as [|y l IH]; intros Hs; simpl.
  - repeat constructor.
  - destruct (Z.leb_spec (f x y) 0) as [Hle|Hgt].
    + constructor; [assumption|]. now constructor.
    + inversion Hs as [|? ? Hs' Hhd]; subst.
      constructor; [now apply IH|].
      destruct l as [|z l]; simpl.
      * constructor. destruct (total x y); lia.
      * destruct (f x z <=? 0).
        -- constructor. destruct (total x y); lia.
        -- inversion Hhd; subst. now constructor.
Qed.

Lemma Array_sort_sorted {A} (f : A -> A -> Z) l :
  (forall a b, f a b <= 0 \/ f b a <= 0) ->
  Sorted (fun a b => f a b <= 0) (Array_sort f l).
Proof.
  intros total. induction l as [|x l IH]; [constructor|].
  unfold Array_sort in *. simpl. now apply sort_insert_sorted.
Qed.

(** A sorted list stays sorted under a relation that agrees with the first
    one on the elements of the list. *)
Lemma Sorted_agree {A} (R R' : A -> A -> Prop) l :
  (forall a b, In a l -> In b l -> R a b -> R' a b) ->
  Sorted R l -> Sorted R' l.
Proof.
  induction l as [|x l IH]; intros Hag Hs; [constructor|].
  inversion Hs as [|? ? Hs' Hhd]; subst. constructor.
  - apply IH; [|assumption]. intros a b Ha Hb. apply Hag; now right.
  - destruct l as [|y l]; constructor.
    inversion Hhd; subst. apply Hag; simpl; auto.
Qed.

Lemma Sorted_map_fst {B} (R : string -> string -> Prop) (l : list (string * B)) :
  Sorted (fun x y => R (fst x) (fst y)) l -> Sorted R (map fst l).
Proof.
  induction 1 as [|x l Hs IH Hhd]; simpl; constructor; [assumption|].
  destruct Hhd; simpl; now constructor.
Qed.

Lemma keeps_spec e :
  keeps e = true <->
  snd e <> VUndefined /\ snd e <> VNull /\ snd e <> VString "".
Proof.
  unfold keeps. destruct (snd e) as [| |b|n|s|r]; try (split; [intros _; repeat split; congruence | reflexivity]);
    try (split; [discriminate | intros (H1 & H2 & H3); congruence]).
  destruct s; [split; [discriminate | intros (_ & _ & H); congruence]|].
  split; [intros _; repeat split; congruence | reflexivity].
Qed.

Lemma is_ascii_app s t :
  is_ascii s -> is_ascii t -> is_ascii (s ++ t)%string.
Proof.
  unfold is_ascii. induction s as [|c s IH]; simpl; [auto|].
  intros Hs Ht. inversion Hs; subst. constructor; auto.
Qed.

Lemma is_unreserved_ascii c : is_unreserved c = true -> (N_of_ascii c < 128)%N.
Proof.
  destruct c as [b0 b1 b2 b3 b4 b5 b6 b7].
  destruct b7; [|intros _; destruct b0, b1, b2, b3, b4, b5, b6; vm_compute; reflexivity].
  destruct b0, b1, b2, b3, b4, b5, b6; vm_compute; discriminate.
Qed.

Lemma hex_upper_ascii n : (N_of_ascii (hex_upper n) < 128)%N.
Proof.
  destruct n as [|p]; [vm_compute; reflexivity|].
  do 4 (try destruct p as [p|p|]); vm_compute; reflexivity.
Qed.

Lemma encodeURIComponent_ascii s : is_ascii (encodeURIComponent s).
Proof.
  induction s as [|c s IH]; simpl; [constructor|].
  apply is_ascii_app; [|assumption].
  destruct (is_unreserved c) eqn:E.
  - repeat constructor. now apply is_unreserved_ascii.
  - unfold percent_encode. repeat constructor; try apply hex_upper_ascii.
Qed.

Lemma concat_ascii sep l :
  is_ascii sep -> Forall is_ascii l -> is_ascii (String.concat sep l).
Proof.
  intros Hsep. induction 1 as [|s l Hs Hl IH]; simpl; [constructor|].
  destruct l as [|t l]; [assumption|].
  apply is_ascii_app; [assumption|]. apply is_ascii_app; assumption.
Qed.

Lemma pair_string_ascii e : is_ascii (pair_string e).
Proof.
  unfold pair_string. apply is_ascii_app; [apply encodeURIComponent_ascii|].
  apply (is_ascii_app "="); [repeat constructor | apply encodeURIComponent_ascii].
Qed.

(** C1 (as the code has it): [createQueryString] joins with [&] the
    [key=value] strings of exactly those entries whose value is neither
    [undefined], [null] nor the empty string, key and stringified value
    percent-encoded (so the result is ASCII), in the order of
    [localeCompare] on the keys; the keys are in non-decreasing raw
    (code-unit) order whenever [localeCompare] agrees with the raw
    comparison on them. *)
Theorem createQueryString_canonical (params : object) :
  (forall a b, localeCompare a b <= 0 \/ localeCompare b a <= 0) ->
  let entries := queryEntries localeCompare params in
  createQueryString localeCompare params
    = Array_join "&" (map pair_string entries)
  /\ Permutation entries (List.filter keeps params)
  /\ Forall (fun e => snd e <> VUndefined /\ snd e <> VNull /\ snd e <> VString "")
            entries
  /\ (forall e, In e params ->
        snd e <> VUndefined -> snd e <> VNull -> snd e <> VString "" ->
        In e entries)
  /\ Sorted (key_le localeCompare) entries
  /\ ((forall a b, In a (map fst params) -> In b (map fst params) ->
         localeCompare a b <= 0 -> raw_le a b) ->
      Sorted raw_le (map fst entries))
  /\ is_ascii (createQueryString localeCompare params).
Proof.
  intros total entries.
  assert (Hperm : Permutation entries (List.filter keeps params))
    by apply Array_sort_perm.
  assert (Hsorted : Sorted (key_le localeCompare) entries).
  { apply (Array_sort_sorted (by_key localeCompare)).
    intros a b. apply total. }
  split; [reflexivity|]. split; [exact Hperm|]. split.
  { eapply Permutation_Forall; [symmetry; exact Hperm|].
    apply List.Forall_forall. intros e He. apply filter_In in He.
    now apply keeps_spec. }
  split.
  { intros e He H1 H2 H3. eapply Permutation_in; [symmetry; exact Hperm|].
    apply filter_In. split; [assumption|]. now apply keeps_spec. }
  split; [exact Hsorted|]. split.
  { intros Hag. apply Sorted_map_fst.
    eapply Sorted_agree; [|exact Hsorted].
    intros a b Ha Hb Hab. unfold key_le in Hab.
    assert (Hin : forall e, In e entries -> In (fst e) (map fst params)).
    { intros e He. apply in_map.
      eapply Permutation_in in He; [|exact Hperm].
      now apply filter_In in He. }
    apply Hag; auto. }
  unfold createQueryString, Array_join. apply concat_ascii; [repeat constructor|].
  apply List.Forall_forall. intros x Hx. apply in_map_iff in Hx as (e & <- & _).
  apply pair_string_ascii.
Qed.

End QueryString.

Lemma lex_compare_antisym l1 l2 :
  Collation.lex_compare l2 l1 = CompOpp (Collation.lex_compare l1 l2).
Proof.
  revert l2. induction l1 as [|x l1 IH]; intros [|y l2]; simpl; try reflexivity.
  rewrite (N.compare_antisym x y). destruct (x ?= y)%N; simpl; auto.
Qed.

Lemma localeCompare_en_total a b :
  Collation.localeCompare_en a b <= 0 \/ Collation.localeCompare_en b a <= 0.
Proof.
  unfold Collation.localeCompare_en.
  rewrite (lex_compare_antisym (Collation.weights Collation.primary_weight a)).
  rewrite (lex_compare_antisym (Collation.weights Collation.tertiary_weight a)).
  destruct (Collation.lex_compare _ (Collation.weights Collation.primary_weight b));
    simpl; try lia.
  destruct (Collation.lex_compare _ (Collation.weights Collation.tertiary_weight b));
    simpl; lia.
Qed.

Lemma createQueryString_canonical_witness :
  (forall a b, Collation.localeCompare_en a b <= 0
               \/ Collation.localeCompare_en b a <= 0)
  /\ Sorted (Signature.key_le Collation.localeCompare_en)
       (Signature.queryEntries Collation.localeCompare_en
          [("symbol", JS.VString "BTCUSDT"); ("side", JS.VString "BUY");
           ("note", JS.VString ""); ("timestamp", JS.VNumber 1700000000000)]).
Proof.
  split; [exact localeCompare_en_total|].
  exact (proj1 (proj2 (proj2 (proj2 (proj2
    (createQueryString_canonical Collation.localeCompare_en
       [("symbol", JS.VString "BTCUSDT"); ("side", JS.VString "BUY");
        ("note", JS.VString ""); ("timestamp", JS.VNumber 1700000000000)]
       localeCompare_en_total)))))).
Defined.

(** C1 (as the claim states it) fails: in an English locale the keys
    [B] and [a] are written out as [a], [B], although [B] precedes [a] in
    raw string comparison. *)
Lemma createQueryString_not_raw_sorted :
  List.NoDup (map fst [("B", JS.VNumber 1); ("a", JS.VNumber 2)])
  /\ Signature.createQueryString Collation.localeCompare_en
       [("B", JS.VNumber 1); ("a", JS.VNumber 2)] = "a=2&B=1"
  /\ ~ Sorted JS.raw_le
       (map fst (Signature.queryEntries Collation.localeCompare_en
                   [("B", JS.VNumber 1); ("a", JS.VNumber 2)])).
Proof.
  split.
  { simpl. apply List.NoDup_cons; [simpl; intros [H|[]]; discriminate|].
    apply List.NoDup_cons; [simpl; tauto | apply List.NoDup_nil]. }
  split; [vm_compute; reflexivity|].
  intros H. vm_compute in H.
  inversion H as [|? ? _ Hhd]; subst. inversion Hhd as [|? ? Hle]; subst.
  apply Hle. reflexivity.
Qed.

Example createQueryString_order :
  Signature.createQueryString Collation.localeCompare_en
    [("symbol", JS.VString "BTCUSDT"); ("side", JS.VString "BUY");
     ("price", JS.VNumber 50000); ("note", JS.VString ""); ("x y", JS.VNull);
     ("timestamp", JS.VNumber 1700000000000); ("tag", JS.VString "a b&c")]
  = "price=50000&side=BUY&symbol=BTCUSDT&tag=a%20b%26c&timestamp=1700000000000".
Proof. vm_compute. reflexivity. Qed.

(** ** The nonce ([Web3.generateNonce]) *)

Section Nonce.
Import JS Constants Web3.

Lemma generateNonce_exact now :
  safe_reading now -> generateNonce now = now * 1000.
Proof.
  intros [H0 H]. unfold generateNonce, Math_trunc, to_double.
  unfold MICROSECONDS_IN_MILLISECOND in *.
  rewrite Z.abs_eq by lia.
  destruct (Z.leb_spec (now * 1000) two53); [reflexivity | lia].
Qed.

Lemma nonces_sorted (R R' : Z -> Z -> Prop) clock :
  (forall a b, safe_reading a -> safe_reading b -> R a b ->
               R' (generateNonce a) (generateNonce b)) ->
  Forall safe_reading clock -> Sorted R clock -> Sorted R' (nonces clock).
Proof.
  intros HR Hsafe Hs. induction Hs as [|a l Hs IH Hhd]; simpl; [constructor|].
  inversion Hsafe as [|? ? Ha Hl]; subst.
  constructor; [now apply IH|].
  destruct Hhd as [|b l Hab]; simpl; constructor.
  inversion Hl; subst. now apply HR.
Qed.

(** C2 (as the code has it): the nonce is the clock reading in
    milliseconds times 1000; over calls whose readings are at least 1 ms
    apart the nonces strictly increase; over a clock that does not run
    backwards they never decrease; and two calls get the same nonce exactly
    when they read the same millisecond. *)
Theorem generateNonce_monotone :
  (forall now, safe_reading now -> generateNonce now = now * 1000)
  /\ (forall clock, Forall safe_reading clock -> spaced clock ->
        Sorted Z.lt (nonces clock))
  /\ (forall clock, Forall safe_reading clock -> Sorted Z.le clock ->
        Sorted Z.le (nonces clock))
  /\ (forall now1 now2, safe_reading now1 -> safe_reading now2 ->
        (generateNonce now1 = generateNonce now2 <-> now1 = now2)).
Proof.
  split; [exact generateNonce_exact|]. split; [|split].
  - intros clock Hsafe Hsp. eapply nonces_sorted; [|exact Hsafe|exact Hsp].
    intros a b Ha Hb Hab. cbv beta in Hab.
    rewrite !generateNonce_exact by assumption. lia.
  - intros clock Hsafe Hs. eapply nonces_sorted; [|exact Hsafe|exact Hs].
    intros a b Ha Hb Hab. cbv beta in Hab.
    rewrite !generateNonce_exact by assumption. lia.
  - intros now1 now2 H1 H2. rewrite !generateNonce_exact by assumption. lia.
Qed.

End Nonce.

Lemma generateNonce_monotone_witness :
  Forall Web3.safe_reading [1672531200000; 1672531200001; 1672531200005]
  /\ Web3.spaced [1672531200000; 1672531200001; 1672531200005]
  /\ Sorted Z.lt (Web3.nonces [1672531200000; 1672531200001; 1672531200005]).
Proof.
  assert (Hsafe : Forall Web3.safe_reading [1672531200000; 1672531200001; 1672531200005]).
  { repeat constructor; vm_compute; congruence. }
  assert (Hsp : Web3.spaced [1672531200000; 1672531200001; 1672531200005]).
  { repeat constructor; vm_compute; congruence. }
  split; [exact Hsafe|]. split; [exact Hsp|].
  exact (proj1 (proj2 generateNonce_monotone) _ Hsafe Hsp).
Defined.

(** C2 (as the claim states it) fails: two calls that read the same
    millisecond receive the same nonce. *)
Lemma generateNonce_same_millisecond_repeats :
  Web3.nonces [1672531200000; 1672531200000]
    = [1672531200000000; 1672531200000000]
  /\ ~ Sorted Z.lt (Web3.nonces [1672531200000; 1672531200000]).
Proof.
  split; [vm_compute; reflexivity|].
  intros H. inversion H as [|? ? _ Hhd]; subst.
  inversion Hhd as [|? ? Hlt]; subst. vm_compute in Hlt. discriminate.
Qed.

(** ** The address and key validators *)

Section Validators.
Import JS Constants Web3.

(** [test] succeeds exactly on the strings that begin with a match. *)
Lemma test_app p q s :
  test (p ++ q) s = true <->
  exists a r, s = (a ++ r)%string /\ String.length a = length p
              /\ test p a = true /\ test q r = true.
Proof.
  revert s. induction p as [|m p IH]; intros s; simpl.
  - split.
    + intros H. exists "", s. repeat split; auto.
    + intros (a & r & -> & Hl & _ & H). destruct a; [exact H | discriminate].
  - destruct s as [|c s].
    + split; [discriminate|]. intros (a & r & Hs & Hl & _).
      destruct a; discriminate.
    + rewrite andb_true_iff, IH. split.
      * intros (Hm & a & r & -> & Hl & Ha & Hr).
        exists (String c a), r. simpl. rewrite Hm, Ha. repeat split; auto.
      * intros (a & r & Hs & Hl & Ha & Hr). destruct a as [|c' a]; [discriminate|].
        simpl in *. injection Hs as -> ->. apply andb_true_iff in Ha as [Hm Ha].
        split; [assumption|]. exists a, r. repeat split; auto.
Qed.

Lemma test_hex_exact n h :
  String.length h = n -> (test (repeat hex n) h = true <-> all_hex h = true).
Proof.
  revert h. induction n as [|n IH]; intros [|c h] Hl; simpl in *; try discriminate.
  - tauto.
  - unfold all_hex in *. simpl. rewrite !andb_true_iff, IH by congruence. tauto.
Qed.

Lemma test_short p s :
  (String.length s < length p)%nat -> test p s = false.
Proof.
  revert s. induction p as [|m p IH]; intros [|c s] Hl; simpl in *; try lia; auto.
  rewrite IH by lia. apply andb_false_r.
Qed.

Lemma test_prefix_ok p a r :
  test p a = true -> test p (a ++ r)%string = true.
Proof.
  revert a. induction p as [|m p IH]; intros [|c a]; simpl; try discriminate; auto.
  intros H. apply andb_true_iff in H as [-> H]. simpl. now apply IH.
Qed.

Lemma test_prefixed n h :
  String.length h = n -> all_hex h = true ->
  test ([lit "0"; lit "x"] ++ repeat hex n) ("0x" ++ h)%string = true.
Proof.
  intros Hl Hh. apply test_app. exists "0x", h.
  repeat split; try reflexivity. now apply test_hex_exact.
Qed.

(** The shapes the validators are meant for are accepted, and strings that
    are too short are rejected. *)
Lemma validateAddresses_accepts user signer :
  is_address user -> is_address signer -> validateAddresses user signer = true.
Proof.
  intros (h1 & -> & Hl1 & Hh1) (h2 & -> & Hl2 & Hh2).
  unfold validateAddresses, addressRegex.
  now rewrite !test_prefixed.
Qed.

Lemma validatePrivateKey_accepts key :
  is_private_key key -> validatePrivateKey key = true.
Proof.
  intros (h & [-> | ->] & Hl & Hh); unfold validatePrivateKey.
  - unfold withoutPrefixRegex, PRIVATE_KEY_LENGTH.
    now rewrite (proj2 (test_hex_exact _ h Hl) Hh).
  - unfold withPrefixRegex. rewrite test_prefixed by assumption. apply orb_true_r.
Qed.

Lemma validatePrivateKey_rejects_short key :
  (String.length key < 64)%nat -> validatePrivateKey key = false.
Proof.
  intros Hl. unfold validatePrivateKey.
  rewrite !test_short; auto; unfold withoutPrefixRegex, withPrefixRegex;
    rewrite ?length_app, ?repeat_length; simpl; unfold PRIVATE_KEY_LENGTH; lia.
Qed.

(** What the code accepts: every string that begins with such a shape. *)
Lemma validateAddresses_prefix user signer r1 r2 :
  is_address user -> is_address signer ->
  validateAddresses (user ++ r1)%string (signer ++ r2)%string = true.
Proof.
  intros Hu Hs. pose proof (validateAddresses_accepts _ _ Hu Hs) as H.
  unfold validateAddresses in *. apply andb_true_iff in H as [H1 H2].
  now rewrite !test_prefix_ok.
Qed.

End Validators.

(** C5 fails on the code: the patterns have no end anchor, so a key of 65
    hexadecimal characters and an address with 41 are accepted, although
    neither has the exact shape. *)
Theorem validators_accept_overlong :
  Web3.validatePrivateKey
    "4fd0a42218f3eae43a6ce26d22544e986139a01e5b34a62db53757ffca81bae1f" = true
  /\ String.length
       "4fd0a42218f3eae43a6ce26d22544e986139a01e5b34a62db53757ffca81bae1f" = 65%nat
  /\ Web3.validateAddresses "0x63DD5aCC6b1aa0f563956C0e534DD30B6dcF7C4e0"
       "0x21cF8Ae13Bb72632562c6Fff438652Ba1a151bb0" = true
  /\ String.length "0x63DD5aCC6b1aa0f563956C0e534DD30B6dcF7C4e0" = 43%nat
  /\ ~ Web3.is_private_key
       "4fd0a42218f3eae43a6ce26d22544e986139a01e5b34a62db53757ffca81bae1f"
  /\ ~ Web3.is_address "0x63DD5aCC6b1aa0f563956C0e534DD30B6dcF7C4e0".
Proof.
  split; [vm_compute; reflexivity|]. split; [vm_compute; reflexivity|].
  split; [vm_compute; reflexivity|]. split; [vm_compute; reflexivity|].
  split.
  - intros (h & [H | H] & Hl & _).
    + subst h. vm_compute in Hl. discriminate Hl.
    + cbv [String.append] in H. discriminate H.
  - intros (h & H & Hl & _). cbv [String.append] in H.
    injection H as <-. vm_compute in Hl. discriminate Hl.
Qed.

(** ** The sliding-window rate limiter *)

Section RateWindow.
Import RateLimiter.

Lemma filter_all {A} (f : A -> bool) l :
  Forall (fun x => f x = true) l -> List.filter f l = l.
Proof. induction 1 as [|x l Hx _ IH]; simpl; [|rewrite Hx, IH]; reflexivity. Qed.

Lemma filter_none {A} (f : A -> bool) l :
  Forall (fun x => f x = false) l -> List.filter f l = [].
Proof. induction 1 as [|x l Hx _ IH]; simpl; [|rewrite Hx, IH]; reflexivity. Qed.

Lemma requests_clean now rl :
  requests (cleanOldRequests now rl)
  = List.filter (fun timestamp => now - windowMs rl <? timestamp) (requests rl).
Proof. reflexivity. Qed.

Lemma canMakeRequest_eq now rl :
  canMakeRequest now rl
  = (size (cleanOldRequests now rl) <? maxRequests rl, cleanOldRequests now rl).
Proof. reflexivity. Qed.

Lemma size_clean now rl : size (cleanOldRequests now rl) <= size rl.
Proof.
  unfold size, cleanOldRequests. simpl.
  apply Nat2Z.inj_le, List.filter_length_le.
Qed.

Lemma inWindow_le_size now rl : inWindow now rl <= size rl.
Proof. unfold inWindow, size. apply Nat2Z.inj_le, List.filter_length_le. Qed.

Lemma step_config rl c :
  windowMs (step rl c) = windowMs rl /\ maxRequests (step rl c) = maxRequests rl.
Proof.
  destruct c; simpl; auto.
  unfold waitUntilReady, canMakeRequest. simpl.
  destruct (_ <? _); [auto|]. destruct (0 <? _); auto.
Qed.

Lemma step_bounded rl c :
  size rl <= maxRequests rl ->
  match c with
  | RecordRequest now => fst (canMakeRequest now rl) = true
  | _ => True
  end ->
  size (step rl c) <= maxRequests (step rl c).
Proof.
  intros Hb Hg. destruct (step_config rl c) as [_ ->].
  pose proof (fun now => size_clean now rl) as Hc.
  destruct c as [now|now|now|now1 now2|]; simpl.
  - specialize (Hc now). lia.
  - unfold canMakeRequest in Hg. simpl in Hg. apply Z.ltb_lt in Hg.
    unfold size, recordRequest in *. simpl in *.
    rewrite length_app. simpl. lia.
  - assumption.
  - unfold waitUntilReady, canMakeRequest. specialize (Hc now1).
    destruct (_ <? _); simpl; [lia|]. destruct (0 <? _); simpl; lia.
  - unfold size. simpl. unfold size in Hb. lia.
Qed.

Lemma run_bounded calls : forall rl,
  size rl <= maxRequests rl -> granted rl calls ->
  size (run rl calls) <= maxRequests rl.
Proof.
  induction calls as [|c calls IH]; intros rl Hb Hg; simpl; [assumption|].
  destruct Hg as [Hc Hg].
  destruct (step_config rl c) as [_ Hm]. rewrite <- Hm.
  apply IH; [now apply step_bounded | assumption].
Qed.

Lemma run_records ts : forall rl lo,
  Forall (fun ti => lo < ti <= lo + windowMs rl) ts ->
  Forall (fun ti => lo < ti) (requests rl) ->
  requests (run rl (map RecordRequest ts)) = requests rl ++ ts
  /\ windowMs (run rl (map RecordRequest ts)) = windowMs rl
  /\ maxRequests (run rl (map RecordRequest ts)) = maxRequests rl.
Proof.
  induction ts as [|ti ts IH]; intros rl lo Hts Hrl; simpl.
  - now rewrite app_nil_r.
  - inversion Hts as [|? ? Hti Hts']; subst.
    assert (Hrec : requests (recordRequest ti rl) = requests rl ++ [ti]).
    { unfold recordRequest, cleanOldRequests. simpl. f_equal.
      apply filter_all. eapply List.Forall_impl; [|exact Hrl].
      intros x Hx. apply Z.ltb_lt. simpl in *. lia. }
    destruct (IH (recordRequest ti rl) lo) as (H1 & H2 & H3).
    + exact Hts'.
    + rewrite Hrec. apply Forall_app. split; [assumption|].
      constructor; [lia | constructor].
    + rewrite H1, H2, H3, Hrec, <- app_assoc. auto.
Qed.

(** C6 (as the code has it): as long as only granted requests are
    recorded ([recordRequest] is called when [canMakeRequest] holds), the
    limiter never stores more than [maxRequests] timestamps, so no more than
    that lie in any trailing window; and with [maxRequests = 5] and
    [windowMs = 1000], after five records [canMakeRequest] is [false], and
    1001 ms later it is [true] again. *)
Theorem rate_window_bounded :
  (forall maxRequests windowMs calls,
      0 <= maxRequests ->
      granted (new maxRequests windowMs) calls ->
      let rl := run (new maxRequests windowMs) calls in
      size rl <= maxRequests /\ forall now, inWindow now rl <= maxRequests)
  /\ (forall now ts,
        length ts = 5%nat ->
        Forall (fun ti => now - 1000 < ti <= now) ts ->
        let rl := run (new 5 1000) (map RecordRequest ts) in
        fst (canMakeRequest now rl) = false
        /\ fst (canMakeRequest (now + 1001) (snd (canMakeRequest now rl))) = true).
Proof.
  split.
  - intros maxR win calls Hmax Hg rl.
    assert (Hb : size rl <= maxR).
    { apply (run_bounded calls (new maxR win)); [simpl; exact Hmax | exact Hg]. }
    split; [exact Hb|]. intros now. pose proof (inWindow_le_size now rl). lia.
  - intros now ts Hlen Hts rl.
    destruct (run_records ts (new 5 1000) (now - 1000)) as (Hreq & Hwin & Hmax).
    { eapply List.Forall_impl; [|exact Hts]. simpl. intros; lia. }
    { constructor. }
    simpl in Hreq. fold rl in Hreq, Hwin, Hmax.
    assert (Hclean : requests (cleanOldRequests now rl) = ts).
    { rewrite requests_clean, Hreq, Hwin. apply filter_all.
      eapply List.Forall_impl; [|exact Hts]. intros x Hx. apply Z.ltb_lt.
      simpl in *. lia. }
    assert (Hclean' : requests (cleanOldRequests (now + 1001)
                                  (cleanOldRequests now rl)) = []).
    { rewrite requests_clean, Hclean. change (windowMs (cleanOldRequests now rl))
        with (windowMs rl). rewrite Hwin. apply filter_none.
      eapply List.Forall_impl; [|exact Hts]. intros x Hx. apply Z.ltb_ge.
      simpl in *. lia. }
    rewrite !canMakeRequest_eq. cbn [fst snd]. unfold size.
    rewrite Hclean', Hclean, Hlen.
    change (maxRequests (cleanOldRequests now rl)) with (maxRequests rl).
    rewrite Hmax. split; reflexivity.
Qed.

End RateWindow.

Lemma rate_window_bounded_witness :
  0 <= 2
  /\ RateLimiter.granted (RateLimiter.new 2 1000)
       [RateLimiter.RecordRequest 0; RateLimiter.WaitUntilReady 10 10;
        RateLimiter.RecordRequest 10; RateLimiter.CanMakeRequest 20;
        RateLimiter.RecordRequest 1005]
  /\ RateLimiter.size (RateLimiter.run (RateLimiter.new 2 1000)
       [RateLimiter.RecordRequest 0; RateLimiter.WaitUntilReady 10 10;
        RateLimiter.RecordRequest 10; RateLimiter.CanMakeRequest 20;
        RateLimiter.RecordRequest 1005]) <= 2.
Proof.
  assert (H0 : 0 <= 2) by lia.
  assert (Hg : RateLimiter.granted (RateLimiter.new 2 1000)
       [RateLimiter.RecordRequest 0; RateLimiter.WaitUntilReady 10 10;
        RateLimiter.RecordRequest 10; RateLimiter.CanMakeRequest 20;
        RateLimiter.RecordRequest 1005]).
  { vm_compute. repeat split. }
  split; [exact H0|]. split; [exact Hg|].
  exact (proj1 (proj1 rate_window_bounded 2 1000 _ H0 Hg)).
Defined.

(** C6 (as the claim states it) fails: [recordRequest] records
    unconditionally, so six calls in a row leave six timestamps inside the
    window of a limiter whose maximum is five. *)
Lemma rate_window_exceeded :
  RateLimiter.maxRequests
    (RateLimiter.run (RateLimiter.new 5 1000)
       (repeat (RateLimiter.RecordRequest 1700000000000) 6)) = 5
  /\ RateLimiter.inWindow 1700000000000
       (RateLimiter.run (RateLimiter.new 5 1000)
          (repeat (RateLimiter.RecordRequest 1700000000000) 6)) = 6.
Proof. split; vm_compute; reflexivity. Qed.

(** ** The transport's retry loop *)

Section Retry.
Import Errors Http.
Variable cfg : RetryConfig.
Variable net : Z -> fetch_outcome.

Lemma request_loop_total fuel : forall attempt lastError sleeps,
  (0 < fuel)%nat -> maxRetries cfg - attempt < Z.of_nat fuel ->
  exists s, request_loop cfg net fuel attempt lastError sleeps = Some s.
Proof.
  induction fuel as [|fuel IH]; intros attempt lastError sleeps Hpos Hfuel; [lia|].
  simpl. destruct (Z.leb_spec attempt (maxRetries cfg)) as [Hle|Hgt]; [|eauto].
  destruct (executeRequest (net attempt)) as [r|e]; [eauto|].
  destruct (Z.eqb_spec attempt (maxRetries cfg)) as [Heq|Hne]; simpl; [eauto|].
  destruct (isRetryableError e); simpl; [|eauto].
  apply IH; lia.
Qed.

Lemma seq_shift_map {B} (f : Z -> B) a k :
  map (fun i : nat => f (a + Z.of_nat i)) (seq 0 (S k))
  = f a :: map (fun i : nat => f (a + 1 + Z.of_nat i)) (seq 0 k).
Proof.
  simpl. rewrite Z.add_0_r. f_equal.
  rewrite <- seq_shift, map_map. apply map_ext. intros i. f_equal. lia.
Qed.

Lemma request_loop_spec fuel : forall attempt lastError sleeps s,
  request_loop cfg net fuel attempt lastError sleeps = Some s ->
  attempt <= maxRetries cfg ->
  exists k : nat,
    attempt + Z.of_nat k <= maxRetries cfg
    /\ (forall i : nat, (i < k)%nat ->
          retryable_failure (net (attempt + Z.of_nat i)) = true)
    /\ slept s = sleeps ++ map (fun i : nat =>
                   delay_after cfg (attempt + Z.of_nat i)
                     (net (attempt + Z.of_nat i))) (seq 0 k)
    /\ result s = executeRequest (net (attempt + Z.of_nat k))
    /\ (forall e, result s = inr e ->
          attempt + Z.of_nat k = maxRetries cfg \/ isRetryableError e = false).
Proof.
  induction fuel as [|fuel IH]; intros attempt lastError sleeps s Hrun Hle;
    [discriminate|].
  simpl in Hrun. destruct (Z.leb_spec attempt (maxRetries cfg)); [|lia].
  destruct (executeRequest (net attempt)) as [r|e] eqn:Hexec.
  - injection Hrun as <-. exists 0%nat. simpl. rewrite Z.add_0_r, app_nil_r.
    repeat split; auto; try lia. discriminate.
  - destruct ((attempt =? maxRetries cfg) || negb (isRetryableError e)) eqn:Hstop.
    + injection Hrun as <-. exists 0%nat. simpl. rewrite Z.add_0_r, app_nil_r.
      repeat split; auto; try lia.
      intros e' [= <-]. apply orb_true_iff in Hstop as [Heq|Hnr].
      * left. now apply Z.eqb_eq.
      * right. now apply negb_true_iff.
    + apply orb_false_iff in Hstop as [Hne Hr].
      apply Z.eqb_neq in Hne. apply negb_false_iff in Hr.
      apply IH in Hrun as (k & Hk & Hretry & Hslept & Hres & Hlast); [|lia].
      exists (S k). split; [lia|]. split; [|split; [|split]].
      * intros [|i] Hi.
        -- simpl. rewrite Z.add_0_r. unfold retryable_failure. now rewrite Hexec.
        -- replace (attempt + Z.of_nat (S i)) with (attempt + 1 + Z.of_nat i) by lia.
           apply Hretry. lia.
      * rewrite Hslept, <- app_assoc. f_equal.
        rewrite (seq_shift_map (fun a => delay_after cfg a (net a))).
        simpl. unfold delay_after at 2. now rewrite Hexec.
      * rewrite Hres. do 2 f_equal. lia.
      * intros e' He'. destruct (Hlast e' He'); [left; lia | now right].
Qed.

(** The retry policy of [request].  It always settles.  When
    [maxRetries] is not negative it makes at most [maxRetries] retries, each
    after a call that failed with a retryable error; a failure of the
    transport is retryable exactly when it is a response with status 500 or
    above, 429 or 418, or a network failure (timeout, failed fetch); the
    [i]-th retry is preceded by a sleep of [retryDelay * backoffMultiplier^i],
    replaced by 1000 times the [Retry-After] header on a rate-limit error when
    that header reads as a non-zero integer; the request settles with the
    outcome of the call after the last retry.  A 4xx response other than 429
    and 418 is not retried and rejects at once, and two 503 responses followed
    by a success resolve after exactly two retries when [maxRetries >= 2]. *)
Theorem request_retry_policy :
  exists s, request cfg net = Some s
  /\ (0 <= maxRetries cfg ->
      Z.of_nat (retries s) <= maxRetries cfg
      /\ (forall i : nat, (i < retries s)%nat ->
            retryable_failure (net (Z.of_nat i)) = true)
      /\ slept s = map (fun i : nat =>
                     delay_after cfg (Z.of_nat i) (net (Z.of_nat i)))
                     (seq 0 (retries s))
      /\ result s = executeRequest (net (Z.of_nat (retries s)))
      /\ (forall e, result s = inr e ->
            Z.of_nat (retries s) = maxRetries cfg \/ isRetryableError e = false))
  /\ (forall o e, executeRequest o = inr e ->
        (isRetryableError e = true <->
         (exists st h body, o = Responded st h body
            /\ (500 <= st \/ st = 429 \/ st = 418))
         \/ o = Aborted \/ exists message, o = FetchFailed message))
  /\ (forall attempt o e, executeRequest o = inr e ->
        delay_after cfg attempt o =
          match e with
          | RateLimitError _ _ (Num n) =>
              if n =? 0 then backoff cfg attempt else inject_Z (n * 1000)
          | _ => backoff cfg attempt
          end)
  /\ (forall st h body,
        0 <= maxRetries cfg -> net 0 = Responded st h body ->
        400 <= st < 500 -> st <> 429 -> st <> 418 ->
        s = {| result := inr (ApiResponseError st (Some h)); slept := [] |})
  /\ (forall h0 b0 h1 b1 st h body,
        2 <= maxRetries cfg ->
        net 0 = Responded 503 h0 b0 -> net 1 = Responded 503 h1 b1 ->
        net 2 = Responded st h body -> ok st = true ->
        retries s = 2%nat
        /\ s = {| result := inl {| status := st; hdrs := h; data := body |};
                 slept := [backoff cfg 0; backoff cfg 1] |}).
Proof.
  destruct (request_loop_total (Z.to_nat (maxRetries cfg) + 2) 0 None [])
    as [s Hs]; [lia | lia |].
  exists s. split; [exact Hs|].
  assert (Hspec : 0 <= maxRetries cfg ->
      Z.of_nat (retries s) <= maxRetries cfg
      /\ (forall i : nat, (i < retries s)%nat ->
            retryable_failure (net (Z.of_nat i)) = true)
      /\ slept s = map (fun i : nat =>
                     delay_after cfg (Z.of_nat i) (net (Z.of_nat i)))
                     (seq 0 (retries s))
      /\ result s = executeRequest (net (Z.of_nat (retries s)))
      /\ (forall e, result s = inr e ->
            Z.of_nat (retries s) = maxRetries cfg \/ isRetryableError e = false)).
  { intros Hmax. apply request_loop_spec in Hs as (k & Hk & Hretry & Hslept & Hres & Hlast);
      [|exact Hmax].
    simpl in Hslept, Hk, Hres, Hlast.
    assert (Hn : retries s = k).
    { unfold retries. now rewrite Hslept, length_map, length_seq. }
    rewrite Hn. repeat split; auto. }
  split; [exact Hspec|]. split; [|split; [|split]].
  - intros o e Hexec. destruct o as [st h body| |message|message]; simpl in Hexec.
    + destruct (ok st) eqn:Hok; [discriminate|]. injection Hexec as <-.
      unfold ok in Hok. unfold fromHttpResponse, Constants.TOO_MANY_REQUESTS,
        Constants.IM_A_TEAPOT.
      destruct (Z.eqb_spec st 429) as [->|H429].
      { simpl. split; [intros _; left; eauto 10 | reflexivity]. }
      destruct (Z.eqb_spec st 418) as [->|H418].
      { simpl. split; [intros _; left; eauto 10 | reflexivity]. }
      simpl. unfold isClientError, isServerError, isRateLimitError,
        Constants.BAD_REQUEST, Constants.INTERNAL_SERVER_ERROR,
        Constants.TOO_MANY_REQUESTS, Constants.IM_A_TEAPOT.
      destruct (Z.eqb_spec st 429); [lia|]. destruct (Z.eqb_spec st 418); [lia|].
      destruct (Z.leb_spec 400 st), (Z.ltb_spec st 500), (Z.leb_spec 500 st);
        simpl; try lia; split; try discriminate; try reflexivity.
      all: try (intros [(st' & h' & b' & [= -> _ _] & Hst)|[Hab|[m Hm]]];
                [lia | discriminate | discriminate]).
      all: intros _; left; exists st, h, body; split; [reflexivity | lia].
    + injection Hexec as <-. simpl. split; [intros _; right; now left | reflexivity].
    + injection Hexec as <-. simpl. split; [intros _; right; right; eauto | reflexivity].
    + injection Hexec as <-. simpl. split; [discriminate|].
      intros [(st & h & b & [=] & _)|[[=]|[m [=]]]].
  - intros attempt o e Hexec. unfold delay_after. rewrite Hexec.
    destruct e as [| | | |st h [| |n]| | |]; simpl; try reflexivity.
    destruct (n =? 0); reflexivity.
  - intros st h body Hmax Hnet Hst H429 H418.
    destruct (Hspec Hmax) as (_ & Hretry & Hslept & Hres & _).
    assert (Hexec : executeRequest (net 0) = inr (ApiResponseError st (Some h))).
    { rewrite Hnet. simpl. unfold ok.
      destruct (Z.leb_spec st 299); [lia|]. rewrite andb_false_r.
      unfold fromHttpResponse, Constants.TOO_MANY_REQUESTS, Constants.IM_A_TEAPOT.
      destruct (Z.eqb_spec st 429); [lia|]. destruct (Z.eqb_spec st 418); [lia|].
      reflexivity. }
    destruct (retries s) as [|n] eqn:Hn.
    + destruct s as [res sl]. cbn [result slept] in *.
      change (Z.of_nat 0) with 0 in Hres. rewrite Hres, Hexec, Hslept. reflexivity.
    + specialize (Hretry 0%nat ltac:(lia)). unfold retryable_failure in Hretry.
      change (Z.of_nat 0) with 0 in Hretry. rewrite Hexec in Hretry.
      cbn [isRetryableError] in Hretry.
      unfold isClientError, isServerError, isRateLimitError,
        Constants.BAD_REQUEST, Constants.INTERNAL_SERVER_ERROR,
        Constants.TOO_MANY_REQUESTS, Constants.IM_A_TEAPOT in Hretry.
      destruct (Z.eqb_spec st 429); [lia|]. destruct (Z.eqb_spec st 418); [lia|].
      destruct (Z.leb_spec 400 st), (Z.ltb_spec st 500); simpl in Hretry;
        try lia; discriminate.
  - intros h0 b0 h1 b1 st h body Hmax H0 H1 H2 Hok.
    destruct (Hspec ltac:(lia)) as (_ & Hretry & Hslept & Hres & Hlast).
    assert (E0 : executeRequest (net 0) = inr (ApiResponseError 503 (Some h0)))
      by now rewrite H0.
    assert (E1 : executeRequest (net 1) = inr (ApiResponseError 503 (Some h1)))
      by now rewrite H1.
    assert (E2 : executeRequest (net 2)
                 = inl {| status := st; hdrs := h; data := body |}).
    { rewrite H2. simpl. now rewrite Hok. }
    assert (Hn : retries s = 2%nat).
    { destruct (retries s) as [|[|[|n]]] eqn:Hn; [| |reflexivity|].
      - change (Z.of_nat 0) with 0 in Hres. rewrite E0 in Hres.
        destruct (Hlast _ Hres) as [Hl|Hl]; [simpl in Hl; lia | discriminate Hl].
      - change (Z.of_nat 1) with 1 in Hres. rewrite E1 in Hres.
        destruct (Hlast _ Hres) as [Hl|Hl]; [simpl in Hl; lia | discriminate Hl].
      - specialize (Hretry 2%nat ltac:(lia)). unfold retryable_failure in Hretry.
        change (Z.of_nat 2) with 2 in Hretry. rewrite E2 in Hretry. discriminate. }
    split; [exact Hn|]. rewrite Hn in *. destruct s as [res sl].
    cbn [result slept] in *. change (Z.of_nat 2) with 2 in Hres.
    rewrite Hres, E2, Hslept. cbn [seq map]. unfold delay_after.
    change (Z.of_nat 0) with 0. change (Z.of_nat 1) with 1.
    rewrite E0, E1. reflexivity.
Qed.

End Retry.

Lemma request_retry_policy_witness :
  2 <= Http.maxRetries Http.defaultRetryConfig
  /\ exists s,
       Http.request Http.defaultRetryConfig Http.net_503_503_200 = Some s
       /\ Http.retries s = 2%nat
       /\ Http.slept s = [Http.backoff Http.defaultRetryConfig 0;
                          Http.backoff Http.defaultRetryConfig 1].
Proof.
  assert (Hmax : 2 <= Http.maxRetries Http.defaultRetryConfig)
    by (vm_compute; congruence).
  split; [exact Hmax|].
  destruct (request_retry_policy Http.defaultRetryConfig Http.net_503_503_200)
    as (s & Hs & _ & _ & _ & _ & H503).
  exists s. split; [exact Hs|].
  destruct (H503 ∅ "" ∅ "" 200 ∅ "{}" Hmax eq_refl eq_refl eq_refl eq_refl)
    as [Hn ->].
  split; [exact Hn | reflexivity].
Defined.

(** C7.  On a 429 whose [Retry-After] header is [0] the header is read as
    the number 0, and yet the delay before the retry is not the header's value
    but the exponential backoff, 1000 ms at the first attempt: [getRetryDelay]
    tests [retryAfter] for truthiness, where its documentation keeps the
    default delay for the case that no header is present.  The rest of the
    policy is [request_retry_policy]. *)
Theorem retry_after_zero_not_honoured :
  Errors.getRetryAfter (Some {[ "retry-after" := "0" ]}) = Errors.Num 0
  /\ Http.request Http.defaultRetryConfig Http.net_429_200
     = Some {| Http.result :=
                 inl {| Http.status := 200; Http.hdrs := ∅; Http.data := "{}" |};
               Http.slept := [inject_Z 1000] |}.
Proof. split; vm_compute; reflexivity. Qed.

(** ** The stream connection: inbound frames *)

Section Frames.
Import JS Errors WebSocket.

(** Writing its own [pending] into a client gives the client back. *)
Lemma with_pending_same c : with_pending (pending c) c = c.
Proof. destruct c; reflexivity. Qed.

(** No pending request takes a frame that does not parse for its reply. *)
Lemma settle_unparsed f message :
  parse f = SyntaxError message ->
  forall waiting c, settle c waiting f = (c, waiting).
Proof.
  intros Hp. induction waiting as [|p rest IH]; intros c; cbn [settle];
    [reflexivity|].
  unfold reply_to. rewrite Hp, IH. reflexivity.
Qed.

(** A frame with a numeric [id] settles exactly the pending requests that
    await this id, in the order they were made: with the reply's [error]
    falsy their promises resolve and the code after each [await] runs, with
    it truthy they reject; the other requests go on waiting. *)
Lemma settle_numeric_id f message x :
  parse f = Parsed message ->
  get message "id" = inr (Some (JNumber x)) ->
  forall waiting c,
    settle c waiting f
    = (if truthy_json (get_opt (Some message) "error") then c
       else fold_left (fun c' p => resume c' (on_resolve p))
              (List.filter (fun p => is_id (Some (JNumber x)) (awaited p)) waiting) c,
       List.filter (fun p => negb (is_id (Some (JNumber x)) (awaited p))) waiting).
Proof.
  intros Hp Hid.
  destruct (truthy_json (get_opt (Some message) "error")) eqn:Herr;
    induction waiting as [|p rest IH]; intros c; cbn [settle List.filter];
    try reflexivity;
    unfold reply_to; rewrite Hp, Hid, Herr;
    destruct (is_id (Some (JNumber x)) (awaited p)); cbn [negb fold_left];
    rewrite IH; reflexivity.
Qed.

(** C8 (as the code has it).  For every client and inbound frame:
    an empty or blank frame calls no handler and raises no error; a frame
    that parses to a value with a numeric [id] is forwarded to no handler; a
    frame (without numeric [id]) whose event type, at top level or under
    [data], is ["trade"] goes to the trade handler and the [trade] event
    only; a frame whose event type matches no case of the switch (in
    particular one without event type) and whose top-level [u], [s], [b] and
    [a] are all truthy goes to the book-ticker handler; a frame that does not
    parse is reported to the error handler and emitted as an [error] event,
    after which [handleMessage] returns if the emitter has an ['error']
    listener and otherwise lets the error escape.  The fields of the client
    are not written by any of this: whenever [handleMessage] returns, what
    the frame changes is what the pending requests make of it.  So a frame
    that does not parse leaves the client exactly as it was, with or without
    ['error'] listener; and a frame with a numeric [id] is the reply to the
    pending requests awaiting that id and to nothing else: these leave the
    pending list, resolved (the code after their [await] runs, in the order
    of the requests) when the reply's [error] is falsy and rejected when it
    is not, the other requests stay, and no handler is called and no event
    emitted. *)
Theorem frame_routing (c : client) (f : frame) :
  (String.eqb (text f) "" || is_blank (text f) = true ->
     handleMessage c f = ([], Returned))
  /\ (forall message x,
        has_text f -> parse f = Parsed message ->
        get message "id" = inr (Some (JNumber x)) ->
        handleMessage c f = ([], Returned))
  /\ (forall message messageId e data,
        has_text f -> parse f = Parsed message ->
        get message "id" = inr messageId -> is_number messageId = false ->
        get message "e" = inr e -> get message "data" = inr data ->
        nullish e (get_opt data "e") = Some (JString "trade") ->
        handleMessage c f
        = (call_handler c "onTrade" (Data message)
             ++ [Emit "trade" (Data message)], Returned))
  /\ (forall message messageId e data,
        has_text f -> parse f = Parsed message ->
        get message "id" = inr messageId -> is_number messageId = false ->
        get message "e" = inr e -> get message "data" = inr data ->
        route (nullish e (get_opt data "e")) = None ->
        truthy_json (get_opt (Some message) "u") = true ->
        truthy_json (get_opt (Some message) "s") = true ->
        truthy_json (get_opt (Some message) "b") = true ->
        truthy_json (get_opt (Some message) "a") = true ->
        handleMessage c f
        = (call_handler c "onBookTicker" (Data message)
             ++ [Emit "bookTicker" (Data message)], Returned))
  /\ (forall message,
        has_text f -> parse f = SyntaxError message ->
        handleMessage c f
        = (call_handler c "onError" (Failure (fromNetworkError message))
             ++ [Emit "error" (Failure (fromNetworkError message))],
           if decide ("error" ∈ listeners c) then Returned
           else Thrown (fromNetworkError message)))
  /\ (forall effects, handleMessage c f = (effects, Returned) ->
        exists waiting, step c (OnMessage f) = (with_pending waiting
                          (fst (settle c (pending c) f)), effects))
  /\ (forall message,
        has_text f -> parse f = SyntaxError message ->
        step c (OnMessage f)
        = (c, (call_handler c "onError" (Failure (fromNetworkError message))
                 ++ [Emit "error" (Failure (fromNetworkError message))])
              ++ (if decide ("error" ∈ listeners c) then []
                  else [Uncaught (fromNetworkError message)])))
  /\ (forall message x,
        parse f = Parsed message ->
        get message "id" = inr (Some (JNumber x)) ->
        step c (OnMessage f)
        = (with_pending
             (List.filter (fun p => negb (is_id (Some (JNumber x)) (awaited p)))
                (pending c))
             (if truthy_json (get_opt (Some message) "error") then c
              else fold_left (fun c' p => resume c' (on_resolve p))
                     (List.filter (fun p => is_id (Some (JNumber x)) (awaited p))
                        (pending c)) c),
           [])).
Proof.
  unfold has_text. repeat split.
  - unfold handleMessage. intros ->. reflexivity.
  - unfold handleMessage. intros message x -> -> ->. reflexivity.
  - unfold handleMessage. intros message messageId e data -> -> -> -> He Hd Htag.
    destruct (truthy_json _ && truthy_json _);
      unfold handleStreamData; rewrite He, Hd, Htag; reflexivity.
  - unfold handleMessage.
    intros message messageId e data -> -> -> -> He Hd Hroute Hu Hs Hb Ha.
    destruct (truthy_json (get_opt (Some message) "stream") && _);
      unfold handleStreamData; rewrite He, Hd, Hroute, Hu, Hs, Hb, Ha;
      reflexivity.
  - unfold handleMessage. intros message -> ->. reflexivity.
  - intros effects H. simpl. unfold on_message. rewrite H.
    destruct (settle c (pending c) f) as [c' waiting]. now exists waiting.
  - intros message Ht Hp. cbn [step]. unfold on_message, handleMessage.
    rewrite Ht, Hp. unfold handleError.
    destruct (decide ("error" ∈ listeners c)).
    + rewrite (settle_unparsed f message Hp), with_pending_same, app_nil_r.
      reflexivity.
    + reflexivity.
  - intros message x Hp Hid. cbn [step]. unfold on_message.
    assert (Hm : handleMessage c f = ([], Returned)).
    { unfold handleMessage. destruct (_ || _); [reflexivity|]. now rewrite Hp, Hid. }
    rewrite Hm, (settle_numeric_id f message x Hp Hid). reflexivity.
Qed.
End Frames.

Lemma frame_routing_witness :
  WebSocket.has_text (WebSocket.frame_of WebSocket.trade_message)
  /\ WebSocket.handleMessage
       (WebSocket.new WebSocket.defaultConfig WebSocket.all_handlers)
       (WebSocket.frame_of WebSocket.trade_message)
     = ([WebSocket.Call "onTrade" (WebSocket.Data WebSocket.trade_message);
         WebSocket.Emit "trade" (WebSocket.Data WebSocket.trade_message)],
        WebSocket.Returned).
Proof.
  assert (Ht : WebSocket.has_text (WebSocket.frame_of WebSocket.trade_message))
    by (vm_compute; reflexivity).
  split; [exact Ht|].
  exact (proj1 (proj2 (proj2
    (frame_routing (WebSocket.new WebSocket.defaultConfig WebSocket.all_handlers)
       (WebSocket.frame_of WebSocket.trade_message))))
    _ None (Some (WebSocket.JString "trade")) None
    Ht eq_refl eq_refl eq_refl eq_refl eq_refl eq_refl).
Defined.

(** C8 (as the claim states it) fails.  On a client without ['error']
    listener a frame that does not parse is reported to [onError] and then
    thrown out of [handleMessage] by the emitter.  And a frame without event
    type that carries [u], [s], [b] and [a] is not given to the book-ticker
    handler when its update id is [0], nor when the fields come inside the
    [data] of a combined-stream frame (where the event type is looked up, but
    not these fields); both go to the catch-all [data] event instead. *)
Lemma frame_routing_exceptions :
  WebSocket.has_text (WebSocket.frame_of (WebSocket.book_ticker 0))
  /\ WebSocket.handleMessage
       (WebSocket.new WebSocket.defaultConfig WebSocket.all_handlers)
       WebSocket.malformed_frame
     = ([WebSocket.Call "onError"
           (WebSocket.Failure (Errors.NetworkError
              "Network request failed: Unexpected token i in JSON at position 0"));
         WebSocket.Emit "error"
           (WebSocket.Failure (Errors.NetworkError
              "Network request failed: Unexpected token i in JSON at position 0"))],
        WebSocket.Thrown (Errors.NetworkError
           "Network request failed: Unexpected token i in JSON at position 0"))
  /\ WebSocket.handleMessage
       (WebSocket.with_listeners {[ "error" ]}
          (WebSocket.new WebSocket.defaultConfig WebSocket.all_handlers))
       (WebSocket.frame_of (WebSocket.book_ticker 0))
     = ([WebSocket.Emit "data" (WebSocket.Data (WebSocket.book_ticker 0))],
        WebSocket.Returned)
  /\ WebSocket.handleMessage
       (WebSocket.with_listeners {[ "error" ]}
          (WebSocket.new WebSocket.defaultConfig WebSocket.all_handlers))
       (WebSocket.frame_of WebSocket.book_ticker_combined)
     = ([WebSocket.Emit "data" (WebSocket.Data WebSocket.book_ticker_combined)],
        WebSocket.Returned).
Proof. repeat split; vm_compute; reflexivity. Qed.

Example stringify_book_ticker :
  WebSocket.text (WebSocket.frame_of (WebSocket.book_ticker 0))
  = ("{" ++ WebSocket.quoted "u" ++ ":0," ++ WebSocket.quoted "s" ++ ":"
     ++ WebSocket.quoted "BTCUSDT" ++ "," ++ WebSocket.quoted "b" ++ ":"
     ++ WebSocket.quoted "1" ++ "," ++ WebSocket.quoted "B" ++ ":"
     ++ WebSocket.quoted "1" ++ "," ++ WebSocket.quoted "a" ++ ":"
     ++ WebSocket.quoted "2" ++ "," ++ WebSocket.quoted "A" ++ ":"
     ++ WebSocket.quoted "1" ++ "}")%string.
Proof. vm_compute. reflexivity. Qed.

Example book_ticker_routed :
  WebSocket.handleMessage
    (WebSocket.new WebSocket.defaultConfig WebSocket.all_handlers)
    (WebSocket.frame_of (WebSocket.book_ticker 1))
  = ([WebSocket.Call "onBookTicker" (WebSocket.Data (WebSocket.book_ticker 1));
      WebSocket.Emit "bookTicker" (WebSocket.Data (WebSocket.book_ticker 1))],
     WebSocket.Returned).
Proof. vm_compute. reflexivity. Qed.

(** ** The stream connection: subscribing *)

Section Subscriptions.
Import JS Constants Errors WebSocket.

Lemma state_eqb_eq a b : state_eqb a b = true <-> a = b.
Proof. destruct a, b; simpl; split; congruence. Qed.

Lemma isConnected_false c : state c <> OPEN -> isConnected c = false.
Proof.
  intros H. unfold isConnected. destruct (state_eqb (state c) OPEN) eqn:E; auto.
  apply state_eqb_eq in E. contradiction.
Qed.

Lemma isConnected_true c : state c = OPEN -> isConnected c = true.
Proof. intros H. unfold isConnected. now rewrite H. Qed.

Lemma to_double_succ x : 0 <= x < two53 -> to_double (x + 1) = x + 1.
Proof.
  intros H. unfold to_double. rewrite Z.abs_eq by lia.
  destruct (Z.leb_spec (x + 1) two53); [reflexivity | lia].
Qed.

(** [Set.prototype.add] over a list of elements. *)
Lemma Set_has_In x l : Set_has x l = true <-> In x l.
Proof.
  unfold Set_has. rewrite existsb_exists. split.
  - intros (y & Hy & E). apply String.eqb_eq in E. now subst.
  - intros H. exists x. split; [assumption | apply String.eqb_refl].
Qed.

Lemma Set_add_In s x y : In y (Set_add s x) <-> In y s \/ y = x.
Proof.
  unfold Set_add. destruct (Set_has x s) eqn:E.
  - apply Set_has_In in E. split; [auto | intros [H| ->]; auto].
  - rewrite in_app_iff. simpl. intuition.
Qed.

Lemma Set_add_all_In streams : forall s y,
  In y (fold_left Set_add streams s) <-> In y s \/ In y streams.
Proof.
  induction streams as [|x l IH]; intros s y; simpl; [tauto|].
  rewrite IH, Set_add_In. intuition.
Qed.

Lemma Set_add_all_present streams : forall s,
  (forall x, In x streams -> In x s) -> fold_left Set_add streams s = s.
Proof.
  induction streams as [|x l IH]; intros s H; simpl; [reflexivity|].
  unfold Set_add at 2. rewrite (proj2 (Set_has_In x s)) by (apply H; now left).
  apply IH. intros y Hy. apply H. now right.
Qed.

Lemma Set_add_length s x : (length (Set_add s x) <= S (length s))%nat.
Proof.
  unfold Set_add. destruct (Set_has x s); [lia|]. rewrite length_app. simpl. lia.
Qed.

Lemma Set_add_all_length streams : forall s,
  (length (fold_left Set_add streams s) <= length s + length streams)%nat.
Proof.
  induction streams as [|x l IH]; intros s; simpl; [lia|].
  specialize (IH (Set_add s x)). pose proof (Set_add_length s x). lia.
Qed.

Lemma Set_delete_In s x y : In y (Set_delete s x) <-> In y s /\ y <> x.
Proof.
  unfold Set_delete. rewrite filter_In, negb_true_iff, String.eqb_neq.
  intuition congruence.
Qed.

Lemma Set_delete_all_In streams : forall s y,
  In y (fold_left Set_delete streams s) <-> In y s /\ ~ In y streams.
Proof.
  induction streams as [|x l IH]; intros s y; simpl; [tauto|].
  rewrite IH, Set_delete_In. intuition.
Qed.

(** *** Request ids along a run *)

Lemma sent_app e1 e2 : sent (e1 ++ e2) = sent e1 ++ sent e2.
Proof. unfold sent. apply omap_app. Qed.

Lemma sent_call_handler c h a : sent (call_handler c h a) = [].
Proof. unfold call_handler. now destruct (decide _). Qed.

Lemma sent_handleError c m : sent (fst (handleError c m)) = [].
Proof. unfold handleError. simpl. now rewrite sent_app, sent_call_handler. Qed.

Lemma sent_dispatch c h e d : sent (dispatch c h e d) = [].
Proof. unfold dispatch. now rewrite sent_app, sent_call_handler. Qed.

Lemma sent_handleStreamData c d : sent (fst (handleStreamData c d)) = [].
Proof.
  unfold handleStreamData.
  destruct (get d "e") as [?|e]; [reflexivity|].
  destruct (get d "data") as [?|x]; [reflexivity|].
  destruct (route _) as [[h ev]|]; simpl; [apply sent_dispatch|].
  destruct (_ && _); simpl; [apply sent_dispatch | reflexivity].
Qed.

Lemma sent_handleMessage c f : sent (fst (handleMessage c f)) = [].
Proof.
  unfold handleMessage. destruct (_ || _); [reflexivity|].
  destruct (parse f) as [message|m]; [|apply sent_handleError].
  destruct (get message "id") as [?|i]; [apply sent_handleError|].
  destruct (is_number i); [reflexivity|].
  assert (H : forall r : list effect * outcome, sent (fst r) = [] ->
    sent (fst (let '(effects, out) := r in
               match out with
               | Returned => (effects, Returned)
               | Thrown e => let '(effects', out') := handleError c (error_message e) in
                             (effects ++ effects', out')
               end)) = []).
  { intros [effects [|e]] Hr; cbn [fst] in *; [assumption|].
    pose proof (sent_handleError c (error_message e)) as He.
    destruct (handleError c (error_message e)) as [effects' out'].
    cbn [fst] in *. now rewrite sent_app, Hr, He. }
  destruct (_ && _); apply H, sent_handleStreamData.
Qed.

Lemma to_double_succ_bound x :
  0 <= x <= two53 -> x <= to_double (x + 1) <= two53.
Proof.
  intros H. destruct (Z.eq_dec x two53) as [->|Hne].
  - vm_compute. split; discriminate.
  - rewrite to_double_succ by lia. lia.
Qed.

Lemma ids_increase_refl c c' effects :
  0 <= requestId c <= two53 -> requestId c' = requestId c -> sent effects = [] ->
  ids_increase c c' effects.
Proof.
  intros Hb Hc Hs. unfold ids_increase. rewrite Hc, Hs. split; [lia|].
  intros _. split; constructor.
Qed.

Lemma Sorted_lt_app l1 l2 (m : Z) :
  Sorted Z.lt l1 -> Sorted Z.lt l2 ->
  Forall (fun a => a < m) l1 -> Forall (fun b => m <= b) l2 ->
  Sorted Z.lt (l1 ++ l2).
Proof.
  intros H1 H2 Hl1 Hl2. induction H1 as [|a l1 Hs IH Hhd]; simpl; [assumption|].
  inversion Hl1 as [|? ? Ha Hl1']; subst. constructor; [now apply IH|].
  destruct Hhd as [|b l1' Hab]; simpl; [|now constructor].
  destruct Hl2 as [|b l2' Hb _]; constructor. lia.
Qed.

Lemma ids_increase_trans c c1 c2 e1 e2 :
  ids_increase c c1 e1 -> ids_increase c1 c2 e2 -> ids_increase c c2 (e1 ++ e2).
Proof.
  intros [Hb1 H1] [Hb2 H2]. split; [lia|]. intros Hlt.
  destruct (H2 Hlt) as [Hs2 Hr2]. destruct (H1 ltac:(lia)) as [Hs1 Hr1].
  rewrite sent_app, map_app. split.
  - apply (Sorted_lt_app _ _ (requestId c1)); auto.
    + apply Forall_map. eapply List.Forall_impl; [|exact Hr1]. simpl. intros; lia.
    + apply Forall_map. eapply List.Forall_impl; [|exact Hr2]. simpl. intros; lia.
  - apply Forall_app. split.
    + eapply List.Forall_impl; [|exact Hr1]. simpl. intros; lia.
    + eapply List.Forall_impl; [|exact Hr2]. simpl. intros; lia.
Qed.

Lemma sendRequest_ids c m ps k :
  0 <= requestId c <= two53 ->
  ids_increase c (fst (fst (sendRequest c m ps k))) (snd (fst (sendRequest c m ps k))).
Proof.
  intros Hb. unfold sendRequest. destruct (isConnected c); simpl.
  - pose proof (to_double_succ_bound _ Hb) as Hd.
    destruct (ws c); simpl; (split; [simpl; lia|]); simpl; intros Hlt.
    + assert (Hs : requestId c < to_double (requestId c + 1)).
      { destruct (Z.eq_dec (requestId c) two53) as [E|E].
        - rewrite E in Hlt. vm_compute in Hlt. discriminate Hlt.
        - rewrite to_double_succ by lia. lia. }
      split; [repeat constructor|]. constructor; [simpl; lia | constructor].
    + split; constructor.
  - apply ids_increase_refl; auto.
Qed.

Lemma subscribe_ids c streams :
  0 <= requestId c <= two53 ->
  ids_increase c (fst (fst (subscribe c streams))) (snd (fst (subscribe c streams))).
Proof.
  intros Hb. unfold subscribe. destruct (_ <? _); [|now apply sendRequest_ids].
  now apply ids_increase_refl.
Qed.

Lemma replay_ids c :
  0 <= requestId c <= two53 ->
  ids_increase c (fst (replay c)) (snd (replay c)).
Proof.
  intros Hb. unfold replay. destruct (0 <? _); [|now apply ids_increase_refl].
  pose proof (subscribe_ids c (Array_from (subscriptions c)) Hb) as H.
  destruct (subscribe c (Array_from (subscriptions c))) as [[c' effects] r].
  exact H.
Qed.

Lemma resolve_opening_ids waiters : forall c,
  0 <= requestId c <= two53 ->
  ids_increase c (fst (resolve_opening c waiters)) (snd (resolve_opening c waiters)).
Proof.
  induction waiters as [|[|] rest IH]; intros c Hb; simpl.
  - now apply ids_increase_refl.
  - now apply IH.
  - pose proof (replay_ids c Hb) as H1.
    destruct (replay c) as [c' effects]. simpl in H1.
    assert (Hb' : 0 <= requestId c' <= two53) by (destruct H1; lia).
    pose proof (IH c' Hb') as H2.
    destruct (resolve_opening c' rest) as [c'' effects']. simpl in *.
    eapply ids_increase_trans; eassumption.
Qed.

Lemma settle_requestId waiting : forall c f,
  requestId (fst (settle c waiting f)) = requestId c.
Proof.
  induction waiting as [|p rest IH]; intros c f; simpl; [reflexivity|].
  destruct (reply_to p f) as [[|]|].
  - rewrite IH. now destruct (on_resolve p).
  - apply IH.
  - specialize (IH c f). destruct (settle c rest f). exact IH.
Qed.

Lemma step_ids c ev :
  0 <= requestId c <= two53 ->
  ids_increase c (fst (step c ev)) (snd (step c ev)).
Proof.
  intros Hb. destruct ev as [| |streams|streams| |f|code reason|message| | | | |i];
    simpl.
  - unfold connect. destruct (_ || _); simpl; now apply ids_increase_refl.
  - unfold disconnect. destruct (_ && _); simpl; now apply ids_increase_refl.
  - pose proof (subscribe_ids c streams Hb) as H.
    destruct (subscribe c streams) as [[c' effects] r]. exact H.
  - pose proof (sendRequest_ids c UNSUBSCRIBE (Some streams)
                  (DeleteStreams streams) Hb) as H.
    unfold unsubscribe.
    destruct (sendRequest c UNSUBSCRIBE _ _) as [[c' effects] r]. exact H.
  - unfold on_open.
    set (c0 := with_opening [] _).
    pose proof (resolve_opening_ids (opening
      (with_timers Armed (pongTimeoutTimer (with_reconnectAttempts 0 (with_state OPEN c)))
         (reconnectTimeout (with_reconnectAttempts 0 (with_state OPEN c)))
         (with_reconnectAttempts 0 (with_state OPEN c)))) c0 Hb) as H.
    destruct (resolve_opening c0 _) as [c' effects']. simpl in *.
    destruct H as [Hr H]. split; [exact Hr|]. intros Hlt.
    rewrite !sent_app, sent_call_handler. simpl. now apply H.
  - unfold on_message. pose proof (sent_handleMessage c f) as Hs.
    destruct (handleMessage c f) as [effects [|e]]; simpl in *.
    + pose proof (settle_requestId (pending c) c f) as Hr.
      destruct (settle c (pending c) f) as [c' waiting]. simpl in *.
      now apply ids_increase_refl.
    + apply ids_increase_refl; auto. now rewrite sent_app, Hs.
  - unfold handleClose. destruct (_ && _); simpl;
      (apply ids_increase_refl; auto; now rewrite sent_app, sent_call_handler).
  - unfold on_error. pose proof (sent_handleError c message) as Hs.
    destruct (handleError c message) as [effects [|e]]; simpl in *.
    + destruct (state_eqb _ _); simpl; now apply ids_increase_refl.
    + apply ids_increase_refl; auto. now rewrite sent_app, Hs.
  - now apply ids_increase_refl.
  - unfold on_reconnect_timer. destruct (reconnectTimeout c);
      try (simpl; now apply ids_increase_refl).
    unfold connect. destruct (_ || _); simpl.
    + apply (replay_ids (with_timers _ _ Fired c)). exact Hb.
    + now apply ids_increase_refl.
  - unfold on_ping_timer. destruct (pingIntervalTimer c);
      try (simpl; now apply ids_increase_refl).
    destruct (isConnected c); simpl; [|now apply ids_increase_refl].
    apply ids_increase_refl; auto. now destruct (ws c).
  - unfold on_pong_timer. destruct (pongTimeoutTimer c);
      try (simpl; now apply ids_increase_refl).
    simpl. apply ids_increase_refl; auto. now destruct (ws c).
  - unfold on_request_timer. simpl. now apply ids_increase_refl.
Qed.

Lemma run_ids events : forall c,
  0 <= requestId c <= two53 ->
  ids_increase c (fst (run c events)) (snd (run c events)).
Proof.
  induction events as [|ev rest IH]; intros c Hb; simpl.
  - now apply ids_increase_refl.
  - pose proof (step_ids c ev Hb) as H1.
    destruct (step c ev) as [c' effects]. simpl in H1.
    assert (Hb' : 0 <= requestId c' <= two53) by (destruct H1; lia).
    pose proof (IH c' Hb') as H2.
    destruct (run c' rest) as [c'' effects']. simpl in *.
    eapply ids_increase_trans; eassumption.
Qed.

(** C9 (as the code has it).  [unsubscribe] on a connection that is not
    [OPEN] is rejected with "WebSocket is not connected"; so is [subscribe],
    unless the request also exceeds the ceiling, which is checked first and
    then gives the ceiling error; either way nothing is sent and no field
    changes.  A [subscribe] that would push the subscription count above 1024
    is rejected with a [WebSocketError] before anything is sent.  On an [OPEN]
    connection each request sent takes the current [requestId] as its id and
    increments it; the subscription set is not touched before the reply;
    and along any sequence of calls and events the ids of the requests sent
    are strictly increasing, as long as the counter stays below [2^53]. *)
Theorem subscribe_unsubscribe_guards (c : client) (streams : list string) :
  (state c <> OPEN ->
     unsubscribe c streams = (c, [], inl not_connected)
     /\ (Set_size (subscriptions c) + Z.of_nat (length streams) <= MAX_SUBSCRIPTIONS ->
           subscribe c streams = (c, [], inl not_connected))
     /\ (MAX_SUBSCRIPTIONS < Set_size (subscriptions c) + Z.of_nat (length streams) ->
           subscribe c streams = (c, [], inl too_many)))
  /\ (MAX_SUBSCRIPTIONS < Set_size (fold_left Set_add streams (subscriptions c)) ->
        subscribe c streams = (c, [], inl too_many))
  /\ (state c = OPEN -> ws c = true -> 0 <= requestId c < two53 ->
        (exists c',
            unsubscribe c streams
            = (c', [Send {| method := UNSUBSCRIBE; params := Some streams;
                            id := requestId c |}], inr (requestId c))
            /\ requestId c' = requestId c + 1
            /\ subscriptions c' = subscriptions c /\ state c' = OPEN)
        /\ (Set_size (subscriptions c) + Z.of_nat (length streams) <= MAX_SUBSCRIPTIONS ->
            exists c',
              subscribe c streams
              = (c', [Send {| method := SUBSCRIBE; params := Some streams;
                              id := requestId c |}], inr (requestId c))
              /\ requestId c' = requestId c + 1
              /\ subscriptions c' = subscriptions c /\ state c' = OPEN))
  /\ (forall events,
        0 <= requestId c <= two53 ->
        requestId (fst (run c events)) < two53 ->
        requestId c <= requestId (fst (run c events))
        /\ Sorted Z.lt (map id (sent (snd (run c events))))
        /\ Forall (fun r => requestId c <= id r < requestId (fst (run c events)))
                  (sent (snd (run c events)))).
Proof.
  split; [|split; [|split]]; cycle 3.
  { intros events Hb Hlt. destruct (run_ids events c Hb) as [Hr Hs].
    destruct (Hs Hlt). repeat split; auto; lia. }
  - intros Hst. unfold subscribe, unsubscribe, sendRequest.
    rewrite (isConnected_false c Hst). simpl. split; [reflexivity|]. split.
    + intros Hle. destruct (Z.ltb_spec MAX_SUBSCRIPTIONS
        (Set_size (subscriptions c) + Z.of_nat (length streams))); [lia | reflexivity].
    + intros Hlt. destruct (Z.ltb_spec MAX_SUBSCRIPTIONS
        (Set_size (subscriptions c) + Z.of_nat (length streams))); [reflexivity | lia].
  - intros Hmax. unfold subscribe.
    pose proof (Set_add_all_length streams (subscriptions c)) as Hlen.
    unfold Set_size in *.
    destruct (Z.ltb_spec MAX_SUBSCRIPTIONS
      (Z.of_nat (length (subscriptions c)) + Z.of_nat (length streams)));
      [reflexivity | lia].
  - intros Hst Hws Hid. unfold subscribe, unsubscribe, sendRequest.
    rewrite (isConnected_true c Hst). simpl. rewrite Hws, to_double_succ by lia.
    split.
    + eexists. split; [reflexivity|]. simpl. auto.
    + intros Hle. destruct (Z.ltb_spec MAX_SUBSCRIPTIONS
        (Set_size (subscriptions c) + Z.of_nat (length streams))); [lia|].
      eexists. split; [reflexivity|]. simpl. auto.
Qed.

End Subscriptions.

(** ** The stream connection: reconnecting and disconnecting *)

Section Reconnect.
Import JS Constants Errors WebSocket.

Lemma distinct_NoDup l : distinct l = true -> List.NoDup l.
Proof.
  induction l as [|x l IH]; simpl; [constructor|].
  intros H. apply andb_true_iff in H as [Hx Hl]. constructor; [|auto].
  intros Hin. apply Set_has_In in Hin. rewrite Hin in Hx. discriminate.
Qed.

Example connected_with_two :
  state (connected_with ["a@ticker"; "b@trade"]) = OPEN
  /\ subscriptions (connected_with ["a@ticker"; "b@trade"]) = ["a@ticker"; "b@trade"]
  /\ requestId (connected_with ["a@ticker"; "b@trade"]) = 2
  /\ pending (connected_with ["a@ticker"; "b@trade"]) = []
  /\ reconnect (config (connected_with ["a@ticker"; "b@trade"])) = true.
Proof. vm_compute. repeat split. Qed.

Example replay_two :
  sent (snd (run (connected_with ["a@ticker"; "b@trade"]) close_and_reconnect))
  = [{| method := SUBSCRIBE; params := Some ["a@ticker"; "b@trade"]; id := 2 |}].
Proof. vm_compute. reflexivity. Qed.

Lemma sent_cons e l :
  sent (e :: l) = match e with Send r => [r] | _ => [] end ++ sent l.
Proof. destruct e; reflexivity. Qed.

Lemma sent_nil : sent [] = [].
Proof. reflexivity. Qed.

(** *** The methods on a close, on the reconnect timer and on open *)

Lemma handleClose_scheduled c code reason :
  reconnect (config c) = true ->
  reconnectAttempts c < maxReconnectAttempts (config c) ->
  handleClose c code reason
  = (scheduleReconnect (clearTimers (with_state CLOSED c)),
     call_handler (clearTimers (with_state CLOSED c)) "onClose" (Closing code reason)
       ++ [Emit "close" (Closing code reason)]).
Proof.
  intros Hr Ha. unfold handleClose.
  change (reconnect (config (clearTimers (with_state CLOSED c))))
    with (reconnect (config c)).
  change (reconnectAttempts (clearTimers (with_state CLOSED c)))
    with (reconnectAttempts c).
  change (maxReconnectAttempts (config (clearTimers (with_state CLOSED c))))
    with (maxReconnectAttempts (config c)).
  rewrite Hr, (proj2 (Z.ltb_lt _ _) Ha). reflexivity.
Qed.

Lemma handleClose_final c code reason :
  reconnect (config c) = false
  \/ maxReconnectAttempts (config c) <= reconnectAttempts c ->
  handleClose c code reason
  = (clearTimers (with_state CLOSED c),
     call_handler (clearTimers (with_state CLOSED c)) "onClose" (Closing code reason)
       ++ [Emit "close" (Closing code reason)]).
Proof.
  intros H. unfold handleClose.
  change (reconnect (config (clearTimers (with_state CLOSED c))))
    with (reconnect (config c)).
  change (reconnectAttempts (clearTimers (with_state CLOSED c)))
    with (reconnectAttempts c).
  change (maxReconnectAttempts (config (clearTimers (with_state CLOSED c))))
    with (maxReconnectAttempts (config c)).
  destruct H as [-> | H]; [reflexivity|].
  rewrite (proj2 (Z.ltb_ge _ _) H), andb_false_r. reflexivity.
Qed.

Lemma on_reconnect_timer_connects c :
  reconnectTimeout c = Armed -> state c = CLOSED ->
  on_reconnect_timer c
  = (with_opening [Replay] (with_pending [] (with_ws true (with_state CONNECTING
       (with_timers (pingIntervalTimer c) (pongTimeoutTimer c) Fired c)))),
     [NewSocket]).
Proof.
  intros Ht Hs. unfold on_reconnect_timer, connect. rewrite Ht.
  change (state (with_timers (pingIntervalTimer c) (pongTimeoutTimer c) Fired c))
    with (state c).
  rewrite Hs. reflexivity.
Qed.

Lemma replay_eq c :
  state c = OPEN -> ws c = true ->
  replay c
  = if (0 <? Set_size (subscriptions c))
       && negb (MAX_SUBSCRIPTIONS
                <? Set_size (subscriptions c) + Z.of_nat (length (subscriptions c)))
    then (with_pending
            (pending c ++ [{| awaited := requestId c;
                              on_resolve := AddStreams (subscriptions c) |}])
            (with_requestId (to_double (requestId c + 1)) c),
          [Send {| method := SUBSCRIBE; params := Some (subscriptions c);
                   id := requestId c |}])
    else (c, []).
Proof.
  intros Hs Hw. unfold replay, subscribe, sendRequest, Array_from, isConnected.
  rewrite Hs.
  change (ws (with_requestId (to_double (requestId c + 1)) c)) with (ws c).
  rewrite Hw.
  destruct (0 <? Set_size (subscriptions c)); [|reflexivity].
  destruct (MAX_SUBSCRIPTIONS <? _); reflexivity.
Qed.

Lemma on_open_replay c :
  opening c = [Replay] -> ws c = true ->
  on_open c
  = (fst (replay (with_opening [] (with_timers Armed (pongTimeoutTimer c)
            (reconnectTimeout c) (with_reconnectAttempts 0 (with_state OPEN c))))),
     (call_handler c "onOpen" NoArgs ++ [Emit "open" NoArgs])
       ++ snd (replay (with_opening [] (with_timers Armed (pongTimeoutTimer c)
            (reconnectTimeout c) (with_reconnectAttempts 0 (with_state OPEN c)))))
       ++ []).
Proof.
  intros Ho Hw. unfold on_open.
  change (opening (with_timers Armed _ _ (with_reconnectAttempts 0 (with_state OPEN c))))
    with (opening c).
  rewrite Ho. cbn [resolve_opening].
  change (pongTimeoutTimer (with_reconnectAttempts 0 (with_state OPEN c)))
    with (pongTimeoutTimer c).
  change (reconnectTimeout (with_reconnectAttempts 0 (with_state OPEN c)))
    with (reconnectTimeout c).
  destruct (replay _) as [c' effects]. reflexivity.
Qed.

(** A close with reconnection enabled and attempts left, the reconnect
    timer, and the opening of the new socket: the connection is [OPEN] again
    with its subscription set, and the set is sent in one [SUBSCRIBE] request
    exactly when it is not empty and passes the ceiling check of [subscribe]. *)
Lemma reconnect_run c code reason :
  reconnect (config c) = true ->
  reconnectAttempts c < maxReconnectAttempts (config c) ->
  state (fst (run c [OnClose code reason; ReconnectTimer; OnOpen])) = OPEN
  /\ subscriptions (fst (run c [OnClose code reason; ReconnectTimer; OnOpen]))
     = subscriptions c
  /\ reconnectAttempts (fst (run c [OnClose code reason; ReconnectTimer; OnOpen])) = 0
  /\ sent (snd (run c [OnClose code reason; ReconnectTimer; OnOpen]))
     = if (0 <? Set_size (subscriptions c))
          && negb (MAX_SUBSCRIPTIONS
                   <? Set_size (subscriptions c) + Z.of_nat (length (subscriptions c)))
       then [{| method := SUBSCRIBE; params := Some (subscriptions c);
                id := requestId c |}]
       else [].
Proof.
  intros Hr Ha. cbv beta iota zeta delta [run step].
  rewrite (handleClose_scheduled c code reason Hr Ha).
  rewrite on_reconnect_timer_connects by reflexivity.
  rewrite on_open_replay by reflexivity.
  rewrite replay_eq by reflexivity.
  cbn [subscriptions with_opening with_timers with_reconnectAttempts with_state
       with_pending with_ws scheduleReconnect clearTimers requestId].
  destruct ((0 <? Set_size (subscriptions c)) && _); cbn [fst snd];
    rewrite ?sent_app, ?sent_call_handler, ?sent_cons, ?sent_nil;
    cbn [app]; auto.
Qed.

(** The replay of a set of at most 512 streams goes on the wire as it is. *)
Lemma reconnect_replays_subscriptions c code reason :
  reconnect (config c) = true ->
  reconnectAttempts c < maxReconnectAttempts (config c) ->
  0 < Set_size (subscriptions c) <= 512 ->
  sent (snd (run c [OnClose code reason; ReconnectTimer; OnOpen]))
  = [{| method := SUBSCRIBE; params := Some (subscriptions c); id := requestId c |}]
  /\ state (fst (run c [OnClose code reason; ReconnectTimer; OnOpen])) = OPEN.
Proof.
  intros Hr Ha Hs. destruct (reconnect_run c code reason Hr Ha) as (H1 & _ & _ & H4).
  split; [|exact H1]. rewrite H4. unfold Set_size, MAX_SUBSCRIPTIONS in *.
  destruct (Z.ltb_spec 0 (Z.of_nat (length (subscriptions c)))); [|lia].
  destruct (Z.ltb_spec 1024 (Z.of_nat (length (subscriptions c))
                             + Z.of_nat (length (subscriptions c)))); [lia|].
  reflexivity.
Qed.

(** Once the attempts are used up (or reconnection is off) a close leaves
    the connection [CLOSED] with no reconnect timer, and no socket is made. *)
Lemma reconnect_gives_up c code reason :
  reconnect (config c) = false
  \/ maxReconnectAttempts (config c) <= reconnectAttempts c ->
  state (fst (run c [OnClose code reason; ReconnectTimer])) = CLOSED
  /\ reconnectTimeout (fst (step c (OnClose code reason))) = Unset
  /\ reconnectAttempts (fst (run c [OnClose code reason; ReconnectTimer]))
     = reconnectAttempts c
  /\ snd (run c [OnClose code reason; ReconnectTimer])
     = call_handler c "onClose" (Closing code reason)
         ++ [Emit "close" (Closing code reason)].
Proof.
  intros H. cbv beta iota zeta delta [run step].
  rewrite (handleClose_final c code reason H).
  unfold on_reconnect_timer. cbn [reconnectTimeout clearTimers with_timers].
  cbn [fst snd state clearTimers with_timers with_state reconnectAttempts].
  rewrite !app_nil_r. auto.
Qed.

(** C10.  The ceiling check of [subscribe] adds the size of the set and the
    number of requested streams without looking for streams that are in the
    set already: the call is rejected locally exactly when that sum exceeds
    1024; so subscribing again to [N] distinct streams of the set is rejected
    as soon as [2 * N > 1024], although the call would leave the set as it
    is; and the replay after a reconnect, which subscribes to the whole set,
    is rejected locally, with nothing sent, for every set of more than 512
    streams. *)
Theorem subscribe_ceiling_counts_duplicates (c : client) (streams : list string) :
  (MAX_SUBSCRIPTIONS < Set_size (subscriptions c) + Z.of_nat (length streams)
   <-> subscribe c streams = (c, [], inl too_many))
  /\ (List.NoDup streams ->
      (forall x, In x streams -> In x (subscriptions c)) ->
      MAX_SUBSCRIPTIONS < 2 * Z.of_nat (length streams) ->
      subscribe c streams = (c, [], inl too_many)
      /\ fold_left Set_add streams (subscriptions c) = subscriptions c)
  /\ (forall code reason,
      reconnect (config c) = true ->
      reconnectAttempts c < maxReconnectAttempts (config c) ->
      512 < Set_size (subscriptions c) ->
      sent (snd (run c [OnClose code reason; ReconnectTimer; OnOpen])) = []
      /\ state (fst (run c [OnClose code reason; ReconnectTimer; OnOpen])) = OPEN
      /\ subscriptions (fst (run c [OnClose code reason; ReconnectTimer; OnOpen]))
         = subscriptions c).
Proof.
  assert (Hiff : MAX_SUBSCRIPTIONS < Set_size (subscriptions c) + Z.of_nat (length streams)
                 <-> subscribe c streams = (c, [], inl too_many)).
  { unfold subscribe.
    destruct (Z.ltb_spec MAX_SUBSCRIPTIONS
      (Set_size (subscriptions c) + Z.of_nat (length streams))) as [Hlt|Hge].
    - tauto.
    - split; [lia|]. unfold sendRequest.
      destruct (negb (isConnected c)); [discriminate|].
      destruct (ws _); discriminate. }
  split; [exact Hiff|]. split.
  - intros Hnd Hin Hlen. split.
    + apply Hiff. unfold Set_size.
      assert (length streams <= length (subscriptions c))%nat
        by (apply NoDup_incl_length; assumption).
      lia.
    + now apply Set_add_all_present.
  - intros code reason Hr Ha Hs.
    destruct (reconnect_run c code reason Hr Ha) as (H1 & H2 & _ & H4).
    repeat split; auto. rewrite H4. unfold Set_size, MAX_SUBSCRIPTIONS in *.
    destruct (Z.ltb_spec 1024 (Z.of_nat (length (subscriptions c))
                               + Z.of_nat (length (subscriptions c)))); [|lia].
    now rewrite andb_false_r.
Qed.

End Reconnect.

Lemma subscribe_ceiling_counts_duplicates_witness :
  List.NoDup (WebSocket.stream_names 513)
  /\ Constants.MAX_SUBSCRIPTIONS < 2 * Z.of_nat (length (WebSocket.stream_names 513))
  /\ WebSocket.subscribe (WebSocket.connected_with (WebSocket.stream_names 513))
       (WebSocket.stream_names 513)
     = (WebSocket.connected_with (WebSocket.stream_names 513), [],
        inl WebSocket.too_many).
Proof.
  assert (Hnd : List.NoDup (WebSocket.stream_names 513))
    by (apply distinct_NoDup; vm_compute; reflexivity).
  assert (Hlen : Constants.MAX_SUBSCRIPTIONS
                 < 2 * Z.of_nat (length (WebSocket.stream_names 513)))
    by (vm_compute; reflexivity).
  assert (Hsub : WebSocket.subscriptions
                   (WebSocket.connected_with (WebSocket.stream_names 513))
                 = WebSocket.stream_names 513)
    by (vm_compute; reflexivity).
  split; [exact Hnd|]. split; [exact Hlen|].
  refine (proj1 (proj1 (proj2 (subscribe_ceiling_counts_duplicates
            (WebSocket.connected_with (WebSocket.stream_names 513))
            (WebSocket.stream_names 513))) Hnd _ Hlen)).
  intros x Hx. rewrite Hsub. exact Hx.
Defined.

(** C3 fails on the code for a connection that holds more than 512
    subscriptions: after an abnormal close, the reconnect timer and the
    opening of the new socket, the client is [OPEN] and still holds its 513
    streams, but the replay was rejected by the ceiling check of [subscribe]
    and no request went on the wire. *)
Theorem reconnect_replay_dropped_over_512 :
  WebSocket.state (WebSocket.connected_with (WebSocket.stream_names 513))
    = WebSocket.OPEN
  /\ WebSocket.Set_size
       (WebSocket.subscriptions
          (WebSocket.connected_with (WebSocket.stream_names 513))) = 513
  /\ WebSocket.sent
       (snd (WebSocket.run (WebSocket.connected_with (WebSocket.stream_names 513))
               WebSocket.close_and_reconnect)) = []
  /\ WebSocket.state
       (fst (WebSocket.run (WebSocket.connected_with (WebSocket.stream_names 513))
               WebSocket.close_and_reconnect)) = WebSocket.OPEN
  /\ WebSocket.subscriptions
       (fst (WebSocket.run (WebSocket.connected_with (WebSocket.stream_names 513))
               WebSocket.close_and_reconnect))
     = WebSocket.stream_names 513.
Proof. repeat split; vm_compute; reflexivity. Qed.

Lemma subscribe_unsubscribe_guards_witness :
  WebSocket.state (WebSocket.connected_with ["a@ticker"; "b@trade"]) = WebSocket.OPEN
  /\ WebSocket.ws (WebSocket.connected_with ["a@ticker"; "b@trade"]) = true
  /\ 0 <= WebSocket.requestId (WebSocket.connected_with ["a@ticker"; "b@trade"])
     < JS.two53
  /\ exists c',
       WebSocket.unsubscribe (WebSocket.connected_with ["a@ticker"; "b@trade"])
         ["a@ticker"]
       = (c', [WebSocket.Send
                 {| WebSocket.method := WebSocket.UNSUBSCRIBE;
                    WebSocket.params := Some ["a@ticker"];
                    WebSocket.id :=
                      WebSocket.requestId
                        (WebSocket.connected_with ["a@ticker"; "b@trade"]) |}],
          inr (WebSocket.requestId (WebSocket.connected_with ["a@ticker"; "b@trade"])))
       /\ WebSocket.requestId c'
          = WebSocket.requestId (WebSocket.connected_with ["a@ticker"; "b@trade"]) + 1
       /\ WebSocket.subscriptions c'
          = WebSocket.subscriptions (WebSocket.connected_with ["a@ticker"; "b@trade"])
       /\ WebSocket.state c' = WebSocket.OPEN.
Proof.
  assert (Hs : WebSocket.state (WebSocket.connected_with ["a@ticker"; "b@trade"])
               = WebSocket.OPEN) by (vm_compute; reflexivity).
  assert (Hw : WebSocket.ws (WebSocket.connected_with ["a@ticker"; "b@trade"]) = true)
    by (vm_compute; reflexivity).
  assert (Hi : 0 <= WebSocket.requestId (WebSocket.connected_with ["a@ticker"; "b@trade"])
               < JS.two53) by (vm_compute; split; congruence).
  split; [exact Hs|]. split; [exact Hw|]. split; [exact Hi|].
  exact (proj1 (proj1 (proj2 (proj2 (subscribe_unsubscribe_guards
           (WebSocket.connected_with ["a@ticker"; "b@trade"]) ["a@ticker"])))
         Hs Hw Hi)).
Defined.

(** C9 (as the claim states it) fails: on a connection that is not [OPEN],
    a [subscribe] to 1025 streams is rejected with the ceiling error, not
    with "WebSocket is not connected". *)
Lemma subscribe_closed_over_ceiling :
  WebSocket.state (WebSocket.new WebSocket.defaultConfig ∅) = WebSocket.CLOSED
  /\ WebSocket.subscribe (WebSocket.new WebSocket.defaultConfig ∅)
       (WebSocket.stream_names 1025)
     = (WebSocket.new WebSocket.defaultConfig ∅, [],
        inl (Errors.WebSocketError "Cannot subscribe to more than 1024 streams" None))
  /\ WebSocket.not_connected
     = Errors.WebSocketError "WebSocket is not connected" None.
Proof. repeat split; vm_compute; reflexivity. Qed.

(** ** The stream connection: the subscription set *)

Section SubscriptionSet.
Import JS Constants Errors WebSocket.

Lemma is_id_inject i j : is_id (Some (JNumber (inject_Z i))) j = (i =? j).
Proof.
  unfold is_id, Qeq_bool. simpl. now rewrite !Z.mul_1_r.
Qed.

Lemma settle_reply waiting : forall c f i k,
  replies_to f i ->
  Forall (fun p => awaited p <> i) waiting ->
  settle c (waiting ++ [{| awaited := i; on_resolve := k |}]) f
  = (resume c k, waiting).
Proof.
  induction waiting as [|p rest IH]; intros c f i k Hf Hw; cbn [app settle].
  - assert (Hyes : reply_to {| awaited := i; on_resolve := k |} f = Some true).
    { destruct Hf as (r & Hp & Hid & Herr). unfold reply_to. cbn [awaited].
      rewrite Hp, Hid, is_id_inject, Z.eqb_refl, Herr. reflexivity. }
    rewrite Hyes. reflexivity.
  - inversion Hw as [|? ? Hp Hrest]; subst.
    assert (Hnone : reply_to p f = None).
    { destruct Hf as (r & Hpf & Hid & _). unfold reply_to.
      rewrite Hpf, Hid, is_id_inject.
      destruct (Z.eqb_spec i (awaited p)); [congruence | reflexivity]. }
    rewrite Hnone, (IH c f i k Hf Hrest). reflexivity.
Qed.

Lemma handleMessage_reply c f i :
  replies_to f i -> handleMessage c f = ([], Returned).
Proof.
  intros (r & Hp & Hid & _). unfold handleMessage.
  destruct (_ || _); [reflexivity|]. now rewrite Hp, Hid.
Qed.

Lemma request_then_reply c m ps k f :
  state c = OPEN -> ws c = true ->
  Forall (fun p => awaited p <> requestId c) (pending c) ->
  replies_to f (requestId c) ->
  subscriptions
    (fst (step (fst (fst (sendRequest c m ps k))) (OnMessage f)))
  = subscriptions (resume c k).
Proof.
  intros Hs Hw Hp Hf. unfold sendRequest, isConnected. rewrite Hs. simpl state_eqb.
  cbn [negb]. change (ws (with_requestId (to_double (requestId c + 1)) c)) with (ws c).
  rewrite Hw. cbn [fst]. cbn [step]. unfold on_message.
  rewrite (handleMessage_reply _ f (requestId c) Hf).
  cbn [pending with_pending with_requestId].
  rewrite (settle_reply (pending c) _ f (requestId c) k Hf Hp).
  destruct k; reflexivity.
Qed.

(** C4 (as the code has it).  [disconnect] turns automatic reconnection
    off, clears the timers and moves the connection to [CLOSING] (when it was
    [OPEN]) or [CLOSED]; it leaves the subscription set as it is.  A
    [subscribe] whose reply arrives adds the requested streams to the set,
    and an [unsubscribe] whose reply arrives removes them. *)
Theorem disconnect_keeps_subscriptions (c : client) :
  subscriptions (fst (disconnect c)) = subscriptions c
  /\ reconnect (config (fst (disconnect c))) = false
  /\ (state (fst (disconnect c)) = CLOSING \/ state (fst (disconnect c)) = CLOSED)
  /\ (pingIntervalTimer (fst (disconnect c)) = Unset
      /\ pongTimeoutTimer (fst (disconnect c)) = Unset
      /\ reconnectTimeout (fst (disconnect c)) = Unset)
  /\ (forall streams f,
        state c = OPEN -> ws c = true ->
        Set_size (subscriptions c) + Z.of_nat (length streams) <= MAX_SUBSCRIPTIONS ->
        Forall (fun p => awaited p <> requestId c) (pending c) ->
        replies_to f (requestId c) ->
        subscriptions (fst (run c [CallSubscribe streams; OnMessage f]))
          = fold_left Set_add streams (subscriptions c)
        /\ forall x,
             In x (subscriptions (fst (run c [CallSubscribe streams; OnMessage f])))
             <-> In x (subscriptions c) \/ In x streams)
  /\ (forall streams f,
        state c = OPEN -> ws c = true ->
        Forall (fun p => awaited p <> requestId c) (pending c) ->
        replies_to f (requestId c) ->
        subscriptions (fst (run c [CallUnsubscribe streams; OnMessage f]))
          = fold_left Set_delete streams (subscriptions c)
        /\ forall x,
             In x (subscriptions (fst (run c [CallUnsubscribe streams; OnMessage f])))
             <-> In x (subscriptions c) /\ ~ In x streams).
Proof.
  split; [|split; [|split; [|split; [|split]]]].
  - unfold disconnect. destruct (_ && _); reflexivity.
  - unfold disconnect. destruct (_ && _); reflexivity.
  - unfold disconnect. destruct (_ && _); simpl; auto.
  - unfold disconnect. destruct (_ && _); simpl; auto.
  - intros streams f Hs Hw Hle Hp Hf.
    assert (E : subscriptions (fst (run c [CallSubscribe streams; OnMessage f]))
                = fold_left Set_add streams (subscriptions c)).
    { cbv beta iota zeta delta [run step].
      pose proof (request_then_reply c SUBSCRIBE (Some streams)
                    (AddStreams streams) f Hs Hw Hp Hf) as H.
      unfold subscribe.
      destruct (Z.ltb_spec MAX_SUBSCRIPTIONS
        (Set_size (subscriptions c) + Z.of_nat (length streams))); [lia|].
      destruct (sendRequest c SUBSCRIBE _ _) as [[c1 e1] r1]. cbn [fst] in H.
      cbn [step] in H. destruct (on_message c1 f) as [c2 e2]. exact H. }
    split; [exact E|]. intros x. rewrite E. apply Set_add_all_In.
  - intros streams f Hs Hw Hp Hf.
    assert (E : subscriptions (fst (run c [CallUnsubscribe streams; OnMessage f]))
                = fold_left Set_delete streams (subscriptions c)).
    { cbv beta iota zeta delta [run step].
      pose proof (request_then_reply c UNSUBSCRIBE (Some streams)
                    (DeleteStreams streams) f Hs Hw Hp Hf) as H.
      unfold unsubscribe.
      destruct (sendRequest c UNSUBSCRIBE _ _) as [[c1 e1] r1]. cbn [fst] in H.
      cbn [step] in H. destruct (on_message c1 f) as [c2 e2]. exact H. }
    split; [exact E|]. intros x. rewrite E. apply Set_delete_all_In.
Qed.

End SubscriptionSet.

Lemma disconnect_keeps_subscriptions_witness :
  WebSocket.replies_to (WebSocket.frame_of (WebSocket.reply 2)) 2
  /\ WebSocket.subscriptions
       (fst (WebSocket.run (WebSocket.connected_with ["a@ticker"; "b@trade"])
               [WebSocket.CallUnsubscribe ["a@ticker"];
                WebSocket.OnMessage (WebSocket.frame_of (WebSocket.reply 2))]))
     = fold_left WebSocket.Set_delete ["a@ticker"]
         (WebSocket.subscriptions (WebSocket.connected_with ["a@ticker"; "b@trade"])).
Proof.
  assert (Hf : WebSocket.replies_to (WebSocket.frame_of (WebSocket.reply 2)) 2).
  { exists (WebSocket.reply 2). repeat split. }
  split; [exact Hf|].
  refine (proj1 (proj2 (proj2 (proj2 (proj2 (proj2
    (disconnect_keeps_subscriptions
       (WebSocket.connected_with ["a@ticker"; "b@trade"]))))))
    ["a@ticker"] (WebSocket.frame_of (WebSocket.reply 2)) _ _ _ Hf)).
  - vm_compute. reflexivity.
  - vm_compute. reflexivity.
  - vm_compute. constructor.
Defined.

(** C4 (as the claim states it) fails: after [disconnect()], and after the
    close that follows it, the client still holds its two streams. *)
Lemma disconnect_does_not_clear :
  WebSocket.subscriptions (WebSocket.connected_with ["a@ticker"; "b@trade"])
    = ["a@ticker"; "b@trade"]
  /\ WebSocket.subscriptions
       (fst (WebSocket.disconnect (WebSocket.connected_with ["a@ticker"; "b@trade"])))
     = ["a@ticker"; "b@trade"]
  /\ WebSocket.subscriptions
       (fst (WebSocket.run (WebSocket.connected_with ["a@ticker"; "b@trade"])
               [WebSocket.CallDisconnect;
                WebSocket.OnClose 1000 "Client disconnect"]))
     = ["a@ticker"; "b@trade"]
  /\ WebSocket.state
       (fst (WebSocket.run (WebSocket.connected_with ["a@ticker"; "b@trade"])
               [WebSocket.CallDisconnect;
                WebSocket.OnClose 1000 "Client disconnect"]))
     = WebSocket.CLOSED.
Proof. repeat split; vm_compute; reflexivity. Qed.

(* ====================================================================== *)
(** * Part III: further properties of the code                             *)
(* ====================================================================== *)

(** ** The names of the error codes *)

Section ErrorNames.
Import ErrorCodes.

Lemma find_NoDup_snd (l : list (string * Z)) name code :
  List.NoDup (map snd l) -> In (name, code) l ->
  List.find (fun entry => snd entry =? code) l = Some (name, code).
Proof.
  induction l as [|[n c] l IH]; intros Hnd Hin; [destruct Hin|].
  simpl in *. inversion Hnd as [|? ? Hnotin Hnd']; subst.
  destruct Hin as [[= -> ->]|Hin].
  - now rewrite Z.eqb_refl.
  - destruct (Z.eqb_spec c code) as [->|Hne].
    + exfalso. apply Hnotin. now apply (in_map snd l (name, code)).
    + now apply IH.
Qed.

Lemma codes_distinct : List.NoDup (map snd ASTER_ERROR_CODES).
Proof.
  apply (proj1 (NoDup_ListNoDup _)).
  apply (bool_decide_unpack (NoDup (map snd ASTER_ERROR_CODES))).
  vm_compute. reflexivity.
Qed.

(** X1.  [getErrorMessage] is the inverse of the table of error codes: it
    gives every code of [ASTER_ERROR_CODES] the name it has there (no code
    occurs twice), and any other integer code up to [2^53] in size the text
    "Unknown error code: " followed by the code in decimal.  (Beyond [2^53]
    the text ends in the digits the host prints for the number, which are not
    its decimal notation.) *)
Theorem getErrorMessage_names (Number_toString_beyond : Z -> string) :
  (forall name code, In (name, code) ASTER_ERROR_CODES ->
     getErrorMessage Number_toString_beyond code = name)
  /\ (forall code, ~ In code (map snd ASTER_ERROR_CODES) ->
        (Z.abs code <= JS.two53 ->
         getErrorMessage Number_toString_beyond code
         = ("Unknown error code: " ++ pretty code)%string)
        /\ getErrorMessage Number_toString_beyond code
           = ("Unknown error code: "
              ++ Number_toString Number_toString_beyond code)%string).
Proof.
  split.
  - intros name code Hin. unfold getErrorMessage.
    now rewrite (find_NoDup_snd _ name code codes_distinct Hin).
  - intros code Hnot.
    assert (Hmiss : getErrorMessage Number_toString_beyond code
                    = ("Unknown error code: "
                       ++ Number_toString Number_toString_beyond code)%string).
    { unfold getErrorMessage.
      destruct (List.find _ ASTER_ERROR_CODES) as [[n c]|] eqn:Hf; [|reflexivity].
      apply find_some in Hf as [Hin Heq]. simpl in Heq. apply Z.eqb_eq in Heq.
      subst c. exfalso. apply Hnot. now apply (in_map snd _ (n, code)). }
    split; [|exact Hmiss].
    intros Hsafe. rewrite Hmiss. unfold Number_toString.
    destruct (Z.leb_spec (Z.abs code) JS.two53) as [_|Hlt]; [reflexivity|lia].
Qed.
End ErrorNames.

(** ** [ParameterUtils] *)

Section Parameters.
Import JS Signature Errors ParameterUtils.
Variable localeCompare : string -> string -> Z.

Lemma filter_filter {A} (f g : A -> bool) l :
  List.filter f (List.filter g l) = List.filter (fun x => g x && f x) l.
Proof.
  induction l as [|x l IH]; simpl; [reflexivity|].
  destruct (g x); simpl; [destruct (f x)|]; now rewrite IH.
Qed.

Lemma filter_ext_in' {A} (f g : A -> bool) l :
  (forall x, In x l -> f x = g x) -> List.filter f l = List.filter g l.
Proof.
  induction l as [|x l IH]; intros H; simpl; [reflexivity|].
  rewrite (H x (or_introl eq_refl)), IH; [reflexivity|].
  intros y Hy. apply H. now right.
Qed.

(** Sorting a list that is in order already leaves it as it is. *)
Lemma Array_sort_sorted_id {A} (f : A -> A -> Z) l :
  Sorted (fun a b => f a b <= 0) l -> Array_sort f l = l.
Proof.
  induction 1 as [|x l Hs IH Hhd]; [reflexivity|].
  unfold Array_sort in *. simpl. rewrite IH.
  destruct Hhd as [|y l' Hxy]; simpl; [reflexivity|].
  destruct (Z.leb_spec (f x y) 0); [reflexivity | lia].
Qed.

(** X2.  [cleanParams] is idempotent; it keeps, in their order, exactly the
    entries whose value is none of [undefined], [null] and [''] and whose key
    is not [__proto__]; and cleaning the parameters before they are signed does
    not change the canonical query string, but for a key [__proto__], which
    [cleanParams] drops and [createQueryString] keeps. *)
Theorem cleanParams_before_signing (params : object) :
  cleanParams (cleanParams params) = cleanParams params
  /\ Forall (fun entry => keeps entry = true /\ fst entry <> "__proto__")
            (cleanParams params)
  /\ (forall entry, In entry params -> keeps entry = true ->
        fst entry <> "__proto__" -> In entry (cleanParams params))
  /\ createQueryString localeCompare (cleanParams params)
     = createQueryString localeCompare
         (List.filter (fun entry => assignable (fst entry)) params)
  /\ (~ In "__proto__" (map fst params) ->
      createQueryString localeCompare (cleanParams params)
      = createQueryString localeCompare params).
Proof.
  assert (Hq : forall p q : object,
             List.filter keeps p = List.filter keeps q ->
             createQueryString localeCompare p = createQueryString localeCompare q).
  { intros p q H. unfold createQueryString, queryEntries, Object_entries. now rewrite H. }
  unfold cleanParams, Object_entries. repeat split.
  - rewrite filter_filter. apply filter_ext_in'. intros x _.
    now rewrite andb_diag.
  - apply List.Forall_forall. intros entry Hin.
    apply filter_In in Hin as [_ H]. apply andb_true_iff in H as [Hk Ha].
    split; [exact Hk|]. unfold assignable in Ha.
    apply negb_true_iff in Ha. now apply String.eqb_neq in Ha.
  - intros entry Hin Hk Hp. apply filter_In. split; [exact Hin|].
    rewrite Hk. unfold assignable. apply String.eqb_neq in Hp. now rewrite Hp.
  - apply Hq. rewrite !filter_filter. apply filter_ext_in'. intros x _.
    destruct (keeps x), (assignable (fst x)); reflexivity.
  - intros Hnot. apply Hq. rewrite filter_filter. apply filter_ext_in'.
    intros x Hx. destruct (keeps x); simpl; [|reflexivity].
    unfold assignable. destruct (String.eqb_spec (fst x) "__proto__") as [Heq|]; [|now rewrite andb_true_r].
    exfalso. apply Hnot. rewrite <- Heq. now apply in_map.
Qed.

(** X3.  [toUrlEncoded] writes the cleaned entries in the order of the
    object, [createQueryString] in the order of [localeCompare]: when the
    cleaned entries are in that order already, the two strings are the same. *)
Theorem toUrlEncoded_sorted (params : object) :
  Sorted (key_le localeCompare) (cleanParams params) ->
  createQueryString localeCompare (cleanParams params) = toUrlEncoded params.
Proof.
  intros Hs. unfold createQueryString, toUrlEncoded, queryEntries, Object_entries.
  assert (Hk : List.filter keeps (cleanParams params) = cleanParams params).
  { unfold cleanParams, Object_entries. rewrite filter_filter.
    apply filter_ext_in'. intros x _. destruct (keeps x), (assignable (fst x)); reflexivity. }
  rewrite Hk. now rewrite (Array_sort_sorted_id (by_key localeCompare)).
Qed.

Section Required.
Variable inherited : string -> value.

Lemma own_In params name v : own params name = Some v -> In (name, v) params.
Proof.
  unfold own. destruct (List.find _ params) as [[k x]|] eqn:Hf; [|discriminate].
  intros [= <-]. apply find_some in Hf as [Hin Heq]. simpl in Heq.
  apply String.eqb_eq in Heq. now subst k.
Qed.

(** X4.  [validateRequired] returns exactly when every required name reads
    (as [params[name]], own property first, prototype chain second) as a value
    that is none of [undefined], [null] and ['']; then a required name that
    the prototype chain does not define is an own key of the parameters whose
    value [cleanParams] keeps.  Otherwise it throws a [ValidationError] whose
    message lists the missing names, in the order in which they are required,
    separated by a comma and a space. *)
Theorem validateRequired_spec (params : object) (required : list string) :
  (validateRequired inherited params required = None <->
   forall name, In name required ->
     keeps (name, property inherited params name) = true)
  /\ (validateRequired inherited params required = None ->
      forall name, In name required -> inherited name = VUndefined ->
        exists v, In (name, v) params /\ keeps (name, v) = true
                  /\ (name <> "__proto__" -> In (name, v) (cleanParams params)))
  /\ (forall e, validateRequired inherited params required = Some e ->
        let missing := List.filter (is_missing inherited params) required in
        missing <> []
        /\ e = ValidationError
                 ("Missing required parameters: " ++ Array_join ", " missing)).
Proof.
  assert (Hnone : validateRequired inherited params required = None <->
                  forall name, In name required ->
                    keeps (name, property inherited params name) = true).
  { unfold validateRequired.
    destruct (List.filter (is_missing inherited params) required) as [|m l] eqn:Hf; simpl.
    - split; [|reflexivity]. intros _ name Hin.
      destruct (keeps (name, property inherited params name)) eqn:Hk; [reflexivity|].
      assert (Hm : In name (List.filter (is_missing inherited params) required)).
      { apply filter_In. split; [exact Hin|]. unfold is_missing. now rewrite Hk. }
      rewrite Hf in Hm. destruct Hm.
    - split; [discriminate|]. intros H.
      assert (Hm : In m (List.filter (is_missing inherited params) required))
        by (rewrite Hf; now left).
      apply filter_In in Hm as [Hin Hmiss]. unfold is_missing in Hmiss.
      rewrite (H m Hin) in Hmiss. discriminate. }
  split; [exact Hnone|]. split.
  - intros Hok name Hin Hinh. pose proof (proj1 Hnone Hok name Hin) as Hk.
    clear Hok. rename Hk into Hok.
    unfold property in Hok. destruct (own params name) as [v|] eqn:Hown.
    + exists v. apply own_In in Hown. split; [exact Hown|]. split; [exact Hok|].
      intros Hne. unfold cleanParams, Object_entries. apply filter_In.
      split; [exact Hown|]. unfold assignable. cbn [fst].
      apply String.eqb_neq in Hne. unfold keeps in *. cbn [snd] in *.
      rewrite Hne. now rewrite andb_true_r.
    + rewrite Hinh in Hok. discriminate.
  - intros e. unfold validateRequired.
    destruct (List.filter (is_missing inherited params) required) as [|m l]; simpl;
      [discriminate|].
    intros [= <-]. split; [discriminate | reflexivity].
Qed.
End Required.
End Parameters.

(** ** [SignatureAuth.signRequest] *)

Section Signing.
Import JS Signature Errors ParameterUtils SignatureAuth.
Variable localeCompare : string -> string -> Z.
Variable createHmac : string -> string -> string.

Lemma own_set o key v name :
  own (Object_set o key v) name
  = if String.eqb key name then Some v else own o name.
Proof.
  unfold own. induction o as [|[k x] o IH]; simpl.
  - destruct (String.eqb key name); reflexivity.
  - destruct (String.eqb_spec k key) as [->|Hne]; simpl.
    + destruct (String.eqb key name); reflexivity.
    + destruct (String.eqb_spec k name) as [->|Hkn]; simpl.
      * apply String.eqb_neq in Hne. rewrite String.eqb_sym in Hne. now rewrite Hne.
      * exact IH.
Qed.

Lemma Object_set_fresh o key v :
  ~ In key (map fst o) -> Object_set o key v = o ++ [(key, v)].
Proof.
  induction o as [|[k x] o IH]; simpl; intros Hnot; [reflexivity|].
  destruct (String.eqb_spec k key) as [->|Hne]; [tauto|].
  rewrite IH; tauto.
Qed.

Lemma Object_set_keys o key v k :
  In k (map fst (Object_set o key v)) <-> k = key \/ In k (map fst o).
Proof.
  induction o as [|[k' x] o IH]; simpl; [intuition|].
  destruct (String.eqb_spec k' key) as [->|Hne]; simpl; [intuition|].
  rewrite IH. intuition.
Qed.

(** The keys of the signed parameters. *)
Lemma signedParams_keys params recvWindow now name :
  In name (map fst (signedParams params recvWindow now)) <->
  name = "timestamp" \/ In name (map fst params)
  \/ (name = "recvWindow" /\ truthy recvWindow = true).
Proof.
  unfold signedParams.
  destruct recvWindow as [| |n]; simpl truthy;
    try (rewrite Object_set_keys; intuition congruence).
  destruct (n =? 0); simpl.
  - rewrite Object_set_keys. intuition congruence.
  - rewrite !Object_set_keys. intuition.
Qed.

(** The entries of a signed request. *)
Lemma signRequest_entries (auth : t) (params : object) (recvWindow : number)
    (now : Z) :
  ~ In "signature" (map fst params) ->
  signRequest localeCompare createHmac auth params recvWindow now
  = signedParams params recvWindow now
      ++ [("signature",
           VString (createHmac (apiSecret auth)
                      (createQueryString localeCompare
                         (signedParams params recvWindow now))))].
Proof.
  intros Hfresh. unfold signRequest, generateSignature.
  apply Object_set_fresh. rewrite signedParams_keys.
  intros [H|[H|[H _]]]; [discriminate | tauto | discriminate].
Qed.

(** X5.  [signRequest], on parameters without a key [signature], returns the
    signed parameters followed by one entry [signature], the HMAC (under the
    secret) of the canonical query string of exactly the entries before it.
    Among these, [timestamp] is the reading of the clock, also when the caller
    passed one; [recvWindow] is the argument when that is a number other than
    0, and otherwise whatever the caller's parameters hold; every other
    parameter is as the caller gave it. *)
Theorem signRequest_signed (auth : t) (params : object) (recvWindow : number)
    (now : Z) :
  ~ In "signature" (map fst params) ->
  signRequest localeCompare createHmac auth params recvWindow now
  = signedParams params recvWindow now
      ++ [("signature",
           VString (createHmac (apiSecret auth)
                      (createQueryString localeCompare
                         (signedParams params recvWindow now))))]
  /\ own (signedParams params recvWindow now) "timestamp" = Some (VNumber now)
  /\ own (signedParams params recvWindow now) "recvWindow"
     = match recvWindow with
       | Num n => if n =? 0 then own params "recvWindow" else Some (VNumber n)
       | _ => own params "recvWindow"
       end
  /\ (forall name, name <> "timestamp" -> name <> "recvWindow" ->
        own (signedParams params recvWindow now) name = own params name)
  /\ (forall name, In name (map fst params) ->
        In name (map fst (signedParams params recvWindow now))).
Proof.
  intros Hfresh. split; [now apply signRequest_entries|].
  split; [|split; [|split]].
  - unfold signedParams. destruct recvWindow as [| |n]; simpl truthy;
      try (now rewrite own_set).
    destruct (n =? 0); simpl; now rewrite !own_set.
  - unfold signedParams. destruct recvWindow as [| |n]; simpl truthy;
      try (now rewrite own_set).
    destruct (n =? 0); simpl; now rewrite !own_set.
  - intros name Ht Hr. apply String.eqb_neq in Ht, Hr.
    rewrite String.eqb_sym in Ht. rewrite String.eqb_sym in Hr.
    unfold signedParams. destruct recvWindow as [| |n]; simpl truthy;
      try (now rewrite own_set, Ht).
    destruct (n =? 0); simpl; now rewrite !own_set, ?Hr, ?Ht.
  - intros name Hin. apply signedParams_keys. tauto.
Qed.

End Signing.

(** ** [AuthManager] *)

Section Credentials.
Import JS Signature Errors AuthManager.

(** X6.  An [AuthManager] built from an optional key and secret never
    fails, and holds credentials exactly when both are given and not empty.
    [createHeaders] gives the two base headers for [NONE]; for [USER_STREAM],
    [MARKET_DATA] and [SIGNED] it adds [X-MBX-APIKEY] with the key when the
    manager holds credentials, and throws an [AuthError] when not (a key
    without secret is not enough, also for the endpoints that need the key
    only); for any other type it throws a [ConfigError]. *)
Theorem createHeaders_credentials (apiKey apiSecret : option string)
    (authType : string) :
  exists m,
    AuthManager.new apiKey apiSecret = inr m
    /\ (hasSignatureAuth m = given apiKey && given apiSecret)
    /\ createHeaders m "NONE" = inr baseHeaders
    /\ (In authType ["USER_STREAM"; "MARKET_DATA"; "SIGNED"] ->
        given apiKey && given apiSecret = true ->
        exists key, apiKey = Some key
          /\ createHeaders m authType
             = inr (<[ "X-MBX-APIKEY" := key ]> baseHeaders))
    /\ (In authType ["USER_STREAM"; "MARKET_DATA"; "SIGNED"] ->
        given apiKey && given apiSecret = false ->
        exists message, createHeaders m authType = inl (AuthError message))
    /\ (~ In authType ["NONE"; "USER_STREAM"; "MARKET_DATA"; "SIGNED"] ->
        createHeaders m authType
        = inl (ConfigError ("Unknown authentication type: " ++ authType))).
Proof.
  unfold AuthManager.new, credentials.
  assert (Hunknown : forall m,
    ~ In authType ["NONE"; "USER_STREAM"; "MARKET_DATA"; "SIGNED"] ->
    createHeaders m authType
    = inl (ConfigError ("Unknown authentication type: " ++ authType))).
  { intros m Hnot. unfold createHeaders.
    destruct (String.eqb_spec authType "NONE") as [->|_]; [exfalso; apply Hnot; simpl; tauto|].
    destruct (String.eqb_spec authType "USER_STREAM") as [->|_]; [exfalso; apply Hnot; simpl; tauto|].
    destruct (String.eqb_spec authType "MARKET_DATA") as [->|_]; [exfalso; apply Hnot; simpl; tauto|].
    destruct (String.eqb_spec authType "SIGNED") as [->|_]; [exfalso; apply Hnot; simpl; tauto|].
    reflexivity. }
  destruct apiKey as [k|], apiSecret as [s|]; simpl given.
  2-4: (exists None; split; [reflexivity|]; split; [now rewrite ?andb_false_r|];
        split; [reflexivity|]; split; [rewrite ?andb_false_r; discriminate|];
        split; [|apply Hunknown];
        intros [<-|[<-|[<-|[]]]] _; eexists; reflexivity).
  destruct (String.eqb_spec k "") as [->|Hk]; simpl.
  { exists None. split; [reflexivity|]. split; [reflexivity|]. split; [reflexivity|].
    split; [discriminate|]. split; [|apply Hunknown].
    intros [<-|[<-|[<-|[]]]] _; eexists; reflexivity. }
  destruct (String.eqb_spec s "") as [->|Hs]; simpl.
  { exists None. split; [reflexivity|]. split; [reflexivity|]. split; [reflexivity|].
    split; [discriminate|]. split; [|apply Hunknown].
    intros [<-|[<-|[<-|[]]]] _; eexists; reflexivity. }
  unfold SignatureAuth.new.
  apply String.eqb_neq in Hk, Hs. rewrite Hk, Hs.
  eexists. split; [reflexivity|]. split; [reflexivity|]. split; [reflexivity|].
  split; [|split; [discriminate | apply Hunknown]].
  intros [<-|[<-|[<-|[]]]] _; exists k; (split; [reflexivity|]); reflexivity.
Qed.
End Credentials.

(** ** Waiting for the rate limiter *)

Section Waiting.
Import RateLimiter.

Lemma Math_min_le x l : Forall (fun y => Math_min x l <= y) (x :: l).
Proof.
  unfold Math_min. induction l as [|y l IH]; simpl.
  - constructor; [lia | constructor].
  - inversion IH as [|? ? Hx Hl]; subst.
    constructor; [lia|]. constructor; [lia|].
    eapply List.Forall_impl; [|exact Hl]. simpl. intros a Ha. lia.
Qed.

Lemma Math_min_In x l : In (Math_min x l) (x :: l).
Proof.
  unfold Math_min. induction l as [|y l IH]; simpl; [now left|].
  destruct (Z.min_spec y (fold_right Z.min x l)) as [[_ ->]|[_ ->]].
  - right. now left.
  - destruct IH as [H|H]; [now left | right; now right].
Qed.

Lemma filter_length_lt {A} (f : A -> bool) l x :
  In x l -> f x = false -> (length (List.filter f l) < length l)%nat.
Proof.
  induction l as [|y l IH]; intros Hin Hf; [destruct Hin|].
  simpl. destruct Hin as [->|Hin].
  - rewrite Hf. pose proof (List.filter_length_le f l). lia.
  - specialize (IH Hin Hf). destruct (f y); simpl; lia.
Qed.

Lemma filter_all_id {A} (f : A -> bool) l :
  Forall (fun x => f x = true) l -> List.filter f l = l.
Proof.
  induction 1 as [|x l Hx _ IH]; simpl; [reflexivity|]. now rewrite Hx, IH.
Qed.

(** X7.  When the limiter holds no more than [maxRequests] timestamps, none
    of them from the future, and [waitUntilReady] decides to sleep, the sleep
    is positive and at most one window long, and it ends at the first moment at
    which [canMakeRequest] answers [true]: not before [now2 + waitTime], and
    at any time from then on. *)
Theorem waitUntilReady_exact (rl rl' : t) (now1 now2 waitTime : Z) :
  size rl <= maxRequests rl ->
  Forall (fun timestamp => timestamp <= now1) (requests rl) ->
  now1 <= now2 ->
  waitUntilReady now1 now2 rl = (Some waitTime, rl') ->
  0 < waitTime <= windowMs rl
  /\ size rl' = maxRequests rl
  /\ forall t, fst (canMakeRequest t rl') = true <-> now2 + waitTime <= t.
Proof.
  intros Hsize Hpast Hclock. unfold waitUntilReady, canMakeRequest.
  set (rl1 := cleanOldRequests now1 rl).
  assert (Hmax : maxRequests rl1 = maxRequests rl) by reflexivity.
  assert (Hwin : windowMs rl1 = windowMs rl) by reflexivity.
  assert (Hsize1 : Z.of_nat (length (requests rl1)) <= maxRequests rl).
  { unfold rl1, cleanOldRequests, size in *. simpl.
    pose proof (List.filter_length_le (fun timestamp => now1 - windowMs rl <? timestamp)
                  (requests rl)). lia. }
  assert (Hpast1 : Forall (fun timestamp => now1 - windowMs rl < timestamp <= now1)
                          (requests rl1)).
  { unfold rl1, cleanOldRequests. simpl. apply List.Forall_forall.
    intros x Hx. apply filter_In in Hx as [Hin Hlt].
    rewrite List.Forall_forall in Hpast. specialize (Hpast x Hin).
    apply Z.ltb_lt in Hlt. lia. }
  destruct (Z.ltb_spec (Z.of_nat (length (requests rl1))) (maxRequests rl1)) as [|Hfull];
    [discriminate|].
  unfold getTimeUntilReset.
  destruct (requests rl1) as [|x l] eqn:Hreq; [simpl; discriminate|].
  set (oldest := Math_min x l).
  destruct (Z.ltb_spec 0 (Z.max 0 (oldest + windowMs rl1 - now2))) as [Hpos|];
    [|discriminate].
  intros [= <- <-].
  pose proof (Math_min_le x l) as Hle. pose proof (Math_min_In x l) as Hin.
  fold oldest in Hle, Hin.
  assert (Hold : now1 - windowMs rl < oldest <= now1).
  { rewrite List.Forall_forall in Hpast1. apply Hpast1. exact Hin. }
  rewrite Hwin in *. rewrite Hmax in *.
  split; [lia|]. split.
  { unfold size. rewrite Hreq. lia. }
  intros t. cbn [fst]. unfold cleanOldRequests. cbn [requests maxRequests windowMs].
  rewrite Hreq. rewrite Hwin.
  split.
  - intros Hready. apply Z.ltb_lt in Hready.
    destruct (Z.le_gt_cases (now2 + Z.max 0 (oldest + windowMs rl - now2)) t) as [|Hearly];
      [assumption|].
    rewrite filter_all_id in Hready; [lia|].
    eapply List.Forall_impl; [|exact Hle]. simpl. intros a Ha.
    apply Z.ltb_lt. lia.
  - intros Hlate. apply Z.ltb_lt.
    pose proof (filter_length_lt (fun timestamp => t - windowMs rl <? timestamp)
                  (x :: l) oldest Hin) as Hlt.
    assert (Hout : (t - windowMs rl <? oldest) = false) by (apply Z.ltb_ge; lia).
    specialize (Hlt Hout).
    lia.
Qed.
End Waiting.

Lemma waitUntilReady_exact_witness :
  RateLimiter.waitUntilReady 1700000000500 1700000000500
    (RateLimiter.run (RateLimiter.new 2 1000)
       [RateLimiter.RecordRequest 1700000000000;
        RateLimiter.RecordRequest 1700000000200])
  = (Some 500, RateLimiter.mk [1700000000000; 1700000000200] 1000 2)
  /\ forall t,
       fst (RateLimiter.canMakeRequest t
              (RateLimiter.mk [1700000000000; 1700000000200] 1000 2)) = true
       <-> 1700000001000 <= t.
Proof.
  assert (Hw : RateLimiter.waitUntilReady 1700000000500 1700000000500
                 (RateLimiter.run (RateLimiter.new 2 1000)
                    [RateLimiter.RecordRequest 1700000000000;
                     RateLimiter.RecordRequest 1700000000200])
               = (Some 500, RateLimiter.mk [1700000000000; 1700000000200] 1000 2))
    by (vm_compute; reflexivity).
  split; [exact Hw|].
  refine (proj2 (proj2 (waitUntilReady_exact _ _ 1700000000500 1700000000500 500
                          _ _ _ Hw))).
  - vm_compute. intros H. discriminate H.
  - repeat constructor; vm_compute; intros H; discriminate H.
  - lia.
Defined.

(** ** The [Retry-After] header *)

Section RetryAfter.
Import JS Constants Errors.

Lemma pretty_N_char_digit d :
  (d < 10)%N ->
  is_digit (pretty_N_char d) = true
  /\ is_space (pretty_N_char d) = false
  /\ Z.of_N (N_of_ascii (pretty_N_char d)) - 48 = Z.of_N d
  /\ (forall (A : Type) (minus plus other : A),
        match pretty_N_char d with
        | "-"%char => minus
        | "+"%char => plus
        | _ => other
        end = other).
Proof.
  intros Hd.
  assert (H : (d = 0 \/ d = 1 \/ d = 2 \/ d = 3 \/ d = 4 \/ d = 5 \/ d = 6
               \/ d = 7 \/ d = 8 \/ d = 9)%N) by lia.
  destruct H as [->|[->|[->|[->|[->|[->|[->|[->|[->| ->]]]]]]]]];
    repeat split; reflexivity.
Qed.

Lemma digits_pretty_N_go x :
  exists k : Z, 0 <= k /\ forall s acc,
    digits acc (pretty_N_go x s) = digits (acc * 10 ^ k + Z.of_N x) s.
Proof.
  induction (N.lt_wf_0 x) as [x _ IH].
  destruct (N.eq_dec x 0%N) as [->|Hx].
  - exists 0. split; [lia|]. intros s acc. rewrite pretty_N_go_0. f_equal. lia.
  - destruct (IH (x / 10)%N) as (k & Hk & IHk);
      [apply N.div_lt; [now apply N.neq_0_lt_0 | reflexivity]|].
    exists (k + 1). split; [lia|]. intros s acc.
    rewrite pretty_N_go_step by lia. rewrite IHk. simpl digits.
    destruct (pretty_N_char_digit (x mod 10)%N) as (Hd & _ & Hv & _);
      [apply N.mod_lt; lia|].
    rewrite Hd, Hv. f_equal.
    rewrite Z.pow_add_r by lia. rewrite (N.div_mod x 10) at 3 by lia.
    rewrite N2Z.inj_add, N2Z.inj_mul. change (Z.of_N 10) with 10. lia.
Qed.

Lemma pretty_N_go_head x s :
  (0 < x)%N ->
  exists d rest, (d < 10)%N /\ pretty_N_go x s = String (pretty_N_char d) rest.
Proof.
  revert s. induction (N.lt_wf_0 x) as [x _ IH]. intros s Hx.
  rewrite pretty_N_go_step by exact Hx.
  destruct (N.eq_dec (x / 10)%N 0%N) as [Hz|Hnz].
  - rewrite Hz, pretty_N_go_0. exists (x mod 10)%N, s.
    split; [apply N.mod_lt; lia | reflexivity].
  - apply IH; [apply N.div_lt; [exact Hx | reflexivity] | now apply N.neq_0_lt_0].
Qed.

Lemma parseInt_digits s d rest sign :
  (d < 10)%N -> s = String (pretty_N_char d) rest ->
  unsigned sign s = Num (sign * digits 0 s)
  /\ parseInt s = Num (digits 0 s).
Proof.
  intros Hd ->.
  assert (H : (d = 0 \/ d = 1 \/ d = 2 \/ d = 3 \/ d = 4 \/ d = 5 \/ d = 6
               \/ d = 7 \/ d = 8 \/ d = 9)%N) by lia.
  destruct H as [->|[->|[->|[->|[->|[->|[->|[->|[->| ->]]]]]]]]];
    (split; [reflexivity|]);
    unfold pretty_N_char; unfold parseInt; cbn [skip_spaces];
    match goal with
    | |- context [is_space ?c] =>
        replace (is_space c) with false by (vm_compute; reflexivity)
    end; cbv iota; unfold unsigned;
    match goal with
    | |- context [is_digit ?c] =>
        replace (is_digit c) with true by (vm_compute; reflexivity)
    end; f_equal; apply Z.mul_1_l.
Qed.

Lemma parseInt_pretty_pos p :
  parseInt (pretty (N.pos p)) = Num (Z.pos p)
  /\ unsigned (-1) (pretty (N.pos p)) = Num (Z.neg p).
Proof.
  unfold pretty, pretty_N. destruct (decide (N.pos p = 0%N)) as [H|_]; [discriminate H|].
  destruct (pretty_N_go_head (N.pos p) "" ltac:(lia)) as (d & rest & Hd & Hs).
  destruct (parseInt_digits _ d rest (-1) Hd Hs) as (Hu & Hp).
  destruct (digits_pretty_N_go (N.pos p)) as (k & _ & Hk).
  rewrite Hp, Hu, (Hk "" 0). simpl digits. split; f_equal; lia.
Qed.

(** [parseInt] reads back the decimal notation of an integer. *)
Lemma parseInt_pretty (n : Z) : parseInt (pretty n) = Num n.
Proof.
  destruct n as [|p|p].
  - reflexivity.
  - apply parseInt_pretty_pos.
  - change (pretty (Z.neg p)) with (String "-" (pretty (N.pos p))).
    unfold parseInt. cbn [skip_spaces]. change (is_space "-") with false. cbv iota.
    apply parseInt_pretty_pos.
Qed.

(** X8.  On a 429 or 418 response whose [retry-after] header is the decimal
    notation of an integer [n] (with [1000 n] in the range of exact numbers),
    the error built by [fromHttpResponse] is a [RateLimitError] whose
    [retryAfter] is [n], and [getRetryDelay] gives [1000 n] milliseconds, but
    the default delay when [n] is 0. *)
Theorem getRetryDelay_reads_header (status n : Z) (h : headers) (defaultDelay : Q) :
  status = TOO_MANY_REQUESTS \/ status = IM_A_TEAPOT ->
  Z.abs (n * MILLISECONDS_IN_SECOND) <= two53 ->
  h !! "retry-after" = Some (pretty n) ->
  fromHttpResponse status (Some h) = RateLimitError status (Some h) (Num n)
  /\ getRetryDelay (fromHttpResponse status (Some h)) defaultDelay
     = if n =? 0 then defaultDelay else inject_Z (n * 1000).
Proof.
  intros Hst _ Hh.
  assert (Hra : getRetryAfter (Some h) = Num n).
  { unfold getRetryAfter. rewrite Hh.
    destruct (pretty n) as [|c s] eqn:Hp; [|rewrite <- Hp; apply parseInt_pretty].
    pose proof (parseInt_pretty n) as H. rewrite Hp in H. discriminate H. }
  assert (Hf : fromHttpResponse status (Some h) = RateLimitError status (Some h) (Num n)).
  { unfold fromHttpResponse. rewrite Hra.
    destruct Hst as [-> | ->]; reflexivity. }
  split; [exact Hf|]. rewrite Hf. simpl. destruct (n =? 0); reflexivity.
Qed.
End RetryAfter.

(** ** The event router *)

Section Router.
Import JS Errors WebSocket.

Lemma route_In t handler event :
  In (t, (handler, event)) routes ->
  route (Some (JString t)) = Some (handler, event).
Proof.
  unfold routes. simpl.
  intros H.
  repeat (destruct H as [[= <- <- <-]|H]; [reflexivity|]). destruct H.
Qed.

Lemma get_not_null message key e :
  get message key = inr e -> forall key', exists v, get message key' = inr v.
Proof.
  destruct message; simpl; intros H key'; try discriminate; eauto.
Qed.

(** X9.  Every case of the switch of [handleStreamData]: a frame without
    numeric [id] whose event type is one of the thirteen of the table, read at
    top level or, when the top level has none, under [data], is given (the
    whole frame, envelope included) to the handler of that type, when the
    client has one, and emitted as the event of that type, and to nothing
    else. *)
Theorem handleMessage_routes (c : client) (f : frame) (message : json)
    (messageId : option json) (t handler event : string) :
  has_text f -> parse f = Parsed message ->
  get message "id" = inr messageId -> is_number messageId = false ->
  In (t, (handler, event)) routes ->
  (get message "e" = inr (Some (JString t))
   \/ exists e data,
        get message "e" = inr e /\ (e = None \/ e = Some JNull)
        /\ get message "data" = inr data
        /\ get_opt data "e" = Some (JString t)) ->
  handleMessage c f
  = (call_handler c handler (Data message) ++ [Emit event (Data message)],
     Returned).
Proof.
  intros Ht Hp Hid Hnum Hin Hev. apply route_In in Hin.
  unfold has_text in Ht. unfold handleMessage. rewrite Ht, Hp, Hid, Hnum.
  assert (Hsd : handleStreamData c message
                = (dispatch c handler event message, Returned)).
  { unfold handleStreamData.
    destruct Hev as [He|(e & data & He & Hnull & Hd & Hde)].
    - destruct (get_not_null message "e" _ He "data") as (data & Hd).
      rewrite He, Hd. cbn [nullish]. now rewrite Hin.
    - rewrite He, Hd.
      assert (Hn : nullish e (get_opt data "e") = Some (JString t))
        by (destruct Hnull as [-> | ->]; exact Hde).
      now rewrite Hn, Hin. }
  destruct (truthy_json _ && truthy_json _); rewrite Hsd; reflexivity.
Qed.
End Router.

(** ** The life of a connection *)

Section Connection.
Import JS Constants Errors WebSocket.

(** What the request path leaves alone. *)
Lemma sendRequest_frame c m ps k :
  config (fst (fst (sendRequest c m ps k))) = config c
  /\ reconnectTimeout (fst (fst (sendRequest c m ps k))) = reconnectTimeout c
  /\ reconnectAttempts (fst (fst (sendRequest c m ps k))) = reconnectAttempts c
  /\ subscriptions (fst (fst (sendRequest c m ps k))) = subscriptions c
  /\ Forall (fun e => e <> NewSocket) (snd (fst (sendRequest c m ps k))).
Proof.
  unfold sendRequest. destruct (negb (isConnected c)); simpl; [now repeat split|].
  destruct (ws c); simpl; repeat split; repeat constructor; discriminate.
Qed.

Lemma subscribe_frame c streams :
  config (fst (fst (subscribe c streams))) = config c
  /\ reconnectTimeout (fst (fst (subscribe c streams))) = reconnectTimeout c
  /\ reconnectAttempts (fst (fst (subscribe c streams))) = reconnectAttempts c
  /\ subscriptions (fst (fst (subscribe c streams))) = subscriptions c
  /\ Forall (fun e => e <> NewSocket) (snd (fst (subscribe c streams))).
Proof.
  unfold subscribe. destruct (_ <? _); [simpl; now repeat split|].
  apply sendRequest_frame.
Qed.

Lemma replay_frame c :
  config (fst (replay c)) = config c
  /\ reconnectTimeout (fst (replay c)) = reconnectTimeout c
  /\ reconnectAttempts (fst (replay c)) = reconnectAttempts c
  /\ subscriptions (fst (replay c)) = subscriptions c
  /\ Forall (fun e => e <> NewSocket) (snd (replay c)).
Proof.
  unfold replay. destruct (0 <? _); [|simpl; now repeat split].
  pose proof (subscribe_frame c (Array_from (subscriptions c))) as H.
  destruct (subscribe c _) as [[c' effects] r]. exact H.
Qed.

Lemma resolve_opening_frame waiters : forall c,
  config (fst (resolve_opening c waiters)) = config c
  /\ reconnectTimeout (fst (resolve_opening c waiters)) = reconnectTimeout c
  /\ reconnectAttempts (fst (resolve_opening c waiters)) = reconnectAttempts c
  /\ subscriptions (fst (resolve_opening c waiters)) = subscriptions c
  /\ Forall (fun e => e <> NewSocket) (snd (resolve_opening c waiters)).
Proof.
  induction waiters as [|[|] rest IH]; intros c; cbn [resolve_opening].
  - simpl. now repeat split.
  - apply IH.
  - pose proof (replay_frame c) as (Hc & Ht & Ha & Hs & He).
    destruct (replay c) as [c1 e1]. cbn [fst snd] in *.
    specialize (IH c1) as (Hc' & Ht' & Ha' & Hs' & He').
    destruct (resolve_opening c1 rest) as [c2 e2]. cbn [fst snd] in *.
    repeat split; try congruence. apply Forall_app. now split.
Qed.

Lemma resume_frame c k :
  config (resume c k) = config c
  /\ reconnectTimeout (resume c k) = reconnectTimeout c
  /\ reconnectAttempts (resume c k) = reconnectAttempts c.
Proof. destruct k; now repeat split. Qed.

Lemma settle_frame waiting : forall c f,
  config (fst (settle c waiting f)) = config c
  /\ reconnectTimeout (fst (settle c waiting f)) = reconnectTimeout c
  /\ reconnectAttempts (fst (settle c waiting f)) = reconnectAttempts c.
Proof.
  induction waiting as [|p rest IH]; intros c f; cbn [settle]; [now repeat split|].
  destruct (reply_to p f) as [[|]|].
  - destruct (IH (resume c (on_resolve p)) f) as (H1 & H2 & H3).
    destruct (resume_frame c (on_resolve p)) as (R1 & R2 & R3).
    repeat split; congruence.
  - apply IH.
  - specialize (IH c f). destruct (settle c rest f) as [c' rest']. exact IH.
Qed.

(** A settled frame changes the set only by resolving a request. *)
Lemma settle_subscriptions waiting : forall c f,
  Forall (fun p => reply_to p f <> Some true) waiting ->
  subscriptions (fst (settle c waiting f)) = subscriptions c.
Proof.
  induction waiting as [|p rest IH]; intros c f Hw; cbn [settle]; [reflexivity|].
  inversion Hw as [|? ? Hp Hrest]; subst.
  destruct (reply_to p f) as [[|]|]; [congruence | now apply IH |].
  specialize (IH c f Hrest). destruct (settle c rest f) as [c' rest']. exact IH.
Qed.

Lemma call_handler_quiet c h a : Forall (fun e => e <> NewSocket) (call_handler c h a).
Proof.
  unfold call_handler. destruct (decide _); repeat constructor. discriminate.
Qed.

Lemma handleError_quiet c m : Forall (fun e => e <> NewSocket) (fst (handleError c m)).
Proof.
  unfold handleError. cbn [fst]. apply Forall_app. split; [apply call_handler_quiet|].
  repeat constructor. discriminate.
Qed.

Lemma handleStreamData_quiet c d :
  Forall (fun e => e <> NewSocket) (fst (handleStreamData c d)).
Proof.
  unfold handleStreamData.
  destruct (get d "e") as [|e]; [constructor|].
  destruct (get d "data") as [|data]; [constructor|].
  destruct (route _) as [[handler event]|].
  - cbn [fst]. unfold dispatch. apply Forall_app. split; [apply call_handler_quiet|].
    repeat constructor. discriminate.
  - destruct (_ && _); cbn [fst].
    + unfold dispatch. apply Forall_app. split; [apply call_handler_quiet|].
      repeat constructor. discriminate.
    + repeat constructor. discriminate.
Qed.

Lemma handleMessage_quiet c f :
  Forall (fun e => e <> NewSocket) (fst (handleMessage c f)).
Proof.
  unfold handleMessage. destruct (_ || _); [constructor|].
  destruct (parse f) as [message|message]; [|apply handleError_quiet].
  destruct (get message "id") as [thrown|messageId]; [apply handleError_quiet|].
  destruct (is_number messageId); [constructor|].
  assert (H : forall x : list effect * outcome,
             Forall (fun e => e <> NewSocket) (fst x) ->
             Forall (fun e => e <> NewSocket)
               (fst (let '(effects, out) := x in
                     match out with
                     | Returned => (effects, Returned)
                     | Thrown e =>
                         let '(effects', out') := handleError c (error_message e) in
                         (effects ++ effects', out')
                     end))).
  { intros [effects [|e]] Hx; [exact Hx|].
    pose proof (handleError_quiet c (error_message e)) as He.
    destruct (handleError c (error_message e)) as [effects' out'].
    cbn [fst] in *. apply Forall_app. now split. }
  destruct (_ && _); apply H, handleStreamData_quiet.
Qed.

Lemma Forall_snoc_quiet (l : list effect) e0 :
  Forall (fun e => e <> NewSocket) l -> e0 <> NewSocket ->
  Forall (fun e => e <> NewSocket) (l ++ [e0]).
Proof. intros. apply Forall_app. split; [assumption | now repeat constructor]. Qed.

(** One step of a connection on which automatic reconnection is off. *)
Lemma step_reconnect_off c ev :
  reconnect (config c) = false -> reconnectTimeout c <> Armed ->
  reconnect (config (fst (step c ev))) = false
  /\ reconnectTimeout (fst (step c ev)) <> Armed
  /\ (ev <> CallConnect -> Forall (fun e => e <> NewSocket) (snd (step c ev))).
Proof.
  intros Hoff Htimer.
  destruct ev as [| |streams|streams| |f|code reason|message| | | | |i];
    cbn [step].
  - unfold connect. destruct (_ || _); simpl; repeat split; auto; congruence.
  - unfold disconnect. destruct (_ && _); simpl; repeat split; try discriminate;
      intros _; repeat constructor; discriminate.
  - pose proof (subscribe_frame c streams) as (Hc & Ht & _ & _ & He).
    destruct (subscribe c streams) as [[c' effects] r]. cbn [fst snd] in *.
    rewrite Hc, Ht. auto.
  - unfold unsubscribe.
    pose proof (sendRequest_frame c UNSUBSCRIBE (Some streams) (DeleteStreams streams))
      as (Hc & Ht & _ & _ & He).
    destruct (sendRequest c UNSUBSCRIBE _ _) as [[c' effects] r]. cbn [fst snd] in *.
    rewrite Hc, Ht. auto.
  - unfold on_open.
    match goal with
    | |- context [resolve_opening ?c0 ?w] =>
        pose proof (resolve_opening_frame w c0) as (Hc & Ht & _ & _ & He);
        destruct (resolve_opening c0 w) as [c' effects']
    end.
    cbn [fst snd] in *. simpl in Hc, Ht. rewrite Hc, Ht.
    repeat split; auto. intros _. apply Forall_app. split; [|exact He].
    apply Forall_snoc_quiet; [apply call_handler_quiet | discriminate].
  - unfold on_message. pose proof (handleMessage_quiet c f) as Hq.
    destruct (handleMessage c f) as [effects [|e]]; cbn [fst snd] in *.
    + pose proof (settle_frame (pending c) c f) as (Hc & Ht & _).
      destruct (settle c (pending c) f) as [c' waiting]. cbn [fst snd] in *.
      simpl. rewrite Hc, Ht. auto.
    + repeat split; auto. intros _. apply Forall_snoc_quiet; [exact Hq | discriminate].
  - unfold handleClose. simpl. rewrite Hoff. simpl.
    repeat split; auto; try discriminate. intros _.
    apply Forall_snoc_quiet; [apply call_handler_quiet | discriminate].
  - unfold on_error. pose proof (handleError_quiet c message) as Hq.
    destruct (handleError c message) as [effects [|e]]; cbn [fst snd] in *.
    + destruct (state_eqb _ _); simpl; auto.
    + repeat split; auto. intros _. apply Forall_snoc_quiet; [exact Hq | discriminate].
  - simpl. repeat split; auto.
  - unfold on_reconnect_timer. destruct (reconnectTimeout c) eqn:Hrt;
      [| congruence |]; simpl; repeat split; auto; try congruence.
  - unfold on_ping_timer. destruct (pingIntervalTimer c); simpl; auto.
    destruct (isConnected c); simpl; auto.
    repeat split; auto. intros _. destruct (ws c); repeat constructor; discriminate.
  - unfold on_pong_timer. destruct (pongTimeoutTimer c); simpl; auto.
    repeat split; auto. intros _. destruct (ws c); repeat constructor; discriminate.
  - simpl. auto.
Qed.

Lemma run_reconnect_off events : forall c,
  reconnect (config c) = false -> reconnectTimeout c <> Armed ->
  reconnect (config (fst (run c events))) = false
  /\ (~ In CallConnect events ->
      Forall (fun e => e <> NewSocket) (snd (run c events))).
Proof.
  induction events as [|ev rest IH]; intros c Hoff Htimer; cbn [run].
  - simpl. auto.
  - destruct (step_reconnect_off c ev Hoff Htimer) as (Hoff' & Htimer' & Hq).
    destruct (step c ev) as [c' effects]. cbn [fst snd] in *.
    destruct (IH c' Hoff' Htimer') as (Hoff'' & Hq').
    destruct (run c' rest) as [c'' effects']. cbn [fst snd] in *.
    split; [exact Hoff''|]. intros Hnot. apply Forall_app. split.
    + apply Hq. intros ->. apply Hnot. now left.
    + apply Hq'. intros Hin. apply Hnot. now right.
Qed.

(** X10.  [disconnect()] turns automatic reconnection off for good: whatever
    happens afterwards, [config.reconnect] stays [false], and as long as
    [connect()] is not called no new socket is opened (no close, error or
    timer opens one). *)
Theorem disconnect_ends_reconnection (c : client) (events : list event) :
  reconnect (config (fst (run (fst (disconnect c)) events))) = false
  /\ (~ In CallConnect events ->
      ~ In NewSocket (snd (run (fst (disconnect c)) events))).
Proof.
  assert (Hoff : reconnect (config (fst (disconnect c))) = false)
    by (unfold disconnect; destruct (_ && _); reflexivity).
  assert (Htimer : reconnectTimeout (fst (disconnect c)) <> Armed)
    by (unfold disconnect; destruct (_ && _); discriminate).
  destruct (run_reconnect_off events _ Hoff Htimer) as (H1 & H2).
  split; [exact H1|]. intros Hnot Hin.
  specialize (H2 Hnot). rewrite List.Forall_forall in H2. now apply (H2 _ Hin).
Qed.

(** Every event but a frame leaves the set of subscriptions alone. *)
Lemma step_subscriptions c ev :
  (forall f, ev = OnMessage f ->
     Forall (fun p => reply_to p f <> Some true) (pending c)) ->
  subscriptions (fst (step c ev)) = subscriptions c.
Proof.
  intros Hf.
  destruct ev as [| |streams|streams| |f|code reason|message| | | | |i];
    cbn [step].
  - unfold connect. destruct (_ || _); reflexivity.
  - unfold disconnect. destruct (_ && _); reflexivity.
  - pose proof (subscribe_frame c streams) as (_ & _ & _ & Hs & _).
    destruct (subscribe c streams) as [[c' effects] r]. exact Hs.
  - unfold unsubscribe.
    pose proof (sendRequest_frame c UNSUBSCRIBE (Some streams) (DeleteStreams streams))
      as (_ & _ & _ & Hs & _).
    destruct (sendRequest c UNSUBSCRIBE _ _) as [[c' effects] r]. exact Hs.
  - unfold on_open.
    match goal with
    | |- context [resolve_opening ?c0 ?w] =>
        pose proof (resolve_opening_frame w c0) as (_ & _ & _ & Hs & _);
        destruct (resolve_opening c0 w) as [c' effects']
    end.
    exact Hs.
  - unfold on_message. destruct (handleMessage c f) as [effects [|e]]; [|reflexivity].
    pose proof (settle_subscriptions (pending c) c f (Hf f eq_refl)) as Hs.
    destruct (settle c (pending c) f) as [c' waiting]. exact Hs.
  - unfold handleClose. destruct (_ && _); reflexivity.
  - unfold on_error. destruct (handleError c message) as [effects [|e]]; [|reflexivity].
    destruct (state_eqb _ _); reflexivity.
  - reflexivity.
  - unfold on_reconnect_timer. destruct (reconnectTimeout c); try reflexivity.
    unfold connect. destruct (_ || _); [|reflexivity].
    apply (replay_frame (with_timers _ _ Fired c)).
  - unfold on_ping_timer. destruct (pingIntervalTimer c); try reflexivity.
    destruct (isConnected c); reflexivity.
  - unfold on_pong_timer. destruct (pongTimeoutTimer c); reflexivity.
  - reflexivity.
Qed.

(** X11.  The set of subscriptions changes only when a frame arrives that
    resolves a pending request: every other event (the calls of [subscribe]
    and [unsubscribe] themselves, [connect], [disconnect], the opening and
    closing of the socket, errors, the replay after a reconnection, the
    timers) leaves it as it is, and so does a frame that resolves none; so
    does any sequence of events without a frame. *)
Theorem subscriptions_change_on_reply (c : client) :
  (forall ev, (forall f, ev <> OnMessage f) ->
     subscriptions (fst (step c ev)) = subscriptions c)
  /\ (forall f,
        Forall (fun p => reply_to p f <> Some true) (pending c) ->
        subscriptions (fst (step c (OnMessage f))) = subscriptions c)
  /\ (forall events,
        Forall (fun ev => forall f, ev <> OnMessage f) events ->
        subscriptions (fst (run c events)) = subscriptions c).
Proof.
  split; [|split].
  - intros ev Hev. apply step_subscriptions. intros f ->. now destruct (Hev f).
  - intros f Hp. apply step_subscriptions. now intros f' [= <-].
  - intros events. revert c.
    induction events as [|ev rest IH]; intros c Hevs; [reflexivity|].
    inversion Hevs as [|? ? Hev Hrest]; subst. cbn [run].
    assert (Hs : subscriptions (fst (step c ev)) = subscriptions c).
    { apply step_subscriptions. intros f ->. now destruct (Hev f). }
    destruct (step c ev) as [c' effects]. cbn [fst] in Hs.
    specialize (IH c' Hrest). destruct (run c' rest) as [c'' effects'].
    cbn [fst] in *. congruence.
Qed.

Lemma settle_none waiting : forall c f,
  Forall (fun p => reply_to p f = None) waiting ->
  settle c waiting f = (c, waiting).
Proof.
  induction waiting as [|p rest IH]; intros c f Hw; cbn [settle]; [reflexivity|].
  inversion Hw as [|? ? Hp Hrest]; subst. now rewrite Hp, (IH c f Hrest).
Qed.

(** X12.  Once the timer of request [i] has run, a reply to [i] finds no
    request to resolve: it changes nothing in the client and calls no handler,
    so that a [subscribe] whose confirmation comes after the time-out never
    enters its streams into the set. *)
Theorem reply_after_timeout (c : client) (i : Z) (f : frame) (response : json) :
  parse f = Parsed response ->
  get response "id" = inr (Some (JNumber (inject_Z i))) ->
  run (fst (step c (RequestTimer i))) [OnMessage f]
  = (fst (step c (RequestTimer i)), [])
  /\ subscriptions (fst (run c [RequestTimer i; OnMessage f])) = subscriptions c
  /\ Forall (fun p => awaited p <> i)
            (pending (fst (run c [RequestTimer i; OnMessage f]))).
Proof.
  intros Hp Hid.
  assert (Hm : forall c0, handleMessage c0 f = ([], Returned)).
  { intros c0. unfold handleMessage. destruct (_ || _); [reflexivity|].
    now rewrite Hp, Hid. }
  set (waiting := List.filter (fun p => negb (awaited p =? i)) (pending c)).
  assert (Hw : Forall (fun p => reply_to p f = None) waiting).
  { apply List.Forall_forall. intros p Hin. apply filter_In in Hin as [_ Hne].
    apply negb_true_iff, Z.eqb_neq in Hne. unfold reply_to.
    rewrite Hp, Hid, is_id_inject.
    destruct (Z.eqb_spec i (awaited p)); [congruence | reflexivity]. }
  assert (Hrun : run (fst (step c (RequestTimer i))) [OnMessage f]
                 = (fst (step c (RequestTimer i)), [])).
  { cbn [step on_request_timer fst run]. unfold on_message. rewrite Hm.
    cbn [pending with_pending]. fold waiting. rewrite (settle_none waiting _ f Hw).
    reflexivity. }
  split; [exact Hrun|].
  change (run c [RequestTimer i; OnMessage f])
    with (let '(c', effects) := step c (RequestTimer i) in
          let '(c'', effects') := run c' [OnMessage f] in
          (c'', effects ++ effects')).
  cbn [step on_request_timer]. cbn [step on_request_timer fst] in Hrun.
  rewrite Hrun. cbn [fst]. split; [reflexivity|].
  cbn [pending with_pending]. apply List.Forall_forall. intros p Hin.
  apply filter_In in Hin as [_ Hne]. now apply negb_true_iff, Z.eqb_neq in Hne.
Qed.

(** X13.  A [subscribe] made while no request is in flight keeps the set of
    subscriptions within the ceiling of 1024, whatever frame follows it. *)
Theorem subscribe_sequential_ceiling (c : client) (streams : list string)
    (f : frame) :
  pending c = [] ->
  Set_size (subscriptions c) <= MAX_SUBSCRIPTIONS ->
  Set_size (subscriptions (fst (run c [CallSubscribe streams; OnMessage f])))
  <= MAX_SUBSCRIPTIONS.
Proof.
  intros Hp Hsize. cbn [run step].
  unfold subscribe.
  destruct (Z.ltb_spec MAX_SUBSCRIPTIONS
              (Set_size (subscriptions c) + Z.of_nat (length streams))) as [Hover|Hfit].
  - unfold on_message. destruct (handleMessage c f) as [effects [|e]]; [|exact Hsize].
    rewrite Hp. exact Hsize.
  - unfold sendRequest. destruct (negb (isConnected c)).
    + unfold on_message. destruct (handleMessage c f) as [effects [|e]]; [|exact Hsize].
      rewrite Hp. exact Hsize.
    + set (c1 := with_requestId (to_double (requestId c + 1)) c).
      destruct (ws c1) eqn:Hws.
      * unfold on_message.
        destruct (handleMessage _ f) as [effects [|e]]; [|exact Hsize].
        cbn [pending with_pending]. change (pending c1) with (pending c). rewrite Hp.
        cbn [app settle].
        destruct (reply_to _ f) as [[|]|]; cbn [fst]; try exact Hsize.
        cbn [on_resolve resume]. cbn [subscriptions with_subscriptions].
        change (subscriptions (with_pending _ c1)) with (subscriptions c).
        unfold Set_size in *.
        pose proof (Set_add_all_length streams (subscriptions c)).
        match goal with
        | |- Z.of_nat (length (subscriptions ?x)) <= _ =>
            change (subscriptions x)
              with (fold_left Set_add streams (subscriptions c))
        end.
        lia.
      * unfold on_message. destruct (handleMessage c1 f) as [effects [|e]]; [|exact Hsize].
        change (pending c1) with (pending c). rewrite Hp. exact Hsize.
Qed.

(** The counter of reconnection attempts stays within its limit. *)
Lemma step_reconnectAttempts c ev :
  0 <= maxReconnectAttempts (config c) <= two53 ->
  0 <= reconnectAttempts c <= maxReconnectAttempts (config c) ->
  maxReconnectAttempts (config (fst (step c ev))) = maxReconnectAttempts (config c)
  /\ 0 <= reconnectAttempts (fst (step c ev)) <= maxReconnectAttempts (config c).
Proof.
  intros Hmax Hb.
  destruct ev as [| |streams|streams| |f|code reason|message| | | | |i];
    cbn [step].
  - unfold connect. destruct (_ || _); simpl; auto.
  - unfold disconnect. destruct (_ && _); simpl; auto.
  - pose proof (subscribe_frame c streams) as (Hc & _ & Ha & _).
    destruct (subscribe c streams) as [[c' effects] r]. cbn [fst] in *.
    rewrite Hc, Ha. auto.
  - unfold unsubscribe.
    pose proof (sendRequest_frame c UNSUBSCRIBE (Some streams) (DeleteStreams streams))
      as (Hc & _ & Ha & _).
    destruct (sendRequest c UNSUBSCRIBE _ _) as [[c' effects] r]. cbn [fst] in *.
    rewrite Hc, Ha. auto.
  - unfold on_open.
    match goal with
    | |- context [resolve_opening ?c0 ?w] =>
        pose proof (resolve_opening_frame w c0) as (Hc & _ & Ha & _);
        destruct (resolve_opening c0 w) as [c' effects']
    end.
    cbn [fst] in *. simpl in Hc, Ha. rewrite Hc, Ha. split; [reflexivity | ].
    lia.
  - unfold on_message. destruct (handleMessage c f) as [effects [|e]]; [|auto].
    pose proof (settle_frame (pending c) c f) as (Hc & _ & Ha).
    destruct (settle c (pending c) f) as [c' waiting]. cbn [fst] in *.
    simpl. rewrite Hc, Ha. auto.
  - unfold handleClose. simpl.
    destruct (reconnect (config c)); simpl; [|auto].
    destruct (Z.ltb_spec (reconnectAttempts c) (maxReconnectAttempts (config c)));
      simpl; [|auto].
    split; [reflexivity|]. unfold to_double.
    rewrite Z.abs_eq by lia.
    destruct (Z.leb_spec (reconnectAttempts c + 1) two53); lia.
  - unfold on_error. destruct (handleError c message) as [effects [|e]]; [|auto].
    destruct (state_eqb _ _); simpl; auto.
  - simpl. auto.
  - unfold on_reconnect_timer. destruct (reconnectTimeout c); simpl; auto.
    unfold connect. destruct (_ || _).
    + pose proof (replay_frame (with_timers (pingIntervalTimer c) (pongTimeoutTimer c)
                                  Fired c)) as (Hc & _ & Ha & _).
      simpl in *. rewrite Hc, Ha. auto.
    + simpl. auto.
  - unfold on_ping_timer. destruct (pingIntervalTimer c); simpl; auto.
    destruct (isConnected c); simpl; auto.
  - unfold on_pong_timer. destruct (pongTimeoutTimer c); simpl; auto.
  - simpl. auto.
Qed.

(** X14.  The counter of reconnection attempts never leaves the range from
    0 to [maxReconnectAttempts], whatever the events. *)
Theorem reconnectAttempts_bounded (c : client) (events : list event) :
  0 <= maxReconnectAttempts (config c) <= two53 ->
  0 <= reconnectAttempts c <= maxReconnectAttempts (config c) ->
  0 <= reconnectAttempts (fst (run c events)) <= maxReconnectAttempts (config c).
Proof.
  revert c. induction events as [|ev rest IH]; intros c Hmax Hb; [exact Hb|].
  cbn [run]. destruct (step_reconnectAttempts c ev Hmax Hb) as (Hc & Hb').
  destruct (step c ev) as [c' effects]. cbn [fst] in *.
  rewrite <- Hc in Hmax, Hb'. specialize (IH c' Hmax Hb').
  destruct (run c' rest) as [c'' effects']. cbn [fst] in *. now rewrite <- Hc.
Qed.
End Connection.

(** ** The shapes the Web3 validators accept *)

Section Shapes.
Import JS Constants Errors Web3 FuturesAuthManager.

Lemma test_begins p s :
  test p s = true <->
  exists a r, s = (a ++ r)%string /\ String.length a = length p /\ test p a = true.
Proof.
  rewrite <- (app_nil_r p) at 1. rewrite test_app. split.
  - intros (a & r & Hs & Hl & Ha & _). eauto.
  - intros (a & r & Hs & Hl & Ha). exists a, r. repeat split; auto.
Qed.

Lemma test_0x n a :
  String.length a = (2 + n)%nat ->
  (test ([lit "0"; lit "x"] ++ repeat hex n) a = true <->
   exists h, a = ("0x" ++ h)%string /\ String.length h = n /\ all_hex h = true).
Proof.
  intros Hl. split.
  - intros H. destruct a as [|c1 [|c2 h]]; simpl in Hl; try lia.
    cbn [app test] in H. apply andb_true_iff in H as [H1 H].
    apply andb_true_iff in H as [H2 H].
    unfold lit in H1, H2. apply Ascii.eqb_eq in H1, H2. subst c1 c2.
    exists h. split; [reflexivity|]. assert (Hh : String.length h = n) by lia.
    split; [exact Hh|]. now apply (test_hex_exact n h Hh).
  - intros (h & -> & Hh & Hall). now apply test_prefixed.
Qed.

Lemma validateAddresses_begins user signer :
  validateAddresses user signer = true <->
  begins_with is_address user /\ begins_with is_address signer.
Proof.
  assert (Haddr : forall s, test addressRegex s = true <-> begins_with is_address s).
  { intros s. rewrite test_begins. unfold begins_with. split.
    - intros (a & r & Hs & Hl & Ha). exists a, r. split; [exact Hs|].
      unfold addressRegex in *. rewrite length_app, repeat_length in Hl.
      now apply (test_0x ETHEREUM_ADDRESS_LENGTH a Hl).
    - intros (a & r & Hs & h & Ha & Hh & Hall). exists a, r. split; [exact Hs|].
      unfold addressRegex. rewrite length_app, repeat_length. subst a.
      split; [cbv [String.append]; cbn [String.length]; now rewrite Hh|].
      now apply test_prefixed. }
  unfold validateAddresses. now rewrite andb_true_iff, !Haddr.
Qed.

Lemma validatePrivateKey_begins key :
  validatePrivateKey key = true <-> begins_with is_private_key key.
Proof.
  unfold validatePrivateKey. rewrite orb_true_iff, !test_begins.
  unfold begins_with, is_private_key. split.
  - intros [(a & r & Hs & Hl & Ha)|(a & r & Hs & Hl & Ha)].
    + exists a, r. split; [exact Hs|]. exists a.
      unfold withoutPrefixRegex in *. rewrite repeat_length in Hl.
      split; [now left|]. split; [exact Hl|].
      now apply (test_hex_exact PRIVATE_KEY_LENGTH a Hl).
    + exists a, r. split; [exact Hs|].
      unfold withPrefixRegex in *. rewrite length_app, repeat_length in Hl.
      apply (test_0x PRIVATE_KEY_LENGTH a Hl) in Ha as (h & -> & Hh & Hall).
      exists h. split; [now right|]. now split.
  - intros (a & r & Hs & h & [-> | ->] & Hh & Hall).
    + left. exists h, r. split; [exact Hs|].
      unfold withoutPrefixRegex. rewrite repeat_length. split; [exact Hh|].
      now apply (test_hex_exact PRIVATE_KEY_LENGTH h Hh).
    + right. exists ("0x" ++ h)%string, r. split; [exact Hs|].
      unfold withPrefixRegex. rewrite length_app, repeat_length.
      split; [cbv [String.append]; cbn [String.length]; now rewrite Hh|].
      now apply test_prefixed.
Qed.

(** X15.  The validators accept exactly the strings that begin with the
    shape they name: [validateAddresses] holds exactly when each of the two
    strings begins with [0x] and 40 hexadecimal digits, [validatePrivateKey]
    exactly when the string begins with 64 hexadecimal digits, with or without
    [0x] before them. *)
Theorem validators_accept_prefixes :
  (forall user signer,
     validateAddresses user signer = true <->
     begins_with is_address user /\ begins_with is_address signer)
  /\ (forall key,
        validatePrivateKey key = true <-> begins_with is_private_key key).
Proof. split; [exact validateAddresses_begins | exact validatePrivateKey_begins]. Qed.

(** X16.  The constructor of [FuturesAuthManager]: with one of the three
    arguments missing or empty it configures nothing and raises no error,
    whatever the others are; with all three given it throws "Invalid user or
    signer address format" unless both addresses pass [validateAddresses],
    then "Invalid private key format" unless the key passes
    [validatePrivateKey], and otherwise holds exactly the three strings.  The
    errors of the constructor of [Web3SignatureAuth] cannot occur. *)
Theorem FuturesAuthManager_new (userAddress signerAddress privateKey : option string) :
  (AuthManager.given userAddress && AuthManager.given signerAddress
   && AuthManager.given privateKey = false ->
   FuturesAuthManager.new userAddress signerAddress privateKey = inr None)
  /\ (forall u s k,
        userAddress = Some u -> signerAddress = Some s -> privateKey = Some k ->
        u <> "" -> s <> "" -> k <> "" ->
        FuturesAuthManager.new userAddress signerAddress privateKey
        = if negb (validateAddresses u s)
          then inl (AuthError "Invalid user or signer address format")
          else if negb (validatePrivateKey k)
          then inl (AuthError "Invalid private key format")
          else inr (Some {| userAddress := u; signerAddress := s;
                            privateKey := k |}))
  /\ (forall auth,
        FuturesAuthManager.new userAddress signerAddress privateKey = inr (Some auth) ->
        userAddress = Some (FuturesAuthManager.userAddress auth)
        /\ signerAddress = Some (FuturesAuthManager.signerAddress auth)
        /\ privateKey = Some (FuturesAuthManager.privateKey auth)
        /\ begins_with is_address (FuturesAuthManager.userAddress auth)
        /\ begins_with is_address (FuturesAuthManager.signerAddress auth)
        /\ begins_with is_private_key (FuturesAuthManager.privateKey auth)).
Proof.
  assert (Hfull : forall u s k, u <> "" -> s <> "" -> k <> "" ->
            FuturesAuthManager.new (Some u) (Some s) (Some k)
            = if negb (validateAddresses u s)
              then inl (AuthError "Invalid user or signer address format")
              else if negb (validatePrivateKey k)
              then inl (AuthError "Invalid private key format")
              else inr (Some {| userAddress := u; signerAddress := s;
                                privateKey := k |})).
  { intros u s k Hu Hs Hk. apply String.eqb_neq in Hu, Hs, Hk.
    unfold FuturesAuthManager.new, AuthManager.given. rewrite Hu, Hs, Hk. simpl.
    unfold validated, newWeb3SignatureAuth. rewrite Hu, Hs, Hk. reflexivity. }
  split; [|split].
  - unfold FuturesAuthManager.new.
    destruct userAddress as [u|], signerAddress as [s|], privateKey as [k|];
      try reflexivity.
    intros ->. reflexivity.
  - intros u s k -> -> -> Hu Hs Hk. now apply Hfull.
  - intros auth Hnew.
    destruct userAddress as [u|], signerAddress as [s|], privateKey as [k|];
      try discriminate Hnew.
    destruct (String.eqb_spec u "") as [->|Hu]; [discriminate Hnew|].
    destruct (String.eqb_spec s "") as [->|Hs];
      [unfold FuturesAuthManager.new, AuthManager.given in Hnew;
       apply String.eqb_neq in Hu; rewrite Hu in Hnew; discriminate Hnew|].
    destruct (String.eqb_spec k "") as [->|Hk];
      [unfold FuturesAuthManager.new, AuthManager.given in Hnew;
       apply String.eqb_neq in Hu, Hs; rewrite Hu, Hs in Hnew; discriminate Hnew|].
    rewrite (Hfull u s k Hu Hs Hk) in Hnew.
    destruct (validateAddresses u s) eqn:Ha; [|discriminate Hnew].
    destruct (validatePrivateKey k) eqn:Hp; [|discriminate Hnew].
    simpl in Hnew. injection Hnew as <-. simpl.
    apply validateAddresses_begins in Ha as [Hua Hsa].
    apply validatePrivateKey_begins in Hp.
    repeat split; assumption.
Qed.
End Shapes.

(** ** Strings the serializers write alike *)

Section Encodings.
Import JS URLSearchParams.

Lemma is_safe_unreserved c : is_safe c = true -> is_unreserved c = true.
Proof.
  unfold is_safe, is_unreserved.
  destruct (is_upper c); [reflexivity|]. destruct (is_lower c); [reflexivity|].
  destruct (is_digit c); [reflexivity|]. cbn [orb].
  unfold is_mark. cbn [list_ascii_of_string existsb].
  destruct (Ascii.eqb c "*"), (Ascii.eqb c "-"), (Ascii.eqb c "."), (Ascii.eqb c "_");
    cbn [orb]; rewrite ?orb_true_r; try reflexivity; discriminate.
Qed.

Lemma plain_encodings s :
  plain s = true -> encodeURIComponent s = s /\ form_encode s = s.
Proof.
  unfold plain. induction s as [|c s IH]; [now split|].
  cbn [list_ascii_of_string forallb encodeURIComponent form_encode].
  intros H. apply andb_true_iff in H as [Hc Hs].
  destruct (IH Hs) as [-> ->]. rewrite Hc, (is_safe_unreserved c Hc). now split.
Qed.

Lemma plain_app s t : plain s = true -> plain t = true -> plain (s ++ t) = true.
Proof.
  unfold plain. induction s as [|c s IH]; [auto|].
  change (String c s ++ t)%string with (String c (s ++ t)%string).
  cbn [list_ascii_of_string forallb].
  intros H Ht. apply andb_true_iff in H as [-> Hs]. now apply IH.
Qed.

Lemma plain_pretty_N_go x : forall s, plain s = true -> plain (pretty_N_go x s) = true.
Proof.
  induction (N.lt_wf_0 x) as [x _ IH]. intros s Hs.
  destruct (N.eq_dec x 0%N) as [->|Hx]; [now rewrite pretty_N_go_0|].
  rewrite pretty_N_go_step by (now apply N.neq_0_lt_0).
  apply IH; [apply N.div_lt; [now apply N.neq_0_lt_0 | reflexivity]|].
  unfold plain. cbn [list_ascii_of_string forallb]. fold (plain s). rewrite Hs.
  assert (Hd : (x mod 10 < 10)%N) by (apply N.mod_lt; discriminate).
  generalize dependent (x mod 10)%N. intros d Hd.
  assert (H : (d = 0 \/ d = 1 \/ d = 2 \/ d = 3 \/ d = 4 \/ d = 5 \/ d = 6
               \/ d = 7 \/ d = 8 \/ d = 9)%N) by lia.
  destruct H as [->|[->|[->|[->|[->|[->|[->|[->|[->| ->]]]]]]]]]; reflexivity.
Qed.

Lemma plain_pretty (n : Z) : plain (pretty n) = true.
Proof.
  destruct n as [|p|p]; [reflexivity| |].
  - unfold pretty, pretty_Z, pretty, pretty_positive, pretty, pretty_N.
    destruct (decide _); [reflexivity|]. now apply plain_pretty_N_go.
  - change (pretty (Z.neg p)) with (String "-" (pretty (N.pos p))).
    unfold plain. cbn [list_ascii_of_string forallb].
    change (is_safe "-") with true. cbn [andb].
    unfold pretty, pretty_N.
    destruct (decide _); [reflexivity|]. now apply plain_pretty_N_go.
Qed.
End Encodings.

(** ** Sorting a list with one more element *)

Section SortedInsert.
Import JS.
Context {A : Type} (f : A -> A -> Z).
Hypothesis total : forall a b, f a b <= 0 \/ f b a <= 0.
Hypothesis trans : forall a b c, f a b <= 0 -> f b c <= 0 -> f a c <= 0.

Lemma sort_insert_Forall (P : A -> Prop) s l :
  P s -> Forall P l -> Forall P (sort_insert f s l).
Proof.
  intros Hs Hl. eapply Permutation_Forall.
  - symmetry. apply sort_insert_perm.
  - now constructor.
Qed.

(** Inserting into a sorted list that holds [x], with what collates up to
    [x] before it and what collates beyond [x] after it, goes around [x] and
    keeps the two sides. *)
Lemma sort_insert_around s x l1 : forall l2,
  Sorted (fun a b => f a b <= 0) (l1 ++ x :: l2) ->
  Forall (fun y => f y x <= 0) l1 -> Forall (fun y => 0 < f y x) l2 ->
  exists l1' l2',
    sort_insert f s (l1 ++ x :: l2) = l1' ++ x :: l2'
    /\ sort_insert f s (l1 ++ l2) = l1' ++ l2'
    /\ Forall (fun y => f y x <= 0) l1' /\ Forall (fun y => 0 < f y x) l2'.
Proof.
  induction l1 as [|y l1 IH]; intros l2 Hs Hl1 Hl2; cbn [app sort_insert].
  - destruct (Z.leb_spec (f s x) 0) as [Hsx|Hsx].
    + exists [s], l2. split; [reflexivity|]. split.
      * destruct l2 as [|z l2]; [reflexivity|]. cbn [sort_insert app].
        inversion Hs as [|? ? _ Hhd]; subst. inversion Hhd as [|? ? Hxz]; subst.
        destruct (Z.leb_spec (f s z) 0) as [|Hsz]; [reflexivity|].
        specialize (trans s x z Hsx Hxz). lia.
      * split; [now repeat constructor | exact Hl2].
    + exists [], (sort_insert f s l2). split; [reflexivity|].
      split; [reflexivity|]. split; [constructor|].
      now apply sort_insert_Forall.
  - inversion Hl1 as [|? ? Hyx Hl1']; subst.
    destruct (Z.leb_spec (f s y) 0) as [Hsy|Hsy].
    + exists (s :: y :: l1), l2. split; [reflexivity|]. split; [reflexivity|].
      split; [|exact Hl2]. constructor; [exact (trans s y x Hsy Hyx) | exact Hl1].
    + inversion Hs as [|? ? Hs' _]; subst.
      destruct (IH l2 Hs' Hl1' Hl2) as (l1' & l2' & H1 & H2 & HF1 & HF2).
      exists (y :: l1'), l2'. cbn [app]. rewrite H1, H2.
      repeat split; auto.
Qed.

(** Where the sort puts an element appended to the list: after the
    elements that collate up to it and before those that collate beyond it,
    the others standing as they are sorted without it. *)
Lemma Array_sort_snoc l x :
  exists l1 l2,
    Array_sort f (l ++ [x]) = l1 ++ x :: l2 /\ Array_sort f l = l1 ++ l2
    /\ Forall (fun y => f y x <= 0) l1 /\ Forall (fun y => 0 < f y x) l2.
Proof.
  unfold Array_sort. rewrite foldr_app. cbn [foldr sort_insert].
  induction l as [|s l IH]; cbn [foldr].
  - exists [], []. repeat split; constructor.
  - destruct IH as (l1 & l2 & H1 & H2 & HF1 & HF2). rewrite H1, H2.
    apply sort_insert_around; [|exact HF1|exact HF2]. rewrite <- H1.
    clear - total. induction l as [|s l IH]; cbn [foldr]; [repeat constructor|].
    now apply sort_insert_sorted.
Qed.
End SortedInsert.

(** ** The requests of the REST client *)

Section RestRequests.
Import JS Signature Errors ParameterUtils HttpClient BaseRestClient.
Variable localeCompare : string -> string -> Z.
Variable createHmac : string -> string -> string.
Variable stringValue_other : string -> string.

Lemma throttle_makeRequest client method endpoint params authType time meanwhile :
  rateLimiter (fst (fst (makeRequest localeCompare createHmac client method endpoint
                           params authType time meanwhile)))
  = snd (throttle client time meanwhile)
  /\ snd (fst (makeRequest localeCompare createHmac client method endpoint
                 params authType time meanwhile))
     = fst (throttle client time meanwhile).
Proof.
  unfold makeRequest. destruct (throttle client time meanwhile) as [slept limiter].
  cbn [authManager fst snd].
  destruct (AuthManager.createHeaders _ _) as [e|headers]; [now split|].
  destruct (placement _ _ _ _ _ _ _) as [e|[queryParams bodyData]]; [now split|].
  destruct (0 <? length (Object_entries bodyData))%nat; now split.
Qed.

(** Recording after the wait keeps the limiter within its bound. *)
Lemma record_after_wait (rl : RateLimiter.t) (now1 now2 now3 : Z) :
  0 < RateLimiter.maxRequests rl ->
  RateLimiter.size rl <= RateLimiter.maxRequests rl ->
  Forall (fun timestamp => timestamp <= now1) (RateLimiter.requests rl) ->
  now1 <= now2 ->
  now2 + match fst (RateLimiter.waitUntilReady now1 now2 rl) with
         | Some waitTime => waitTime
         | None => 0
         end <= now3 ->
  let rl' := RateLimiter.recordRequest now3
               (snd (RateLimiter.waitUntilReady now1 now2 rl)) in
  In now3 (RateLimiter.requests rl')
  /\ RateLimiter.size rl' <= RateLimiter.maxRequests rl
  /\ RateLimiter.maxRequests rl' = RateLimiter.maxRequests rl
  /\ RateLimiter.windowMs rl' = RateLimiter.windowMs rl
  /\ Forall (fun timestamp => timestamp <= now3) (RateLimiter.requests rl').
Proof.
  intros Hmax Hsize Hpast Hclock.
  unfold RateLimiter.waitUntilReady, RateLimiter.canMakeRequest.
  set (rl1 := RateLimiter.cleanOldRequests now1 rl).
  assert (Hmax1 : RateLimiter.maxRequests rl1 = RateLimiter.maxRequests rl) by reflexivity.
  assert (Hwin1 : RateLimiter.windowMs rl1 = RateLimiter.windowMs rl) by reflexivity.
  assert (Hsize1 : Z.of_nat (length (RateLimiter.requests rl1))
                   <= RateLimiter.maxRequests rl).
  { unfold rl1, RateLimiter.cleanOldRequests, RateLimiter.size in *. simpl.
    pose proof (List.filter_length_le
                  (fun timestamp => now1 - RateLimiter.windowMs rl <? timestamp)
                  (RateLimiter.requests rl)). lia. }
  assert (Hpast1 : Forall (fun timestamp => timestamp <= now1) (RateLimiter.requests rl1)).
  { unfold rl1, RateLimiter.cleanOldRequests. simpl. apply List.Forall_forall.
    intros x Hx. apply filter_In in Hx as [Hin _].
    rewrite List.Forall_forall in Hpast. now apply Hpast. }
  assert (Hgoal : forall slept, now2 + match slept with Some w => w | None => 0 end <= now3 ->
            now2 <= now3 ->
            (Z.of_nat (length (RateLimiter.requests rl1)) < RateLimiter.maxRequests rl
             \/ exists oldest, In oldest (RateLimiter.requests rl1)
                               /\ oldest + RateLimiter.windowMs rl <= now3) ->
            let rl' := RateLimiter.recordRequest now3 rl1 in
            In now3 (RateLimiter.requests rl')
            /\ RateLimiter.size rl' <= RateLimiter.maxRequests rl
            /\ RateLimiter.maxRequests rl' = RateLimiter.maxRequests rl
            /\ RateLimiter.windowMs rl' = RateLimiter.windowMs rl
            /\ Forall (fun timestamp => timestamp <= now3) (RateLimiter.requests rl')).
  { intros slept _ H23 Hroom. unfold RateLimiter.recordRequest, RateLimiter.size.
    cbn [RateLimiter.requests RateLimiter.maxRequests RateLimiter.windowMs
         RateLimiter.cleanOldRequests].
    split; [apply in_or_app; right; now left|].
    split; [|split; [reflexivity|split; [reflexivity|]]].
    - rewrite length_app. cbn [length]. rewrite Hwin1.
      pose proof (List.filter_length_le
                    (fun timestamp => now3 - RateLimiter.windowMs rl <? timestamp)
                    (RateLimiter.requests rl1)) as Hle.
      destruct Hroom as [Hlt|(oldest & Hin & Hold)]; [lia|].
      pose proof (filter_length_lt
                    (fun timestamp => now3 - RateLimiter.windowMs rl <? timestamp)
                    (RateLimiter.requests rl1) oldest Hin) as Hlt.
      assert (Hout : (now3 - RateLimiter.windowMs rl <? oldest) = false)
        by (apply Z.ltb_ge; lia).
      specialize (Hlt Hout). lia.
    - apply Forall_app. split; [|repeat constructor; lia].
      apply List.Forall_forall. intros x Hx. apply filter_In in Hx as [Hin _].
      rewrite List.Forall_forall in Hpast1. specialize (Hpast1 x Hin). lia. }
  destruct (Z.ltb_spec (Z.of_nat (length (RateLimiter.requests rl1)))
              (RateLimiter.maxRequests rl1)) as [Hready|Hfull]; cbn [fst snd].
  - intros H3. apply (Hgoal None); [exact H3 | lia | left; now rewrite <- Hmax1].
  - unfold RateLimiter.getTimeUntilReset.
    destruct (RateLimiter.requests rl1) as [|x l] eqn:Hreq;
      [rewrite Hmax1 in Hfull; simpl in Hfull; lia|].
    pose proof (Math_min_In x l) as Hin.
    set (oldest := RateLimiter.Math_min x l) in *.
    destruct (Z.ltb_spec 0 (Z.max 0 (oldest + RateLimiter.windowMs rl1 - now2)))
      as [Hpos|Hzero]; cbn [fst snd]; intros H3; rewrite Hwin1 in *.
    + rewrite <- Hreq in *.
      apply (Hgoal (Some (Z.max 0 (oldest + RateLimiter.windowMs rl - now2))));
        [exact H3 | lia |].
      right. exists oldest. split; [exact Hin | lia].
    + rewrite <- Hreq in *.
      apply (Hgoal None); [exact H3 | lia |].
      right. exists oldest. split; [exact Hin | lia].
Qed.

(** X17.  [makeRequest] records its request in the rate limiter before
    anything else, so also when the request then fails without being sent
    (missing credentials, an unknown type).  If no other call uses the
    limiter while this one is suspended at its [await], the limiter allows
    at least one request, holds no more than [maxRequests] timestamps, none
    of them from the future, and the clock does not run backwards and has
    advanced by the time slept when the request is recorded, then the limiter
    again holds no more than [maxRequests] timestamps, none from the future.
    (Calls that overlap are not kept within the bound:
    [makeRequest_overlapping].) *)
Theorem makeRequest_throttled (client : t) (method endpoint : string)
    (params : object) (authType : string) (time : clock)
    (meanwhile : RateLimiter.t -> RateLimiter.t) (rl : RateLimiter.t) :
  rateLimiter client = Some rl ->
  (forall limiter, meanwhile limiter = limiter) ->
  0 < RateLimiter.maxRequests rl ->
  RateLimiter.size rl <= RateLimiter.maxRequests rl ->
  Forall (fun timestamp => timestamp <= now_check time) (RateLimiter.requests rl) ->
  now_check time <= now_reset time ->
  now_reset time
  + match snd (fst (makeRequest localeCompare createHmac client method endpoint
                      params authType time meanwhile)) with
    | Some waitTime => waitTime
    | None => 0
    end <= now_record time ->
  exists rl',
    rateLimiter (fst (fst (makeRequest localeCompare createHmac client method
                             endpoint params authType time meanwhile))) = Some rl'
    /\ In (now_record time) (RateLimiter.requests rl')
    /\ RateLimiter.size rl' <= RateLimiter.maxRequests rl'
    /\ RateLimiter.maxRequests rl' = RateLimiter.maxRequests rl
    /\ Forall (fun timestamp => timestamp <= now_record time)
              (RateLimiter.requests rl').
Proof.
  intros Hrl Halone Hmax Hsize Hpast Hclock.
  destruct (throttle_makeRequest client method endpoint params authType time
              meanwhile) as [-> ->].
  unfold throttle. rewrite Hrl.
  pose proof (record_after_wait rl (now_check time) (now_reset time) (now_record time)
                Hmax Hsize Hpast Hclock) as H.
  destruct (RateLimiter.waitUntilReady (now_check time) (now_reset time) rl)
    as [slept rl1]. cbn [fst snd] in *. rewrite Halone.
  intros Hwait. destruct (H Hwait) as (Hin & Hb & Hm & _ & Hp).
  eexists. split; [reflexivity|]. rewrite Hm. auto.
Qed.

(** Two calls that overlap.  The limiter allows one request a second and
    holds the request made at 0.  Two calls start at 500: each finds the
    limiter full and sleeps 500.  At 1000 the first records its request; the
    second, resumed after it, records its own on the limiter the first has
    left, which then holds two requests of the same window. *)
Lemma makeRequest_overlapping :
  let limiter := RateLimiter.mk [0] 1000 1 in
  let client := {| rateLimiter := Some limiter; authManager := None;
                   recvWindow := Num 5000; baseUrl := "https://api.example" |} in
  let time := {| now_check := 500; now_reset := 500; now_record := 1000;
                 now_sign := 1000 |} in
  let first := makeRequest localeCompare createHmac client "GET" "/api/v1/ping" []
                 "NONE" time (fun limiter => limiter) in
  let second := makeRequest localeCompare createHmac client "GET" "/api/v1/ping" []
                  "NONE" time (RateLimiter.recordRequest 1000) in
  snd (fst first) = Some 500
  /\ rateLimiter (fst (fst first)) = Some (RateLimiter.mk [1000] 1000 1)
  /\ snd (fst second) = Some 500
  /\ rateLimiter (fst (fst second)) = Some (RateLimiter.mk [1000; 1000] 1000 1).
Proof.
  cbv zeta.
  rewrite !(proj1 (throttle_makeRequest _ _ _ _ _ _ _)),
          !(proj2 (throttle_makeRequest _ _ _ _ _ _ _)).
  repeat split; vm_compute; reflexivity.
Qed.

Lemma Object_set_cons o key v : exists entry rest, SignatureAuth.Object_set o key v = entry :: rest.
Proof. destruct o as [|[k x] o]; simpl; [eauto|]. destruct (String.eqb k key); eauto. Qed.

Lemma cleanParams_keeps params : Forall (fun entry => keeps entry = true) (cleanParams params).
Proof.
  apply List.Forall_forall. intros entry Hin. unfold cleanParams in Hin.
  apply filter_In in Hin as [_ H]. now apply andb_true_iff in H as [H _].
Qed.

Lemma formData_text entry rest :
  keeps entry = true ->
  String.eqb (URLSearchParams.toString (formData (entry :: rest))) "" = false.
Proof.
  intros Hk. unfold formData. cbn [List.filter].
  assert (Hv : match snd entry with VNull | VUndefined => false | _ => true end = true).
  { unfold keeps in Hk. destruct (snd entry); try discriminate; reflexivity. }
  rewrite Hv. cbn [map]. unfold URLSearchParams.toString, Array_join. cbn [map].
  unfold URLSearchParams.pair_string at 1. cbn [fst snd].
  set (tail := map URLSearchParams.pair_string _).
  destruct (URLSearchParams.form_encode (fst entry)) as [|c s], tail as [|y ys];
    reflexivity.
Qed.

(** X18.  Where [makeRequest] puts the parameters of a request it sends.
    A signed request (TRADE, USER_DATA) carries the signed parameters in the
    query and has no body, whatever its method; an unsigned GET or DELETE
    carries the cleaned parameters in the query; any other unsigned request
    carries them as a form in the body.  Parameters never travel both ways,
    and [fetch] is given the content type of a form exactly when there is a
    body, and [application/json] otherwise. *)
Theorem makeRequest_options (client client' : t) (method endpoint : string)
    (params : object) (authType : string) (time : clock)
    (meanwhile : RateLimiter.t -> RateLimiter.t) (slept : option Z)
    (options : HttpRequestOptions) :
  makeRequest localeCompare createHmac client method endpoint params authType time
    meanwhile
  = (client', slept, inr options) ->
  HttpClient.method options = method
  /\ url options = (baseUrl client ++ endpoint)%string
  /\ (if is_signed authType
      then data options = None
           /\ exists auth,
                authManager client = Some auth
                /\ HttpClient.params options
                   = Some (SignatureAuth.signRequest localeCompare createHmac auth
                             (cleanParams params) (recvWindow client)
                             (now_sign time))
      else if shouldUseQueryParams method
      then data options = None
           /\ HttpClient.params options
              = match cleanParams params with
                | [] => None
                | _ => Some (cleanParams params)
                end
      else HttpClient.params options = None
           /\ data options
              = match cleanParams params with
                | [] => None
                | _ => Some (URLSearchParams.toString
                               (formData (cleanParams params)))
                end)
  /\ (data options = None \/ HttpClient.params options = None)
  /\ requestHeaders options !! "Content-Type"
     = Some match data options with
            | Some _ => "application/x-www-form-urlencoded"
            | None => "application/json"
            end.
Proof.
  unfold makeRequest. destruct (throttle client time meanwhile) as [slept0 limiter].
  cbn [authManager recvWindow baseUrl].
  destruct (AuthManager.createHeaders _ _) as [e|headers]; [discriminate|].
  unfold placement. cbn [authManager recvWindow].
  assert (Hempty : forall (q : option object) m u,
    let options0 :=
      {| HttpClient.method := m; url := u;
         headers := delete "Content-Type" headers;
         HttpClient.params := q; data := None |} in
    requestHeaders options0 !! "Content-Type" = Some "application/json").
  { intros q m u. cbv zeta. unfold requestHeaders. cbn [HttpClient.headers].
    match goal with
    | |- context [match ?x with Some _ => _ | None => _ end] =>
        assert (Hd : x = None) by apply lookup_delete_eq; rewrite Hd
    end.
    apply lookup_insert_eq. }
  destruct (is_signed authType).
  - unfold AuthManager.signRequest.
    destruct (authManager client) as [auth|]; [|discriminate].
    destruct (Object_set_cons
                (SignatureAuth.signedParams (cleanParams params) (recvWindow client)
                   (now_sign time))
                "signature"
                (VString (SignatureAuth.generateSignature createHmac auth
                            (createQueryString localeCompare
                               (SignatureAuth.signedParams (cleanParams params)
                                  (recvWindow client) (now_sign time))))))
      as (entry & rest & Hset).
    unfold SignatureAuth.signRequest. rewrite Hset.
    cbn [Object_entries length Nat.ltb Nat.leb].
    intros [= _ _ <-]. cbn [HttpClient.method url data HttpClient.params].
    split; [reflexivity|]. split; [reflexivity|].
    split; [split; [reflexivity|]; exists auth; rewrite Hset; now split|].
    split; [now left|]. apply Hempty.
  - destruct (shouldUseQueryParams method).
    + cbn [Object_entries length Nat.ltb Nat.leb].
      intros [= _ _ <-]. cbn [HttpClient.method url data HttpClient.params].
      split; [reflexivity|]. split; [reflexivity|].
      split; [split; [reflexivity|]; destruct (cleanParams params); reflexivity|].
      split; [now left|]. apply Hempty.
    + pose proof (cleanParams_keeps params) as Hk.
      destruct (cleanParams params) as [|entry rest] eqn:Hc.
      * cbn [Object_entries length Nat.ltb Nat.leb].
        intros [= _ _ <-]. cbn [HttpClient.method url data HttpClient.params].
        split; [reflexivity|]. split; [reflexivity|].
        split; [now split|]. split; [now left|]. apply Hempty.
      * inversion Hk as [|? ? Hentry _]; subst.
        cbn [Object_entries length Nat.ltb Nat.leb].
        rewrite (formData_text entry rest Hentry).
        intros [= _ _ <-]. cbn [HttpClient.method url data HttpClient.params].
        split; [reflexivity|]. split; [reflexivity|].
        split; [now split|]. split; [now right|].
        unfold requestHeaders. cbn [HttpClient.headers].
        match goal with
        | |- context [match ?x with Some _ => _ | None => _ end] =>
            assert (Hi : x = Some "application/x-www-form-urlencoded")
              by apply lookup_insert_eq;
            rewrite Hi
        end.
        exact Hi.
Qed.
End RestRequests.

(** ** Signed requests *)

Section SignedRequests.
Import JS Signature Errors ParameterUtils HttpClient BaseRestClient.
Variable localeCompare : string -> string -> Z.
Variable createHmac : string -> string -> string.
Variable stringValue_other : string -> string.

Lemma Forall_Object_set (P : string * value -> Prop) o key v :
  Forall P o -> P (key, v) -> Forall P (SignatureAuth.Object_set o key v).
Proof.
  intros Ho Hv. induction Ho as [|[k x] o Hx Ho IH]; cbn [SignatureAuth.Object_set].
  - now repeat constructor.
  - destruct (String.eqb_spec k key) as [->|_]; constructor; auto.
Qed.

Lemma Forall_signedParams (P : string * value -> Prop) params recvWindow now :
  Forall P params ->
  (forall n, P ("timestamp", VNumber n)) -> (forall n, P ("recvWindow", VNumber n)) ->
  Forall P (SignatureAuth.signedParams params recvWindow now).
Proof.
  intros Hp Ht Hr. unfold SignatureAuth.signedParams.
  destruct recvWindow as [| |n]; try (now apply Forall_Object_set).
  destruct (truthy (Num n)); repeat apply Forall_Object_set; auto.
Qed.

(** A plain entry is written the same in the signed string and in the URL. *)
Lemma plain_entry_pair entry :
  plain_entry entry = true ->
  URLSearchParams.pair_string (fst entry, stringValue stringValue_other (snd entry))
  = Signature.pair_string entry.
Proof.
  unfold plain_entry, URLSearchParams.pair_string, Signature.pair_string.
  intros H. apply andb_true_iff in H as [Hk Hv]. cbn [fst snd].
  destruct (plain_encodings _ Hk) as [-> ->].
  destruct (snd entry) as [| |b|n|s|repr]; try discriminate Hv;
    cbn [stringValue]; destruct (plain_encodings _ Hv) as [-> ->]; reflexivity.
Qed.

Lemma map_ext_Forall {A B} (f g : A -> B) (P : A -> Prop) l :
  (forall x, P x -> f x = g x) -> Forall P l -> map f l = map g l.
Proof.
  intros H. induction 1 as [|x l Hx _ IH]; [reflexivity|].
  cbn [map]. now rewrite (H x Hx), IH.
Qed.

(** The signed request, as it is built. *)
Lemma makeRequest_signed (client : t) (method endpoint : string) (params : object)
    (authType : string) (time : clock) (meanwhile : RateLimiter.t -> RateLimiter.t)
    (auth : SignatureAuth.t) :
  authManager client = Some auth -> is_signed authType = true ->
  exists options,
    snd (makeRequest localeCompare createHmac client method endpoint params
           authType time meanwhile) = inr options
    /\ HttpClient.params options
       = Some (SignatureAuth.signRequest localeCompare createHmac auth
                 (cleanParams params) (recvWindow client) (now_sign time))
    /\ data options = None.
Proof.
  intros Hauth Hsigned. unfold makeRequest.
  destruct (throttle client time meanwhile) as [slept limiter].
  cbn [authManager recvWindow baseUrl]. rewrite Hsigned, Hauth.
  assert (Hh : exists h, AuthManager.createHeaders (Some auth) "SIGNED" = inr h)
    by (eexists; reflexivity).
  destruct Hh as [h ->]. unfold placement. cbn [authManager recvWindow].
  rewrite ?Hsigned, ?Hauth.
  unfold AuthManager.signRequest.
  destruct (Object_set_cons
              (SignatureAuth.signedParams (cleanParams params) (recvWindow client)
                 (now_sign time))
              "signature"
              (VString (SignatureAuth.generateSignature createHmac auth
                          (createQueryString localeCompare
                             (SignatureAuth.signedParams (cleanParams params)
                                (recvWindow client) (now_sign time))))))
    as (entry & rest & Hset).
  unfold SignatureAuth.signRequest at 1 2. rewrite Hset.
  cbn [Object_entries length Nat.ltb Nat.leb snd].
  eexists. split; [reflexivity|]. cbn [HttpClient.params data].
  split; [|reflexivity]. unfold SignatureAuth.signRequest. now rewrite Hset.
Qed.

(** X19.  What is sent is what was signed.  For a signed request whose
    parameters are plain (keys and values that [encodeURIComponent] and the
    serializer of the URL write alike) and hold no key [signature], with a
    collation that is a total preorder and an HMAC in plain characters: the
    entries that were signed, in the order of the canonical query string, fall
    into those whose key collates up to [signature] and, after them, those
    whose key collates beyond it; the query of the URL requested is the pairs
    of the first, then the pair [signature=...] with the HMAC of the canonical
    query string, then the pairs of the second.  So the signature stands at
    the place the collation gives its key, and not at the end whenever
    [timestamp], which is always signed, collates beyond [signature]. *)
Theorem signed_request_query (client : t) (method endpoint : string)
    (params : object) (authType : string) (time : clock)
    (meanwhile : RateLimiter.t -> RateLimiter.t) (auth : SignatureAuth.t) :
  (forall a b, localeCompare a b <= 0 \/ localeCompare b a <= 0) ->
  (forall a b c, localeCompare a b <= 0 -> localeCompare b c <= 0 ->
                 localeCompare a c <= 0) ->
  (forall key text, URLSearchParams.plain (createHmac key text) = true
                    /\ createHmac key text <> "") ->
  authManager client = Some auth -> is_signed authType = true ->
  Forall (fun entry => plain_entry entry = true) params ->
  ~ In "signature" (map fst params) ->
  exists options before after,
    snd (makeRequest localeCompare createHmac client method endpoint params
           authType time meanwhile) = inr options
    /\ queryEntries localeCompare
         (SignatureAuth.signedParams (cleanParams params) (recvWindow client)
            (now_sign time))
       = before ++ after
    /\ Forall (fun entry => localeCompare (fst entry) "signature" <= 0) before
    /\ Forall (fun entry => 0 < localeCompare (fst entry) "signature") after
    /\ (0 < localeCompare "timestamp" "signature" -> after <> [])
    /\ createQueryString localeCompare
         (SignatureAuth.signedParams (cleanParams params) (recvWindow client)
            (now_sign time))
       = Array_join "&" (map Signature.pair_string before
                         ++ map Signature.pair_string after)
    /\ search localeCompare stringValue_other options
       = Array_join "&"
           (map Signature.pair_string before
            ++ ("signature="
                ++ createHmac (SignatureAuth.apiSecret auth)
                     (createQueryString localeCompare
                        (SignatureAuth.signedParams (cleanParams params)
                           (recvWindow client) (now_sign time))))%string
               :: map Signature.pair_string after).
Proof.
  intros total trans Hhmac Hauth Hsigned Hplain Hfresh.
  destruct (makeRequest_signed client method endpoint params authType time
              meanwhile auth Hauth Hsigned) as (options & Hopt & Hparams & _).
  set (sp := SignatureAuth.signedParams (cleanParams params) (recvWindow client)
               (now_sign time)) in *.
  set (sig := createHmac (SignatureAuth.apiSecret auth)
                (createQueryString localeCompare sp)).
  assert (Hfresh' : ~ In "signature" (map fst (cleanParams params))).
  { intros Hin. apply Hfresh. apply in_map_iff in Hin as (e & He & Hin).
    apply in_map_iff. exists e. split; [exact He|].
    unfold cleanParams in Hin. now apply filter_In in Hin as [Hin _]. }
  rewrite (signRequest_entries localeCompare createHmac auth (cleanParams params)
             (recvWindow client) (now_sign time) Hfresh') in Hparams.
  fold sp in Hparams. fold sig in Hparams.
  (* every signed entry is kept and plain *)
  assert (Hgood : Forall (fun entry => keeps entry = true /\ plain_entry entry = true) sp).
  { apply Forall_signedParams.
    - apply List.Forall_forall. intros e Hin.
      pose proof (cleanParams_keeps params) as Hk.
      rewrite List.Forall_forall in Hk, Hplain. split; [now apply Hk|].
      apply Hplain. unfold cleanParams in Hin. now apply filter_In in Hin as [Hin _].
    - intros n. split; [reflexivity|]. unfold plain_entry. cbn [fst snd JS_String].
      now rewrite plain_pretty.
    - intros n. split; [reflexivity|]. unfold plain_entry. cbn [fst snd JS_String].
      now rewrite plain_pretty. }
  destruct (Hhmac (SignatureAuth.apiSecret auth) (createQueryString localeCompare sp))
    as [Hsigplain Hsigne]. fold sig in Hsigplain, Hsigne.
  assert (Hsigkeep : keeps ("signature", VString sig) = true).
  { unfold keeps. cbn [snd]. destruct sig; [congruence | reflexivity]. }
  (* the two sorts *)
  destruct (Array_sort_snoc (by_key localeCompare)
              (fun a b => total (fst a) (fst b))
              (fun a b c => trans (fst a) (fst b) (fst c))
              sp ("signature", VString sig))
    as (l1 & l2 & Hwith & Hwithout & Hbefore & Hafter).
  assert (Hgood12 : Forall (fun entry => keeps entry = true /\ plain_entry entry = true)
                           (l1 ++ l2)).
  { rewrite <- Hwithout. eapply Permutation_Forall; [|exact Hgood].
    symmetry. apply Array_sort_perm. }
  apply Forall_app in Hgood12 as [Hgood1 Hgood2].
  assert (Hkeep : forall l, Forall (fun entry => keeps entry = true
                                                 /\ plain_entry entry = true) l ->
                            List.filter keeps l = l).
  { intros l Hl. apply filter_all_id. eapply List.Forall_impl; [|exact Hl].
    now intros e [He _]. }
  assert (Hentries : queryEntries localeCompare sp = l1 ++ l2).
  { unfold queryEntries, Object_entries. now rewrite (Hkeep sp Hgood). }
  exists options, l1, l2.
  split; [exact Hopt|]. split; [exact Hentries|].
  split; [exact Hbefore|]. split; [exact Hafter|]. split; [|split].
  - intros Hlater ->. rewrite app_nil_r in Hwithout.
    assert (Hin : In "timestamp" (map fst l1)).
    { eapply Permutation_in.
      - apply Permutation_map. symmetry. rewrite <- Hwithout. apply Array_sort_perm.
      - unfold sp. apply (proj2 (signedParams_keys localeCompare createHmac _ _ _ _)).
        now left. }
    apply in_map_iff in Hin as (e & He & Hin).
    rewrite List.Forall_forall in Hbefore. specialize (Hbefore e Hin).
    unfold by_key in Hbefore. cbn [fst] in Hbefore. rewrite He in Hbefore. lia.
  - unfold createQueryString. rewrite Hentries. now rewrite map_app.
  - unfold search. rewrite Hparams. unfold URLSearchParams.toString, searchParams,
      Object_entries. rewrite Hwith.
    rewrite List.filter_app. cbn [List.filter]. rewrite Hsigkeep.
    rewrite (Hkeep l1 Hgood1), (Hkeep l2 Hgood2).
    rewrite !map_app. cbn [map].
    rewrite !map_map.
    rewrite (map_ext_Forall _ Signature.pair_string _ l1
               (fun e H => plain_entry_pair e (proj2 H)) Hgood1).
    rewrite (map_ext_Forall _ Signature.pair_string _ l2
               (fun e H => plain_entry_pair e (proj2 H)) Hgood2).
    unfold URLSearchParams.pair_string at 1. cbn [fst snd stringValue JS_String].
    destruct (plain_encodings sig Hsigplain) as [_ ->]. reflexivity.
Qed.
End SignedRequests.

(** ** The collation is a preorder *)

Section CollationOrder.
Import Collation.

Lemma lex_compare_refl l : lex_compare l l = Eq.
Proof. induction l as [|x l IH]; simpl; [reflexivity|]. now rewrite N.compare_refl. Qed.

Lemma lex_compare_Eq l1 : forall l2, lex_compare l1 l2 = Eq -> l1 = l2.
Proof.
  induction l1 as [|x l1 IH]; intros [|y l2]; simpl; try discriminate; [reflexivity|].
  destruct (x ?= y)%N eqn:Hxy; try discriminate.
  intros H. apply N.compare_eq in Hxy. subst y. now rewrite (IH l2 H).
Qed.

Lemma lex_compare_Lt_trans l1 : forall l2 l3,
  lex_compare l1 l2 = Lt -> lex_compare l2 l3 = Lt -> lex_compare l1 l3 = Lt.
Proof.
  induction l1 as [|x l1 IH]; intros [|y l2] [|z l3]; simpl; try discriminate; auto.
  destruct (x ?= y)%N eqn:Hxy; try discriminate;
    destruct (y ?= z)%N eqn:Hyz; try discriminate; intros H1 H2.
  - apply N.compare_eq in Hxy. apply N.compare_eq in Hyz. subst.
    rewrite N.compare_refl. eauto.
  - apply N.compare_eq in Hxy. subst. now rewrite Hyz.
  - apply N.compare_eq in Hyz. subst. now rewrite Hxy.
  - pose proof (proj1 (N.compare_lt_iff _ _) Hxy) as Lxy.
    pose proof (proj1 (N.compare_lt_iff _ _) Hyz) as Lyz.
    assert (Hxz : (x ?= z)%N = Lt) by (apply N.compare_lt_iff; lia). now rewrite Hxz.
Qed.

Lemma lex_compare_le_trans l1 l2 l3 :
  lex_compare l1 l2 <> Gt -> lex_compare l2 l3 <> Gt -> lex_compare l1 l3 <> Gt.
Proof.
  destruct (lex_compare l1 l2) eqn:H12; [| |congruence];
    destruct (lex_compare l2 l3) eqn:H23; try congruence; intros _ _.
  - apply lex_compare_Eq in H12, H23. subst. now rewrite lex_compare_refl.
  - apply lex_compare_Eq in H12. subst. now rewrite H23.
  - apply lex_compare_Eq in H23. subst. now rewrite H12.
  - now rewrite (lex_compare_Lt_trans l1 l2 l3 H12 H23).
Qed.

Lemma localeCompare_en_le a b :
  localeCompare_en a b <= 0 <->
  lex_compare (weights primary_weight a) (weights primary_weight b) = Lt
  \/ (lex_compare (weights primary_weight a) (weights primary_weight b) = Eq
      /\ lex_compare (weights tertiary_weight a) (weights tertiary_weight b) <> Gt).
Proof.
  unfold localeCompare_en.
  destruct (lex_compare (weights primary_weight a) _);
    [destruct (lex_compare (weights tertiary_weight a) _)| |];
    split; intros H; try lia; try (now left); try (right; split; congruence);
    destruct H as [H|[H1 H2]]; congruence.
Qed.

Lemma localeCompare_en_trans a b c :
  localeCompare_en a b <= 0 -> localeCompare_en b c <= 0 -> localeCompare_en a c <= 0.
Proof.
  rewrite !localeCompare_en_le.
  intros [Hab|[Hab Tab]] [Hbc|[Hbc Tbc]].
  - left. eapply lex_compare_Lt_trans; eauto.
  - left. apply lex_compare_Eq in Hbc. now rewrite <- Hbc.
  - left. apply lex_compare_Eq in Hab. now rewrite Hab.
  - right. apply lex_compare_Eq in Hab, Hbc. rewrite Hab, Hbc. split.
    + apply lex_compare_refl.
    + eapply lex_compare_le_trans; eauto.
Qed.
End CollationOrder.

Lemma toUrlEncoded_sorted_witness :
  Sorted (Signature.key_le Collation.localeCompare_en)
    (ParameterUtils.cleanParams
       [("side", JS.VString "BUY"); ("note", JS.VString "");
        ("symbol", JS.VString "BTCUSDT"); ("type", JS.VString "LIMIT")])
  /\ ParameterUtils.toUrlEncoded
       [("side", JS.VString "BUY"); ("note", JS.VString "");
        ("symbol", JS.VString "BTCUSDT"); ("type", JS.VString "LIMIT")]
     = "side=BUY&symbol=BTCUSDT&type=LIMIT"
  /\ Signature.createQueryString Collation.localeCompare_en
       (ParameterUtils.cleanParams
          [("side", JS.VString "BUY"); ("note", JS.VString "");
           ("symbol", JS.VString "BTCUSDT"); ("type", JS.VString "LIMIT")])
     = "side=BUY&symbol=BTCUSDT&type=LIMIT".
Proof.
  assert (Hs : Sorted (Signature.key_le Collation.localeCompare_en)
                 (ParameterUtils.cleanParams
                    [("side", JS.VString "BUY"); ("note", JS.VString "");
                     ("symbol", JS.VString "BTCUSDT"); ("type", JS.VString "LIMIT")])).
  { repeat constructor; vm_compute; intros H; discriminate H. }
  split; [exact Hs|]. split; [vm_compute; reflexivity|].
  rewrite (toUrlEncoded_sorted Collation.localeCompare_en _ Hs).
  vm_compute. reflexivity.
Defined.

Lemma signRequest_signed_witness :
  (In "signature" (map fst [("symbol", JS.VString "BTCUSDT");
                            ("timestamp", JS.VNumber 1)]) -> False)
  /\ SignatureAuth.signRequest Collation.localeCompare_en
       (fun secret data => (secret ++ ":" ++ data)%string)
       {| SignatureAuth.apiKey := "key"; SignatureAuth.apiSecret := "secret" |}
       [("symbol", JS.VString "BTCUSDT"); ("timestamp", JS.VNumber 1)]
       (Errors.Num 5000) 1700000000000
     = [("symbol", JS.VString "BTCUSDT"); ("timestamp", JS.VNumber 1700000000000);
        ("recvWindow", JS.VNumber 5000);
        ("signature",
         JS.VString
           "secret:recvWindow=5000&symbol=BTCUSDT&timestamp=1700000000000")].
Proof.
  assert (Hfresh : ~ In "signature" (map fst [("symbol", JS.VString "BTCUSDT");
                                              ("timestamp", JS.VNumber 1)])).
  { simpl. intros [H|[H|[]]]; discriminate H. }
  split; [exact Hfresh|].
  rewrite (proj1 (signRequest_signed Collation.localeCompare_en
              (fun secret data => (secret ++ ":" ++ data)%string)
              {| SignatureAuth.apiKey := "key"; SignatureAuth.apiSecret := "secret" |}
              [("symbol", JS.VString "BTCUSDT"); ("timestamp", JS.VNumber 1)]
              (Errors.Num 5000) 1700000000000 Hfresh)).
  vm_compute. reflexivity.
Defined.

Lemma getRetryDelay_reads_header_witness :
  Errors.getRetryDelay
    (Errors.fromHttpResponse 429 (Some {[ "retry-after" := "30" ]}))
    (inject_Z 1000)
  = inject_Z 30000.
Proof.
  refine (proj2 (getRetryDelay_reads_header 429 30 {[ "retry-after" := "30" ]}
                   (inject_Z 1000) _ _ _)).
  - left. reflexivity.
  - vm_compute. intros H. discriminate H.
  - vm_compute. reflexivity.
Defined.

Lemma handleMessage_routes_witness :
  WebSocket.handleMessage
    (WebSocket.new WebSocket.defaultConfig WebSocket.all_handlers)
    (WebSocket.frame_of
       (WebSocket.JObject
          [("stream", WebSocket.JString "btcusdt@kline_1m");
           ("data", WebSocket.JObject [("e", WebSocket.JString "kline");
                                       ("s", WebSocket.JString "BTCUSDT")])]))
  = ([WebSocket.Call "onKline"
        (WebSocket.Data
           (WebSocket.JObject
              [("stream", WebSocket.JString "btcusdt@kline_1m");
               ("data", WebSocket.JObject [("e", WebSocket.JString "kline");
                                           ("s", WebSocket.JString "BTCUSDT")])]));
      WebSocket.Emit "kline"
        (WebSocket.Data
           (WebSocket.JObject
              [("stream", WebSocket.JString "btcusdt@kline_1m");
               ("data", WebSocket.JObject [("e", WebSocket.JString "kline");
                                           ("s", WebSocket.JString "BTCUSDT")])]))],
     WebSocket.Returned).
Proof.
  pose (m := WebSocket.JObject
          [("stream", WebSocket.JString "btcusdt@kline_1m");
           ("data", WebSocket.JObject [("e", WebSocket.JString "kline");
                                       ("s", WebSocket.JString "BTCUSDT")])]).
  assert (Ht : WebSocket.has_text (WebSocket.frame_of m)) by (vm_compute; reflexivity).
  assert (Hin : In ("kline", ("onKline", "kline")) WebSocket.routes)
    by (simpl; tauto).
  refine (handleMessage_routes
            (WebSocket.new WebSocket.defaultConfig WebSocket.all_handlers)
            (WebSocket.frame_of m) m None "kline" "onKline" "kline"
            Ht eq_refl eq_refl eq_refl Hin _).
  right. exists None, (Some (WebSocket.JObject [("e", WebSocket.JString "kline");
                                                ("s", WebSocket.JString "BTCUSDT")])).
  repeat split. now left.
Defined.

Lemma reply_after_timeout_witness :
  WebSocket.pending
    (fst (WebSocket.run (WebSocket.new WebSocket.defaultConfig WebSocket.all_handlers)
            [WebSocket.CallConnect; WebSocket.OnOpen;
             WebSocket.CallSubscribe ["btcusdt@trade"]]))
  = [{| WebSocket.awaited := 1;
        WebSocket.on_resolve := WebSocket.AddStreams ["btcusdt@trade"] |}]
  /\ WebSocket.subscriptions
       (fst (WebSocket.run
               (fst (WebSocket.run
                       (WebSocket.new WebSocket.defaultConfig WebSocket.all_handlers)
                       [WebSocket.CallConnect; WebSocket.OnOpen;
                        WebSocket.CallSubscribe ["btcusdt@trade"]]))
               [WebSocket.RequestTimer 1;
                WebSocket.OnMessage (WebSocket.frame_of (WebSocket.reply 1))]))
     = [].
Proof.
  split; [vm_compute; reflexivity|].
  exact (proj1 (proj2 (reply_after_timeout
    (fst (WebSocket.run (WebSocket.new WebSocket.defaultConfig WebSocket.all_handlers)
            [WebSocket.CallConnect; WebSocket.OnOpen;
             WebSocket.CallSubscribe ["btcusdt@trade"]]))
    1 (WebSocket.frame_of (WebSocket.reply 1)) (WebSocket.reply 1)
    eq_refl eq_refl))).
Defined.

Lemma subscribe_sequential_ceiling_witness :
  WebSocket.pending (WebSocket.connected_with ["btcusdt@ticker"]) = []
  /\ WebSocket.Set_size
       (WebSocket.subscriptions
          (fst (WebSocket.run (WebSocket.connected_with ["btcusdt@ticker"])
                  [WebSocket.CallSubscribe ["ethusdt@trade"];
                   WebSocket.OnMessage (WebSocket.frame_of (WebSocket.reply 2))])))
     <= Constants.MAX_SUBSCRIPTIONS.
Proof.
  assert (Hp : WebSocket.pending (WebSocket.connected_with ["btcusdt@ticker"]) = [])
    by (vm_compute; reflexivity).
  split; [exact Hp|].
  apply (subscribe_sequential_ceiling _ _ _ Hp).
  vm_compute. intros H. discriminate H.
Defined.

Lemma reconnectAttempts_bounded_witness :
  0 <= WebSocket.reconnectAttempts
         (fst (WebSocket.run (WebSocket.new WebSocket.defaultConfig ∅)
                 [WebSocket.CallConnect; WebSocket.OnClose 1006 "";
                  WebSocket.ReconnectTimer; WebSocket.OnClose 1006 ""]))
    <= 5.
Proof.
  apply (reconnectAttempts_bounded (WebSocket.new WebSocket.defaultConfig ∅)).
  - vm_compute. split; intros H; discriminate H.
  - vm_compute. split; intros H; discriminate H.
Defined.

Lemma makeRequest_throttled_witness :
  exists rl',
    BaseRestClient.rateLimiter
      (fst (fst (BaseRestClient.makeRequest Collation.localeCompare_en
                   (fun key text => "5f2c")
                   {| BaseRestClient.rateLimiter :=
                        Some (RateLimiter.mk [1700000000000; 1700000000200] 1000 2);
                      BaseRestClient.authManager := None;
                      BaseRestClient.recvWindow := Errors.Num 5000;
                      BaseRestClient.baseUrl := "https://api.example" |}
                   "GET" "/api/v1/account" [] "USER_DATA"
                   {| BaseRestClient.now_check := 1700000000500;
                      BaseRestClient.now_reset := 1700000000500;
                      BaseRestClient.now_record := 1700000001000;
                      BaseRestClient.now_sign := 1700000001000 |}
                   (fun limiter => limiter))))
    = Some rl'
    /\ In 1700000001000 (RateLimiter.requests rl')
    /\ RateLimiter.size rl' <= RateLimiter.maxRequests rl'.
Proof.
  destruct (makeRequest_throttled Collation.localeCompare_en (fun key text => "5f2c")
              {| BaseRestClient.rateLimiter :=
                   Some (RateLimiter.mk [1700000000000; 1700000000200] 1000 2);
                 BaseRestClient.authManager := None;
                 BaseRestClient.recvWindow := Errors.Num 5000;
                 BaseRestClient.baseUrl := "https://api.example" |}
              "GET" "/api/v1/account" [] "USER_DATA"
              {| BaseRestClient.now_check := 1700000000500;
                 BaseRestClient.now_reset := 1700000000500;
                 BaseRestClient.now_record := 1700000001000;
                 BaseRestClient.now_sign := 1700000001000 |}
              (fun limiter => limiter)
              (RateLimiter.mk [1700000000000; 1700000000200] 1000 2)
              eq_refl (fun limiter => eq_refl))
    as (rl' & Hrl & Hin & Hsize & _).
  - reflexivity.
  - vm_compute. intros H. discriminate H.
  - repeat constructor; vm_compute; intros H; discriminate H.
  - vm_compute. intros H. discriminate H.
  - vm_compute. intros H. discriminate H.
  - exists rl'. auto.
Defined.

Lemma makeRequest_options_witness :
  exists options,
    snd (BaseRestClient.makeRequest Collation.localeCompare_en
           (fun key text => "5f2c")
           {| BaseRestClient.rateLimiter := None;
              BaseRestClient.authManager := None;
              BaseRestClient.recvWindow := Errors.Num 5000;
              BaseRestClient.baseUrl := "https://api.example" |}
           "POST" "/api/v1/listenKey"
           [("listenKey", JS.VString "abc"); ("note", JS.VString "")] "NONE"
           {| BaseRestClient.now_check := 1700000000500;
              BaseRestClient.now_reset := 1700000000500;
              BaseRestClient.now_record := 1700000001000;
              BaseRestClient.now_sign := 1700000001000 |}
           (fun limiter => limiter))
    = inr options
    /\ HttpClient.params options = None
    /\ HttpClient.data options = Some "listenKey=abc"
    /\ HttpClient.requestHeaders options !! "Content-Type"
       = Some "application/x-www-form-urlencoded".
Proof.
  destruct (BaseRestClient.makeRequest Collation.localeCompare_en
              (fun key text => "5f2c")
              {| BaseRestClient.rateLimiter := None;
                 BaseRestClient.authManager := None;
                 BaseRestClient.recvWindow := Errors.Num 5000;
                 BaseRestClient.baseUrl := "https://api.example" |}
              "POST" "/api/v1/listenKey"
              [("listenKey", JS.VString "abc"); ("note", JS.VString "")] "NONE"
              {| BaseRestClient.now_check := 1700000000500;
                 BaseRestClient.now_reset := 1700000000500;
                 BaseRestClient.now_record := 1700000001000;
                 BaseRestClient.now_sign := 1700000001000 |}
              (fun limiter => limiter))
    as [[client' slept] [e|options]] eqn:Hrun.
  - vm_compute in Hrun. discriminate Hrun.
  - exists options. split; [reflexivity|].
    destruct (makeRequest_options _ _ _ _ _ _ _ _ _ _ _ _ Hrun)
      as (_ & _ & Hplace & _ & Hct).
    destruct Hplace as [Hp Hd]. split; [exact Hp|].
    assert (Hdata : HttpClient.data options = Some "listenKey=abc") by exact Hd.
    split; [exact Hdata|]. rewrite Hct, Hdata. reflexivity.
Defined.

Lemma signed_request_query_witness :
  exists options before after,
    snd (BaseRestClient.makeRequest Collation.localeCompare_en
           (fun key text => "5f2c")
           {| BaseRestClient.rateLimiter := None;
              BaseRestClient.authManager :=
                Some {| SignatureAuth.apiKey := "key";
                        SignatureAuth.apiSecret := "secret" |};
              BaseRestClient.recvWindow := Errors.Num 5000;
              BaseRestClient.baseUrl := "https://api.example" |}
           "POST" "/api/v1/order"
           [("symbol", JS.VString "BTCUSDT"); ("side", JS.VString "BUY")] "TRADE"
           {| BaseRestClient.now_check := 1700000000500;
              BaseRestClient.now_reset := 1700000000500;
              BaseRestClient.now_record := 1700000001000;
              BaseRestClient.now_sign := 1700000001000 |}
           (fun limiter => limiter))
    = inr options
    /\ Signature.queryEntries Collation.localeCompare_en
         (SignatureAuth.signedParams
            [("symbol", JS.VString "BTCUSDT"); ("side", JS.VString "BUY")]
            (Errors.Num 5000) 1700000001000)
       = before ++ after
    /\ Forall (fun entry => Collation.localeCompare_en (fst entry) "signature" <= 0)
         before
    /\ Forall (fun entry => 0 < Collation.localeCompare_en (fst entry) "signature")
         after
    /\ after <> []
    /\ Signature.createQueryString Collation.localeCompare_en
         (SignatureAuth.signedParams
            [("symbol", JS.VString "BTCUSDT"); ("side", JS.VString "BUY")]
            (Errors.Num 5000) 1700000001000)
       = "recvWindow=5000&side=BUY&symbol=BTCUSDT&timestamp=1700000001000"
    /\ HttpClient.search Collation.localeCompare_en (fun repr => repr) options
       = JS.Array_join "&"
           (map (Signature.pair_string) before
            ++ "signature=5f2c" :: map (Signature.pair_string) after)
    /\ HttpClient.search Collation.localeCompare_en (fun repr => repr) options
       = "recvWindow=5000&side=BUY&signature=5f2c&symbol=BTCUSDT&timestamp=1700000001000".
Proof.
  assert (Hplain : Forall (fun entry => HttpClient.plain_entry entry = true)
                     [("symbol", JS.VString "BTCUSDT"); ("side", JS.VString "BUY")])
    by (repeat constructor).
  assert (Hfresh : ~ In "signature"
                     (map fst [("symbol", JS.VString "BTCUSDT");
                               ("side", JS.VString "BUY")])).
  { simpl. intros [H|[H|[]]]; discriminate H. }
  assert (Hhmac : forall key text : string,
             URLSearchParams.plain ((fun _ _ : string => "5f2c") key text) = true
             /\ (fun _ _ : string => "5f2c") key text <> "").
  { intros key text. split; [reflexivity|]. intros H. discriminate H. }
  destruct (signed_request_query Collation.localeCompare_en (fun key text => "5f2c")
              (fun repr => repr)
              {| BaseRestClient.rateLimiter := None;
                 BaseRestClient.authManager :=
                   Some {| SignatureAuth.apiKey := "key";
                           SignatureAuth.apiSecret := "secret" |};
                 BaseRestClient.recvWindow := Errors.Num 5000;
                 BaseRestClient.baseUrl := "https://api.example" |}
              "POST" "/api/v1/order"
              [("symbol", JS.VString "BTCUSDT"); ("side", JS.VString "BUY")] "TRADE"
              {| BaseRestClient.now_check := 1700000000500;
                 BaseRestClient.now_reset := 1700000000500;
                 BaseRestClient.now_record := 1700000001000;
                 BaseRestClient.now_sign := 1700000001000 |}
              (fun limiter => limiter)
              {| SignatureAuth.apiKey := "key"; SignatureAuth.apiSecret := "secret" |}
              localeCompare_en_total localeCompare_en_trans Hhmac
              eq_refl eq_refl Hplain Hfresh)
    as (options & before & after & Hopt & Hentries & Hbefore & Hafter & Hlast
        & _ & Hsearch).
  exists options, before, after. split; [exact Hopt|].
  split; [exact Hentries|]. split; [exact Hbefore|]. split; [exact Hafter|].
  split; [apply Hlast; vm_compute; reflexivity|].
  split; [vm_compute; reflexivity|]. split; [exact Hsearch|].
  vm_compute in Hopt. injection Hopt as <-. vm_compute. reflexivity.
Defined.
